(** * Gridways: the generation and animation engine of src/gridways/sketch.ts

    A shallow embedding of the pure core of the sketch: the recursive grid
    partitioner, the conversion of grid lines to pixel rectangles, the palette
    walk of the content assigner, the construction of the timeline animation
    and its evaluation at a tick.

    Numbers.  A JavaScript [number] is a double.  The development has two
    renderings of its arithmetic.

    The main one takes a number to be its exact rational value ([Q]):
    grid-unit coordinates, which the partitioner only compares with integer
    constants and moves by one, are integers ([Z]); equality of numbers
    ([===]) is equality of values ([Qeq_bool]), so statements about computed
    numbers are up to [==]; [NaN], which the source can only meet as the
    result of [x % 0], is an explicit [None].  This rendering computes what
    the source computes wherever the doubles involved are exact, which is
    the case for whole numbers of ticks and of grid units ([wholeNumber])
    and for weights that are binary fractions ([binaryFraction]).

    The second one ([Binary64], [Timeline64], [Content64]) repeats the
    timeline engine, the palette walk and the construction of the timeline
    over IEEE 754 binary64 values, every operation rounded to nearest even
    as specified by [SpecFloat].  It is used where rounding decides the
    outcome, and it is where the behaviour on whole numbers of ticks is
    proved for the doubles themselves.

    Collaborators.  The functions that the sketch imports and that are not
    part of it are parameters of the sections that use them: the easing
    curve [easeOutElastic], the seeded source [rand] with the helpers
    [random] and [randomByWeights] built on it, and the noise field
    [noise2D].  The seeded source is threaded as a state. *)

From Stdlib Require Import ZArith QArith Qround Qreduction Qabs Qminmax.
From Stdlib Require Import List String Bool Lia Lqa Morphisms Setoid.
From Stdlib Require Import Floats.SpecFloat.
Import ListNotations.

Set Warnings "-register-all,-notation-for-abbreviation".

Open Scope Q_scope.

(** ** Numbers *)

(** [Math.trunc]: rounding towards zero. *)
Definition Qtrunc (x : Q) : Z :=
  if Qle_bool 0 x then Qfloor x else Qceiling x.

(** The remainder operator [a % b]: the sign follows the dividend, and the
    result is [NaN] ([None]) when the divisor is zero.  The value is kept in
    lowest terms. *)
Definition jsRem (a b : Q) : option Q :=
  if Qeq_bool b 0 then None
  else Some (Qred (a - b * inject_Z (Qtrunc (a / b)))).

(** [a < b] and [a >= b] on numbers. *)
Definition Qlt_bool (a b : Q) : bool := negb (Qle_bool b a).
Definition Qge_bool (a b : Q) : bool := Qle_bool b a.

(** A whole number of magnitude at most [2^50]: a count of ticks or of grid
    units.  Sums, differences and remainders of such numbers are computed
    without rounding in double precision. *)
Definition wholeNumber (x : Q) : bool :=
  Qeq_bool x (inject_Z (Qfloor x))
  && Qle_bool (Qabs x) (inject_Z (2 ^ 50)).

(** A weight between 0 and 1 that is a multiple of [2^-20], such as the
    0.25 of the default gene: it is a double, and subtracting it from a
    double that is not below it is exact. *)
Definition binaryFraction (x : Q) : bool :=
  Qle_bool 0 x && Qle_bool x 1
  && Qeq_bool (x * inject_Z (2 ^ 20))
       (inject_Z (Qfloor (x * inject_Z (2 ^ 20)))).

(** ** Geometry (types.d.ts) *)

Definition Cord : Type := Q * Q.
Definition Line : Type := Cord * Cord.
Definition Rect : Type := Cord * Cord.

(** A line whose four coordinates are whole numbers. *)
Definition wholeLine (l : Line) : bool :=
  wholeNumber (fst (fst l)) && wholeNumber (snd (fst l))
  && wholeNumber (fst (snd l)) && wholeNumber (snd (snd l)).

Definition Cord_eq (a b : Cord) : Prop := fst a == fst b /\ snd a == snd b.
Definition Line_eq (l m : Line) : Prop :=
  Cord_eq (fst l) (fst m) /\ Cord_eq (snd l) (snd m).
Definition Lines_eq (ls ms : list Line) : Prop := Forall2 Line_eq ls ms.

(** [arr[i]] for a number [i]: [undefined] ([None]) outside the array. *)
Definition arrayGet {A : Type} (arr : list A) (i : Z) : option A :=
  if (0 <=? i)%Z then nth_error arr (Z.to_nat i) else None.

(** ** The timeline animation engine *)

Module Timeline.

(** Animation nodes (types.d.ts).  [props] is only ever read through
    [props.lineIndex]; a node without that property has
    [lineIndex = None]. *)

Inductive Animation : Type :=
  mkAnimation {
    startDelayInTicks : Q;
    durationInTicks : Q;
    endDelayInTicks : Q;
    lineIndex : option Z;
    type : string;
    subAnimations : list Animation }.

Inductive AnimateLineType : Type :=
  | static
  | start_suck
  | start_expand
  | end_suck
  | end_expand.

Definition animationSequence : list AnimateLineType :=
  [start_expand; start_suck; end_suck; end_expand].

Section Engine.

(** The easing curve of utils/easing, an external collaborator. *)
Variable easeOutElastic : Q -> Q.

(** The pair (startRatio, endRatio) that [animateLine] computes from the
    animation type and the proportion.  [None] is the [undefined] type,
    which leaves both ratios at [0]. *)
Definition animateRatios (ty : option AnimateLineType) (proportion : Q)
  : Q * Q :=
  match ty with
  | Some static => (0, proportion)
  | Some start_suck => (1 - easeOutElastic proportion, 1)
  | Some start_expand => (easeOutElastic proportion, 1)
  | Some end_suck => (0, 1 - easeOutElastic proportion)
  | Some end_expand => (0, easeOutElastic proportion)
  | None => (0, 0)
  end.

Definition animateLine (l : Line) (ty : option AnimateLineType)
    (proportion : Q) : Line :=
  let '(startRatio, endRatio) := animateRatios ty proportion in
  let '((l00, l01), (l10, l11)) := l in
  (* if vert, scale the y value *)
  if Qeq_bool (l10 - l00) 0 then
    ((l00, l01 + (l11 - l01) * startRatio),
     (l10, l01 + (l11 - l01) * endRatio))
  (* if horz, scale the x value *)
  else if Qeq_bool (l11 - l01) 0 then
    ((l00 + (l10 - l00) * startRatio, l01),
     (l00 + (l10 - l00) * endRatio, l11))
  else l.

Definition completeTicksDuration (anim : Animation) : Q :=
  startDelayInTicks anim + durationInTicks anim + endDelayInTicks anim.

(** The sub-phase and the proportion of a breath node, from the tick
    relative to the start of its active window. *)
Definition breathStep (duration relativeTickToDuration : Q)
  : option AnimateLineType * Q :=
  let sequenceDurationInTicks :=
    duration / inject_Z (Z.of_nat (List.length animationSequence)) in
  match jsRem relativeTickToDuration sequenceDurationInTicks with
  | Some m =>
      let proportion := m / sequenceDurationInTicks in
      let animationIndex :=
        Qfloor (relativeTickToDuration / sequenceDurationInTicks) in
      (arrayGet animationSequence animationIndex, proportion)
  | None =>
      (* a zero sub-phase length: the index is not a finite number, the
         type is undefined and the proportion is not used *)
      (None, 0)
  end.

(** The result is [None] when a sub-animation picks a line that is
    [undefined] ([lines[a.props.lineIndex]] outside [lines]): the source
    then raises a [TypeError] at the first coordinate access, in
    [animateLine] or, when the undefined line is passed through, in the
    converter that consumes the result. *)
Fixpoint getAnimatedLinesWithAnimations (anim : Animation)
    (lines : list Line) (tick : Q) {struct anim} : option (list Line) :=
  let completeTicksDuration :=
    startDelayInTicks anim + durationInTicks anim + endDelayInTicks anim in
  let hold := Some (map (fun l => animateLine l (Some static) 1) lines) in
  match jsRem tick completeTicksDuration with
  | None => Some lines
  | Some relativeTick =>
      if Qlt_bool relativeTick (startDelayInTicks anim) then hold
      else if Qge_bool relativeTick (startDelayInTicks anim)
              && Qlt_bool relativeTick
                   (completeTicksDuration - endDelayInTicks anim)
      then
        if String.eqb (type anim) "timeline" then
          (fix lineGroups (subs : list Animation) : option (list Line) :=
             match subs with
             | [] => Some []
             | a :: rest =>
                 match
                   match lineIndex a with
                   | Some i => arrayGet lines i
                   | None => None
                   end
                 with
                 | None => None
                 | Some pickedLine =>
                     match
                       getAnimatedLinesWithAnimations a [pickedLine]
                         (relativeTick - startDelayInTicks anim),
                       lineGroups rest
                     with
                     | Some g, Some gs => Some (g ++ gs)
                     | _, _ => None
                     end
                 end
             end) (subAnimations anim)
        else if String.eqb (type anim) "breath" then
          let relativeTickToDuration :=
            relativeTick - startDelayInTicks anim in
          let '(ty, proportion) :=
            breathStep (durationInTicks anim) relativeTickToDuration in
          Some (map (fun l => animateLine l ty proportion) lines)
        else hold
      else if Qge_bool relativeTick
                (completeTicksDuration - endDelayInTicks anim)
      then hold
      else Some lines
  end.

End Engine.
End Timeline.

(** ** The grid partitioner *)

Module Grid.

(** Grid-unit coordinates and lines. *)
Definition GridCord : Type := Z * Z.
Definition GridLine : Type := GridCord * GridCord.

Definition lineOfGrid (l : GridLine) : Line :=
  ((inject_Z (fst (fst l)), inject_Z (snd (fst l))),
   (inject_Z (fst (snd l)), inject_Z (snd (snd l)))).

Section Partitioner.

(** The seeded random source, threaded as a state: [rand()] of seedrandom
    and the helper [random(min, max, 'int')] that randomRangeFactory builds
    on it (utils/random).  Every call returns an outcome and the next
    state. *)
Variable Rng : Type.
Variable rand : Rng -> Q * Rng.
Variable random : Z -> Z -> Rng -> Z * Rng.

(** The recursion of the source is bounded by [fuel]; [None] is "out of
    fuel". *)
Fixpoint generateGridPartitioningInGridUnits (fuel : nat)
    (topLeft bottomRight : GridCord) (vertOrHorzRatio : Q) (g : Rng)
  : option (list GridLine * Rng) :=
  match fuel with
  | O => None
  | S fuel' =>
    let '(tl0, tl1) := topLeft in
    let '(br0, br1) := bottomRight in
    (* if bounds is in effect a dot *)
    if ((br0 - tl0 =? 0) && (br1 - tl1 =? 0))%Z then
      Some ([(topLeft, bottomRight)], g)
    else
      let '(r, g1) := rand g in
      let isVert := Qlt_bool vertOrHorzRatio r in
      (* if bound is a 1 by 2 line *)
      if (((br0 - tl0 =? 1) && (br1 - tl1 =? 0))
          || ((br0 - tl0 =? 0) && (br1 - tl1 =? 1)))%Z then
        Some ([(topLeft, topLeft); (bottomRight, bottomRight)], g1)
      (* if bounds is in effect a 2 by 2 square *)
      else if ((br0 - tl0 =? 1) && (br1 - tl1 =? 1))%Z then
        if isVert then
          Some ([(topLeft, (br0 - 1, br1)); ((tl0 + 1, tl1), bottomRight)],
                g1)%Z
        else
          Some ([(topLeft, (br0, br1 - 1)); ((tl0, tl1 + 1), bottomRight)],
                g1)%Z
      else
        let '(startPt, g2) :=
          if isVert then
            let '(x, g2) := random (tl0 + 1) br0 g1 in ((x, tl1), g2)
          else
            let '(y, g2) := random (tl1 + 1) br1 g1 in ((tl0, y), g2) in
        let endPt : GridCord :=
          (if isVert then fst startPt else br0,
           if isVert then br1 else snd startPt) in
        let line : GridLine := (startPt, endPt) in
        let topOrLeftRect : GridLine :=
          (topLeft,
           (fst endPt - (if isVert then 1 else 0),
            snd endPt - (if isVert then 0 else 1)))%Z in
        let bottomOrRightRect : GridLine :=
          ((fst startPt + (if isVert then 1 else 0),
            snd startPt + (if isVert then 0 else 1)),
           bottomRight)%Z in
        (* check if bounds are valid, if not provide no lines *)
        let isTopOrLeftRectValid :=
          ((fst (snd topOrLeftRect) >=? fst (fst topOrLeftRect))
           && (snd (snd topOrLeftRect) >=? snd (fst topOrLeftRect)))%Z in
        let isBottomOrRightRectValid :=
          ((fst (snd bottomOrRightRect) >=? fst (fst bottomOrRightRect))
           && (snd (snd bottomOrRightRect) >=? snd (fst bottomOrRightRect)))%Z
        in
        let ratio :=
          if negb isVert then vertOrHorzRatio / 2
          else vertOrHorzRatio + (1 - vertOrHorzRatio) / 2 in
        match
          (if isTopOrLeftRectValid then
             generateGridPartitioningInGridUnits fuel'
               (fst topOrLeftRect) (snd topOrLeftRect) ratio g2
           else Some ([], g2))
        with
        | None => None
        | Some (before, g3) =>
            match
              (if isBottomOrRightRectValid then
                 generateGridPartitioningInGridUnits fuel'
                   (fst bottomOrRightRect) (snd bottomOrRightRect) ratio g3
               else Some ([], g3))
            with
            | None => None
            | Some (after, g4) => Some (before ++ line :: after, g4)
            end
        end
  end.

End Partitioner.

(** *** Tiling of a grid region by lines

    A line [(a, b)] stands for the block of unit cells from [a] to [b],
    both included. *)

Definition inRegion (topLeft bottomRight c : GridCord) : Prop :=
  (fst topLeft <= fst c <= fst bottomRight
   /\ snd topLeft <= snd c <= snd bottomRight)%Z.

Definition inRegionb (topLeft bottomRight c : GridCord) : bool :=
  ((fst topLeft <=? fst c) && (fst c <=? fst bottomRight)
   && (snd topLeft <=? snd c) && (snd c <=? snd bottomRight))%Z.

Definition coversb (c : GridCord) (l : GridLine) : bool :=
  ((fst (fst l) <=? fst c) && (fst c <=? fst (snd l))
   && (snd (fst l) <=? snd c) && (snd c <=? snd (snd l)))%Z.

Definition coverCount (lines : list GridLine) (c : GridCord) : nat :=
  List.length (filter (coversb c) lines).

Definition lineWithin (topLeft bottomRight : GridCord) (l : GridLine)
  : Prop :=
  (fst topLeft <= fst (fst l) /\ fst (fst l) <= fst (snd l)
   /\ fst (snd l) <= fst bottomRight
   /\ snd topLeft <= snd (fst l) /\ snd (fst l) <= snd (snd l)
   /\ snd (snd l) <= snd bottomRight)%Z.

(** Every line is a block inside the region, and every cell of the region
    belongs to exactly one line. *)
Definition tilesRegion (topLeft bottomRight : GridCord)
    (lines : list GridLine) : Prop :=
  Forall (lineWithin topLeft bottomRight) lines
  /\ forall c, inRegion topLeft bottomRight c -> coverCount lines c = 1%nat.

End Grid.

(** ** The rect converter *)

Module Converter.

Record SketchContext : Type :=
  { width : Q; height : Q }.

Record GridPartitioning : Type :=
  { gap : Q;
    unitSize : Q * Q;
    gridSizeInUnits : Q * Q }.

Record LineProps : Type :=
  { gitterRatio : Q * Q }.

Section Convert.

Variable sketchContext : SketchContext.
Variable gridPartitioning : GridPartitioning.

Local Notation unitSize := (unitSize gridPartitioning).
Local Notation gridSizeInUnits := (gridSizeInUnits gridPartitioning).
Local Notation gap := (gap gridPartitioning).

Definition totalGridBounds : Q * Q :=
  (fst unitSize * fst gridSizeInUnits + gap * (fst gridSizeInUnits - 1),
   snd unitSize * snd gridSizeInUnits + gap * (snd gridSizeInUnits - 1)).

Definition topLeft : Cord :=
  ((width sketchContext - fst totalGridBounds) / 2,
   (height sketchContext - snd totalGridBounds) / 2).

(** The first [map]: line [l] with its jitter ratio. *)
Definition scaleLine (l : Line) (p : LineProps) : Rect :=
  ((fst (fst l) * (fst unitSize + gap), snd (fst l) * (snd unitSize + gap)),
   ((fst (snd l) + fst (gitterRatio p)) * (fst unitSize + gap) - gap,
    (snd (snd l) + snd (gitterRatio p)) * (snd unitSize + gap) - gap)).

(** The second [map]: translation by [topLeft]. *)
Definition translateRect (r : Rect) : Rect :=
  ((fst topLeft + fst (fst r), snd topLeft + snd (fst r)),
   (fst topLeft + fst (snd r), snd topLeft + snd (snd r))).

(** [lines.map((l, i) => ... lineProps[i] ...)], from index [i] on.
    [None] is the [TypeError] of [lineProps[i].gitterRatio] when
    [lineProps] is shorter than [lines]. *)
Fixpoint scaleLinesFrom (i : nat) (lines : list Line)
    (lineProps : list LineProps) : option (list Rect) :=
  match lines with
  | [] => Some []
  | l :: rest =>
      match nth_error lineProps i with
      | None => None
      | Some p =>
          match scaleLinesFrom (S i) rest lineProps with
          | None => None
          | Some rs => Some (scaleLine l p :: rs)
          end
      end
  end.

Definition convertGridLinesToRects (lines : list Line)
    (lineProps : list LineProps) : option (list Rect) :=
  match scaleLinesFrom 0 lines lineProps with
  | None => None
  | Some rs => Some (map translateRect rs)
  end.

(** *** Tiling of the scaled grid bound by rectangles

    A rectangle holds the points from its top-left corner (included) to its
    bottom-right corner (excluded). *)

Definition inRectb (p : Cord) (r : Rect) : bool :=
  Qle_bool (fst (fst r)) (fst p) && Qlt_bool (fst p) (fst (snd r))
  && Qle_bool (snd (fst r)) (snd p) && Qlt_bool (snd p) (snd (snd r)).

Definition rectCount (rects : list Rect) (p : Cord) : nat :=
  List.length (filter (inRectb p) rects).

(** The pixel square of the unit cell [c]. *)
Definition inUnitCell (c : Grid.GridCord) (p : Cord) : Prop :=
  fst topLeft + inject_Z (fst c) * (fst unitSize + gap) <= fst p
  /\ fst p < fst topLeft + inject_Z (fst c) * (fst unitSize + gap)
             + fst unitSize
  /\ snd topLeft + inject_Z (snd c) * (snd unitSize + gap) <= snd p
  /\ snd p < snd topLeft + inject_Z (snd c) * (snd unitSize + gap)
             + snd unitSize.

(** The unit cell in whose column and row the point [p] falls. *)
Definition cellOf (p : Cord) : Grid.GridCord :=
  (Qfloor ((fst p - fst topLeft) / (fst unitSize + gap)),
   Qfloor ((snd p - snd topLeft) / (snd unitSize + gap))).

Definition rectInBound (r : Rect) : Prop :=
  fst topLeft <= fst (fst r)
  /\ fst (fst r) <= fst (snd r)
  /\ fst (snd r) <= fst topLeft + fst totalGridBounds
  /\ snd topLeft <= snd (fst r)
  /\ snd (fst r) <= snd (snd r)
  /\ snd (snd r) <= snd topLeft + snd totalGridBounds.

(** The rectangles lie in the scaled grid bound, no point belongs to two of
    them, and every point of a unit cell of the [w] by [h] grid belongs to
    one: what is left uncovered lies in the gaps between cells. *)
Definition tilesScaledBound (w h : Z) (rects : list Rect) : Prop :=
  Forall rectInBound rects
  /\ (forall p, (rectCount rects p <= 1)%nat)
  /\ (forall c p,
        Grid.inRegion (0, 0)%Z (w - 1, h - 1)%Z c ->
        inUnitCell c p -> rectCount rects p = 1%nat).

(** The far corner as the specification words it: the scaled far endpoint
    shifted inward by [(1 - jitterRatio) * (unitSize + gap) - gap]. *)
Definition farCornerAsDescribed (l : Line) (p : LineProps) : Cord :=
  (fst (snd l) * (fst unitSize + gap)
     - ((1 - fst (gitterRatio p)) * (fst unitSize + gap) - gap),
   snd (snd l) * (snd unitSize + gap)
     - ((1 - snd (gitterRatio p)) * (snd unitSize + gap) - gap)).

End Convert.
End Converter.

(** ** Configuration (the fields of [Gene] read by the modelled code) *)

Module Gene.

Record ColorPallete : Type :=
  { colors : list string;
    tintColors : list string;
    pointilism : option Q;
    type : string;
    (* SimpleColorPallete *)
    colorRatios : list Q }.

Record Foreground : Type :=
  { colorPointilism : Q;
    colorPalletes : list ColorPallete;
    colorPalletesRatio : list Q;
    colorSprinkleRatio : Q;
    colorPalletesSprinkleRatio : list Q }.

Record Animation : Type :=
  { startDelayInTicks : Q;
    endDelayInTicks : Q;
    breathDurationInTicksPerUnit : Q;
    bloomMaxStartDelayInTicks : Q }.

End Gene.

(** ** The content assigner and the construction of the timeline *)

Module Content.

Record RectProps : Type :=
  { fromColor : option string;
    toColor : option string;
    tintColor : option string;
    pointilism : option Q;
    isVert : bool;
    zIndex : Z;
    startDelayInTicks : Q;
    breathDurationInTicks : Q }.

(** [Math.min(Math.abs(noise) / 0.7, 0.99)]. *)
Definition colorPalleteNormalizedValue (noise : Q) : Q :=
  Qmin (Qabs noise / (7 # 10)) (99 # 100).

(** The loop over [colorPalletesRatio], entered at index [i] with the value
    that is left; [-1] when the weights are exhausted. *)
Fixpoint paletteWalk (ratios : list Q) (i : Z) (value : Q) : Z :=
  match ratios with
  | [] => (-1)%Z
  | ratio :: rest =>
      if Qlt_bool value ratio then i
      else paletteWalk rest (i + 1)%Z (value - ratio)
  end.

(** The value that the loop holds when it reaches index [i]: the start
    value less the weights before [i]. *)
Definition remainingValue (ratios : list Q) (value : Q) (i : nat) : Q :=
  fold_left Qminus (firstn i ratios) value.

(** No index of the walk is hit. *)
Definition exhausts (ratios : list Q) (value : Q) : Prop :=
  forall (j : nat) (ratio : Q),
    nth_error ratios j = Some ratio -> ~ remainingValue ratios value j < ratio.

Definition sumRatios (ratios : list Q) : Q := fold_right Qplus 0 ratios.

Section Assigner.

(** The seeded sources: [rand()], the helper [randomByWeights] of
    randomRangeFactory (utils/random) and [simplex.noise2D]. *)
Variable Rng : Type.
Variable rand : Rng -> Q * Rng.
Variable randomByWeights : list Q -> Rng -> Z * Rng.
Variable noise2D : Q -> Q -> Q.

Variable foreground : Gene.Foreground.
Variable animation : Gene.Animation.
Variable colorPtOffset : Q * Q.

Definition colorPt (l : Grid.GridLine) : Cord :=
  (Gene.colorPointilism foreground
     * ((inject_Z (fst (fst l)) + inject_Z (fst (snd l))) / 2
        + fst colorPtOffset),
   Gene.colorPointilism foreground
     * ((inject_Z (snd (fst l)) + inject_Z (snd (snd l))) / 2
        + snd colorPtOffset)).

Definition colorPalleteIndex (pt : Cord) : Z :=
  paletteWalk (Gene.colorPalletesRatio foreground) 0
    (colorPalleteNormalizedValue (noise2D (fst pt) (snd pt))).

(** The palette index after the sprinkle override. *)
Definition sprinkledIndex (pt : Cord) (g : Rng) : Z * Rng :=
  let '(r, g1) := rand g in
  if Qlt_bool r (Gene.colorSprinkleRatio foreground) then
    randomByWeights (Gene.colorPalletesSprinkleRatio foreground) g1
  else (colorPalleteIndex pt, g1).

(** The body of the [map] that builds [rectProps], at index [i] of [lines].
    The outer [None] is the [TypeError] of
    [foreground.colorPalletes[colorPalleteIndex].type] on a palette that is
    [undefined]; the inner [None] is the empty object of the "invalid"
    fall-through. *)
Definition rectPropsAt (i : nat) (l : Grid.GridLine) (g : Rng)
  : option (option RectProps * Rng) :=
  let isVert := (fst (fst l) =? fst (snd l))%Z in
  let pt := colorPt l in
  let '(colorPalleteIndex, g2) := sprinkledIndex pt g in
  let startDelayInTicks :=
    inject_Z
      (Qfloor
         (Gene.bloomMaxStartDelayInTicks animation
          * (Qabs (noise2D (fst pt * inject_Z colorPalleteIndex)
                           (snd pt * inject_Z colorPalleteIndex))
             / (9 # 10)))) in
  let breathDurationInTicks :=
    Gene.breathDurationInTicksPerUnit animation
    * inject_Z ((if isVert then snd (snd l) - snd (fst l)
                 else fst (snd l) - fst (fst l)) + 1) in
  match arrayGet (Gene.colorPalletes foreground) colorPalleteIndex with
  | None => None
  | Some colorPallete =>
      if String.eqb (Gene.type colorPallete) "simple" then
        let '(colorIndex, g3) :=
          randomByWeights (Gene.colorRatios colorPallete) g2 in
        Some (Some {| fromColor := arrayGet (Gene.colors colorPallete) colorIndex;
                      toColor := arrayGet (Gene.colors colorPallete) colorIndex;
                      tintColor :=
                        arrayGet (Gene.tintColors colorPallete) colorIndex;
                      pointilism := None;
                      isVert := isVert;
                      zIndex := (Z.of_nat i mod 10)%Z;
                      startDelayInTicks := startDelayInTicks;
                      breathDurationInTicks := breathDurationInTicks |}, g3)
      else if String.eqb (Gene.type colorPallete) "gradient" then
        Some (Some {| fromColor := arrayGet (Gene.colors colorPallete) 0;
                      toColor := arrayGet (Gene.colors colorPallete) 1;
                      tintColor := arrayGet (Gene.tintColors colorPallete) 0;
                      pointilism := Gene.pointilism colorPallete;
                      isVert := isVert;
                      zIndex := (Z.of_nat i mod 10 + 1)%Z;
                      startDelayInTicks := startDelayInTicks;
                      breathDurationInTicks := breathDurationInTicks |}, g2)
      else Some (None, g2)
  end.

(** [newArray(lines.length).map((_, i) => ...)], from index [i] on. *)
Fixpoint rectPropsFrom (i : nat) (lines : list Grid.GridLine) (g : Rng)
  : option (list (option RectProps) * Rng) :=
  match lines with
  | [] => Some ([], g)
  | l :: rest =>
      match rectPropsAt i l g with
      | None => None
      | Some (p, g1) =>
          match rectPropsFrom (S i) rest g1 with
          | None => None
          | Some (ps, g2) => Some (p :: ps, g2)
          end
      end
  end.

End Assigner.

(** [Math.max(...xs)] on a non-empty array. *)
Definition mathMax (xs : list Q) : option Q :=
  match xs with
  | [] => None
  | x :: rest => Some (fold_left Qmax rest x)
  end.

(** The sub-animations: one breath node per entry of [rectProps], bound to
    the line of the same index. *)
Fixpoint breathAnimationsFrom (i : nat) (durationInTicks : Q)
    (rectProps : list RectProps) : list Timeline.Animation :=
  match rectProps with
  | [] => []
  | r :: rest =>
      {| Timeline.startDelayInTicks := startDelayInTicks r;
         Timeline.durationInTicks := breathDurationInTicks r;
         Timeline.endDelayInTicks :=
           durationInTicks - breathDurationInTicks r - startDelayInTicks r;
         Timeline.lineIndex := Some (Z.of_nat i);
         Timeline.type := "breath";
         Timeline.subAnimations := [] |}
      :: breathAnimationsFrom (S i) durationInTicks rest
  end.

(** The entries of [rectProps] when none of them is the empty object. *)
Fixpoint definedProps (rectProps : list (option RectProps))
  : option (list RectProps) :=
  match rectProps with
  | [] => Some []
  | None :: _ => None
  | Some r :: rest =>
      match definedProps rest with
      | None => None
      | Some rs => Some (r :: rs)
      end
  end.

(** The root node built by [animate].  The result is [None] where the
    source's [durationInTicks] is not a finite number: when an entry of
    [rectProps] is the empty object, whose timing fields are [undefined]
    (the maxima are [NaN]), and for an empty [rectProps] (the maxima are
    [-Infinity]). *)
Definition timelineAnimation (animation : Gene.Animation)
    (rectProps : list (option RectProps)) : option Timeline.Animation :=
  match definedProps rectProps with
  | None => None
  | Some props =>
      match mathMax (map startDelayInTicks props),
            mathMax (map breathDurationInTicks props) with
      | Some maxStart, Some maxBreath =>
          let durationInTicks := maxStart + maxBreath in
          Some {| Timeline.startDelayInTicks :=
                    Gene.startDelayInTicks animation;
                  Timeline.durationInTicks := durationInTicks;
                  Timeline.endDelayInTicks := Gene.endDelayInTicks animation;
                  Timeline.lineIndex := None;
                  Timeline.type := "timeline";
                  Timeline.subAnimations :=
                    breathAnimationsFrom 0 durationInTicks props |}
      | _, _ => None
      end
  end.

End Content.

(** ** Sample inputs *)

Module Sample.

(** A linear easing curve. *)
Definition easeLinear (x : Q) : Q := x.

(** A source whose [rand()] is always 0.75 and whose integer draw is the
    middle of the range, rounded down. *)
Definition rand (n : nat) : Q * nat := (3 # 4, S n).
Definition random (lo hi : Z) (n : nat) : Z * nat := (((lo + hi) / 2)%Z, S n).

(** A source whose integer draw is always the lower end of the range. *)
Definition randomMin (lo hi : Z) (n : nat) : Z * nat := (lo, S n).

(** A source whose [rand()] is always 0.005 and whose weighted draw is
    always index 0. *)
Definition randLow (n : nat) : Q * nat := (1 # 200, S n).
Definition randomByWeights (weights : list Q) (n : nat) : Z * nat :=
  (0%Z, S n).

(** A noise field of constant value one half. *)
Definition noise2D (x y : Q) : Q := 1 # 2.

Definition sketchContext : Converter.SketchContext :=
  {| Converter.width := 110; Converter.height := 50 |}.

(** Units of 50 by 50 pixels, a gap of 10 pixels, a grid of 2 by 1 units. *)
Definition gridPartitioning : Converter.GridPartitioning :=
  {| Converter.gap := 10;
     Converter.unitSize := (50, 50);
     Converter.gridSizeInUnits := (2, 1) |}.

Definition fullJitter : Converter.LineProps :=
  {| Converter.gitterRatio := (1, 1) |}.
Definition halfJitter : Converter.LineProps :=
  {| Converter.gitterRatio := (1 # 2, 1 # 2) |}.

Definition simplePallete : Gene.ColorPallete :=
  {| Gene.colors := ["#056676"; "#5eaaa8"; "#a3d2ca"]%string;
     Gene.tintColors := ["#f6f5f5"; "#f6f5f5"; "#f6f5f5"]%string;
     Gene.pointilism := None;
     Gene.type := "simple";
     Gene.colorRatios := [33 # 100; 33 # 100; 34 # 100] |}.

(** One palette with a weight of one quarter: the weights do not sum to
    one. *)
Definition foreground : Gene.Foreground :=
  {| Gene.colorPointilism := 1 # 100;
     Gene.colorPalletes := [simplePallete];
     Gene.colorPalletesRatio := [1 # 4];
     Gene.colorSprinkleRatio := 1 # 100;
     Gene.colorPalletesSprinkleRatio := [1] |}.

Definition animation : Gene.Animation :=
  {| Gene.startDelayInTicks := 1000;
     Gene.endDelayInTicks := 0;
     Gene.breathDurationInTicksPerUnit := 80;
     Gene.bloomMaxStartDelayInTicks := 300 |}.

Definition breath : Timeline.Animation :=
  {| Timeline.startDelayInTicks := 10;
     Timeline.durationInTicks := 40;
     Timeline.endDelayInTicks := 30;
     Timeline.lineIndex := Some 0%Z;
     Timeline.type := "breath";
     Timeline.subAnimations := [] |}.

Definition vertical : Line := ((0, 0), (0, 2)).
Definition diagonal : Line := ((0, 0), (1, 1)).

Definition rectProps : list (option Content.RectProps) :=
  [ Some {| Content.fromColor := None; Content.toColor := None;
            Content.tintColor := None; Content.pointilism := None;
            Content.isVert := true; Content.zIndex := 0;
            Content.startDelayInTicks := 12;
            Content.breathDurationInTicks := 80 |};
    Some {| Content.fromColor := None; Content.toColor := None;
            Content.tintColor := None; Content.pointilism := None;
            Content.isVert := false; Content.zIndex := 1;
            Content.startDelayInTicks := 30;
            Content.breathDurationInTicks := 160 |} ].

End Sample.

(** ** The regeneration step and the frame callback of [animate] *)

Module Animate.

(** The fields of [gene.parallax] read by the frame callback. *)
Record Parallax : Type :=
  { offsetStrength : Q * Q;
    animationTickCount : Q }.

(** What [animate] computes once and the frame callback closes over. *)
Record Scene : Type :=
  { lines : list Grid.GridLine;
    lineProps : list Converter.LineProps;
    rectProps : list (option Content.RectProps);
    backgroundRects : list Rect;
    timelineAnimation : option Timeline.Animation }.

(** A shape that every line of the partitioner has: it lies on one axis and
    runs from its first endpoint to its second. *)
Definition wellShaped (l : Grid.GridLine) : Prop :=
  (fst (fst l) = fst (snd l) \/ snd (fst l) = snd (snd l))
  /\ (fst (fst l) <= fst (snd l))%Z /\ (snd (fst l) <= snd (snd l))%Z.

(** An output line of the engine is the input line, or the input line
    animated with one of the five types and a proportion between 0 and 1. *)
Definition animatedFrom (easeOutElastic : Q -> Q) (l l' : Line) : Prop :=
  l' = l
  \/ exists (ty : Timeline.AnimateLineType) (proportion : Q),
       0 <= proportion /\ proportion <= 1
       /\ l' = Timeline.animateLine easeOutElastic l (Some ty) proportion.

(** The groups of lines of a timeline node in its active phase: the
    [subAnimations.map] of [getAnimatedLinesWithAnimations], flattened.
    [tick] is the tick handed to the sub-animations. *)
Fixpoint lineGroups (easeOutElastic : Q -> Q) (lines : list Line) (tick : Q)
    (subs : list Timeline.Animation) : option (list Line) :=
  match subs with
  | [] => Some []
  | a :: rest =>
      match
        match Timeline.lineIndex a with
        | Some i => arrayGet lines i
        | None => None
        end
      with
      | None => None
      | Some pickedLine =>
          match
            Timeline.getAnimatedLinesWithAnimations easeOutElastic a
              [pickedLine] tick,
            lineGroups easeOutElastic lines tick rest
          with
          | Some g, Some gs => Some (g ++ gs)
          | _, _ => None
          end
      end
  end.

Section Regeneration.

(** The seeded sources and the helpers built on them (utils/random):
    [random(min, max, 'int')], [random(min, max)] and [randomByWeights]. *)
Variable Rng : Type.
Variable rand : Rng -> Q * Rng.
Variable randomInt : Z -> Z -> Rng -> Z * Rng.
Variable randomFloat : Q -> Q -> Rng -> Q * Rng.
Variable randomByWeights : list Q -> Rng -> Z * Rng.
Variable noise2D : Q -> Q -> Q.
Variable easeOutElastic : Q -> Q.

Variable sketchContext : Converter.SketchContext.
Variable foreground : Gene.Foreground.
Variable animation : Gene.Animation.
Variable parallax : Parallax.
Variable gitter : Q * Q.
(** [gene.gridPartitioning], with a grid size of [w] by [h] units. *)
Variable gap : Q.
Variable unitSize : Q * Q.
Variable w h : Z.

Definition gridPartitioning : Converter.GridPartitioning :=
  {| Converter.gap := gap;
     Converter.unitSize := unitSize;
     Converter.gridSizeInUnits := (inject_Z w, inject_Z h) |}.

(** [lines.map((l) => ({ gitterRatio: [1 - random(...gitter),
    1 - random(...gitter)] }))]. *)
Fixpoint makeLineProps (lines : list Grid.GridLine) (g : Rng)
  : list Converter.LineProps * Rng :=
  match lines with
  | [] => ([], g)
  | _ :: rest =>
      let '(a, g1) := randomFloat (fst gitter) (snd gitter) g in
      let '(b, g2) := randomFloat (fst gitter) (snd gitter) g1 in
      let '(ps, g3) := makeLineProps rest g2 in
      ({| Converter.gitterRatio := (1 - a, 1 - b) |} :: ps, g3)
  end.

(** The body of [animate] up to the registration of the frame callback.
    [None] is a run that does not reach the callback: the partitioner out of
    fuel, or a [TypeError] in the construction of [rectProps] or in the
    converter. *)
Definition animate (fuel : nat) (g : Rng) : option (Scene * Rng) :=
  match
    Grid.generateGridPartitioningInGridUnits Rng rand randomInt fuel
      (0, 0)%Z (w - 1, h - 1)%Z (1 # 2) g
  with
  | None => None
  | Some (lines, g1) =>
      let '(lineProps, g2) := makeLineProps lines g1 in
      let '(offset0, g3) := randomInt 0 10000 g2 in
      let '(offset1, g4) := randomInt 0 10000 g3 in
      let colorPtOffset := (inject_Z offset0, inject_Z offset1) in
      match
        Content.rectPropsFrom Rng rand randomByWeights noise2D foreground
          animation colorPtOffset 0 lines g4
      with
      | None => None
      | Some (rectProps, g5) =>
          match
            Converter.convertGridLinesToRects sketchContext gridPartitioning
              (map Grid.lineOfGrid lines) lineProps
          with
          | None => None
          | Some backgroundRects =>
              Some ({| lines := lines;
                       lineProps := lineProps;
                       rectProps := rectProps;
                       backgroundRects := backgroundRects;
                       timelineAnimation :=
                         Content.timelineAnimation animation rectProps |},
                    g5)
          end
      end
  end.

(** The first two statements of the frame callback: the animated lines and
    their rectangles at [tick]. *)
Definition frameRects (lines : list Line)
    (lineProps : list Converter.LineProps)
    (timelineAnimation : Timeline.Animation) (tick : Q)
  : option (list Rect) :=
  match
    Timeline.getAnimatedLinesWithAnimations easeOutElastic timelineAnimation
      lines tick
  with
  | None => None
  | Some animatedLines =>
      Converter.convertGridLinesToRects sketchContext gridPartitioning
        animatedLines lineProps
  end.

(** The offset before it is eased back: the pointer position relative to
    the centre of the canvas, scaled and reversed. *)
Definition pointerOffset (mouseCords : Cord) : Cord :=
  ((fst mouseCords - Converter.width sketchContext / 2)
   * fst (offsetStrength parallax) * - (1),
   (snd mouseCords - Converter.height sketchContext / 2)
   * snd (offsetStrength parallax) * - (1)).

(** [1 - Math.pow(Math.min(tick - last, n) / n, 2)] for [n] the
    animation tick count; [None] where the quotient by [n = 0] is not a
    finite number. *)
Definition offsetReturnCoeff (lastIsMouseInCanvasTick tick : Q) : option Q :=
  if Qeq_bool (animationTickCount parallax) 0 then None
  else
    let x :=
      Qmin (tick - lastIsMouseInCanvasTick) (animationTickCount parallax)
      / animationTickCount parallax in
    Some (1 - x * x).

(** The parallax part of the frame callback: the offset handed to the
    foreground draw call and the new value of [lastIsMouseInCanvasTick]. *)
Definition frameOffset (mouseCords : Cord) (isMouseInCanvas : bool)
    (lastIsMouseInCanvasTick tick : Q) : option Cord * Q :=
  let offset := pointerOffset mouseCords in
  if negb isMouseInCanvas then
    match offsetReturnCoeff lastIsMouseInCanvasTick tick with
    | None => (None, lastIsMouseInCanvasTick)
    | Some coeff =>
        (Some (fst offset * coeff, snd offset * coeff),
         lastIsMouseInCanvasTick)
    end
  else (Some offset, tick).

End Regeneration.
End Animate.

(** ** Sample scene *)

Module SampleScene.

(** Float draws at the middle of the range. *)
Definition randomFloat (lo hi : Q) (n : nat) : Q * nat :=
  ((lo + hi) / 2, S n).

Definition parallax : Animate.Parallax :=
  {| Animate.offsetStrength := (2 # 100, 2 # 100);
     Animate.animationTickCount := 10 |}.

(** Four palettes of equal weight, as in the default gene. *)
Definition foreground : Gene.Foreground :=
  {| Gene.colorPointilism := 1 # 100;
     Gene.colorPalletes :=
       [Sample.simplePallete; Sample.simplePallete; Sample.simplePallete;
        Sample.simplePallete];
     Gene.colorPalletesRatio := [1 # 4; 1 # 4; 1 # 4; 1 # 4];
     Gene.colorSprinkleRatio := 1 # 100;
     Gene.colorPalletesSprinkleRatio := [1] |}.

Definition horizontal : Line := ((0, 1), (3, 1)).

End SampleScene.

(** ** Double precision *)

Module Binary64.

Local Open Scope Z_scope.

(** An IEEE 754 binary64 value: a signed zero, an infinity, [NaN], or a
    finite number [(-1)^s * m * 2^e]. *)
Definition number : Type := spec_float.

Definition prec : Z := 53.
Definition emax : Z := 1024.

(** [a + b], [a - b], [a * b] and [a / b]: the exact result, rounded to the
    nearest double, ties to even. *)
Definition add (a b : number) : number := SFadd prec emax a b.
Definition sub (a b : number) : number := SFsub prec emax a b.
Definition mul (a b : number) : number := SFmul prec emax a b.
Definition div (a b : number) : number := SFdiv prec emax a b.

(** [a < b], [a >= b] and [a === b]: false when an operand is [NaN]. *)
Definition lt (a b : number) : bool := SFltb a b.
Definition ge (a b : number) : bool := SFleb b a.
Definition strictEq (a b : number) : bool := SFeqb a b.

(** The double nearest to the integer [z]. *)
Definition ofZ (z : Z) : number := binary_normalize prec emax z 0 false.

(** A decimal literal of value [q]: the double nearest to it (both terms of
    the fraction are below [2^53], and the quotient is rounded once). *)
Definition literal (q : Q) : number :=
  div (ofZ (Qnum q)) (ofZ (Zpos (Qden q))).

(** [a % b]: the remainder of the division truncated towards zero.  It has
    the sign of the dividend and is computed without rounding; it is [NaN]
    for an infinite dividend and for a zero divisor. *)
Definition rem (a b : number) : number :=
  match a, b with
  | S754_nan, _ | _, S754_nan => S754_nan
  | S754_infinity _, _ => S754_nan
  | _, S754_zero _ => S754_nan
  | _, S754_infinity _ => a
  | S754_zero _, _ => a
  | S754_finite sa ma ea, S754_finite _ mb eb =>
      let e := Z.min ea eb in
      let r := Z.rem (Zpos ma * 2 ^ (ea - e)) (Zpos mb * 2 ^ (eb - e)) in
      binary_normalize prec emax (cond_Zopp sa r) e sa
  end.

(** [Math.floor(x)] as an integer, for its use as an array index; [None]
    when [x] is [NaN] or infinite. *)
Definition floorZ (x : number) : option Z :=
  match x with
  | S754_zero _ => Some 0
  | S754_finite s m e =>
      Some (if 0 <=? e then cond_Zopp s (Zpos m) * 2 ^ e
            else cond_Zopp s (Zpos m) / 2 ^ (- e))
  | _ => None
  end.

(** The exact value of a finite double ([0] for the others). *)
Definition toQ (x : number) : Q :=
  match x with
  | S754_finite s m e =>
      let v :=
        if 0 <=? e then inject_Z (Zpos m * 2 ^ e)
        else Qmake (Zpos m) (Z.to_pos (2 ^ (- e))) in
      if s then Qopp v else v
  | _ => 0%Q
  end.

(** [Math.max(a, b)] and [Math.min(a, b)]. *)
Definition max (a b : number) : number :=
  match a, b with
  | S754_nan, _ | _, S754_nan => S754_nan
  | S754_zero sa, S754_zero sb => S754_zero (sa && sb)
  | _, _ => if SFltb a b then b else a
  end.

Definition min (a b : number) : number :=
  match a, b with
  | S754_nan, _ | _, S754_nan => S754_nan
  | S754_zero sa, S754_zero sb => S754_zero (sa || sb)
  | _, _ => if SFltb b a then b else a
  end.

(** The double that holds the integer of sign [s] and magnitude [p], for
    [p] below [2^53]: the mantissa is [p] shifted to 53 digits. *)
Definition mant (p : positive) : positive :=
  Z.to_pos (Zpos p * 2 ^ (53 - Zpos (digits2_pos p))).
Definition canon (s : bool) (p : positive) : number :=
  S754_finite s (mant p) (Zpos (digits2_pos p) - 53).

Definition Cord : Type := number * number.
Definition Line : Type := Cord * Cord.

(** A line of the partitioner, as the doubles that hold its coordinates. *)
Definition lineOfGrid (l : Grid.GridLine) : Line :=
  ((ofZ (fst (fst l)), ofZ (snd (fst l))),
   (ofZ (fst (snd l)), ofZ (snd (snd l)))).

(** Grid coordinates of magnitude below [2^52]. *)
Definition wholeLine (l : Grid.GridLine) : Prop :=
  (Z.abs (fst (fst l)) < 2 ^ 52 /\ Z.abs (snd (fst l)) < 2 ^ 52)
  /\ Z.abs (fst (snd l)) < 2 ^ 52 /\ Z.abs (snd (snd l)) < 2 ^ 52.

End Binary64.

(** *** The timeline animation engine in double precision *)

Module Timeline64.

Import Binary64.

Inductive Animation : Type :=
  mkAnimation {
    startDelayInTicks : number;
    durationInTicks : number;
    endDelayInTicks : number;
    lineIndex : option Z;
    type : string;
    subAnimations : list Animation }.

Section Engine.

Variable easeOutElastic : number -> number.

Definition animateRatios (ty : option Timeline.AnimateLineType)
    (proportion : number) : number * number :=
  match ty with
  | Some Timeline.static => (ofZ 0, proportion)
  | Some Timeline.start_suck =>
      (sub (ofZ 1) (easeOutElastic proportion), ofZ 1)
  | Some Timeline.start_expand => (easeOutElastic proportion, ofZ 1)
  | Some Timeline.end_suck =>
      (ofZ 0, sub (ofZ 1) (easeOutElastic proportion))
  | Some Timeline.end_expand => (ofZ 0, easeOutElastic proportion)
  | None => (ofZ 0, ofZ 0)
  end.

Definition animateLine (l : Line) (ty : option Timeline.AnimateLineType)
    (proportion : number) : Line :=
  let '(startRatio, endRatio) := animateRatios ty proportion in
  let '((l00, l01), (l10, l11)) := l in
  (* if vert, scale the y value *)
  if strictEq (sub l10 l00) (ofZ 0) then
    ((l00, add l01 (mul (sub l11 l01) startRatio)),
     (l10, add l01 (mul (sub l11 l01) endRatio)))
  (* if horz, scale the x value *)
  else if strictEq (sub l11 l01) (ofZ 0) then
    ((add l00 (mul (sub l10 l00) startRatio), l01),
     (add l00 (mul (sub l10 l00) endRatio), l11))
  else l.

(** The sub-phase and the proportion of a breath node.  The index is
    [Math.floor] of a rounded quotient; outside [0..3], or when it is not a
    number, [animationSequence[animationIndex]] is [undefined]. *)
Definition breathStep (duration relativeTickToDuration : number)
  : option Timeline.AnimateLineType * number :=
  let sequenceDurationInTicks :=
    div duration
      (ofZ (Z.of_nat (List.length Timeline.animationSequence))) in
  let proportion :=
    div (rem relativeTickToDuration sequenceDurationInTicks)
      sequenceDurationInTicks in
  let animationIndex :=
    floorZ (div relativeTickToDuration sequenceDurationInTicks) in
  (match animationIndex with
   | Some i => arrayGet Timeline.animationSequence i
   | None => None
   end, proportion).

(** As in the exact rendering, the result is [None] when a sub-animation
    picks a line that is [undefined].  A relative tick that is [NaN] fails
    every comparison and falls through to the last [return lines]. *)
Fixpoint getAnimatedLinesWithAnimations (anim : Animation)
    (lines : list Line) (tick : number) {struct anim} : option (list Line) :=
  let completeTicksDuration :=
    add (add (startDelayInTicks anim) (durationInTicks anim))
      (endDelayInTicks anim) in
  let relativeTick := rem tick completeTicksDuration in
  let hold :=
    Some (map (fun l => animateLine l (Some Timeline.static) (ofZ 1)) lines) in
  if lt relativeTick (startDelayInTicks anim) then hold
  else if ge relativeTick (startDelayInTicks anim)
          && lt relativeTick
               (sub completeTicksDuration (endDelayInTicks anim))
  then
    if String.eqb (type anim) "timeline" then
      (fix lineGroups (subs : list Animation) : option (list Line) :=
         match subs with
         | [] => Some []
         | a :: rest =>
             match
               match lineIndex a with
               | Some i => arrayGet lines i
               | None => None
               end
             with
             | None => None
             | Some pickedLine =>
                 match
                   getAnimatedLinesWithAnimations a [pickedLine]
                     (sub relativeTick (startDelayInTicks anim)),
                   lineGroups rest
                 with
                 | Some g, Some gs => Some (g ++ gs)
                 | _, _ => None
                 end
             end
         end) (subAnimations anim)
    else if String.eqb (type anim) "breath" then
      let relativeTickToDuration :=
        sub relativeTick (startDelayInTicks anim) in
      let '(ty, proportion) :=
        breathStep (durationInTicks anim) relativeTickToDuration in
      Some (map (fun l => animateLine l ty proportion) lines)
    else hold
  else if ge relativeTick
            (sub completeTicksDuration (endDelayInTicks anim))
  then hold
  else Some lines.

End Engine.
End Timeline64.

(** *** The palette walk and the construction of the timeline in double
    precision *)

Module Content64.

Import Binary64.

(** The two fields of an entry of [rectProps] that the timeline reads.  In
    an entry that is the empty object both are [undefined], which the
    arithmetic below reads as [NaN]. *)
Record RectProps : Type :=
  { startDelayInTicks : number;
    breathDurationInTicks : number }.

(** An entry whose two fields are whole numbers of ticks. *)
Definition wholeProps (timing : Z * Z) : RectProps :=
  {| startDelayInTicks := ofZ (fst timing);
     breathDurationInTicks := ofZ (snd timing) |}.

(** [Math.min(Math.abs(noise) / 0.7, 0.99)]. *)
Definition colorPalleteNormalizedValue (noise : number) : number :=
  min (div (SFabs noise) (literal (7 # 10))) (literal (99 # 100)).

Fixpoint paletteWalk (ratios : list number) (i : Z) (value : number) : Z :=
  match ratios with
  | [] => (-1)%Z
  | ratio :: rest =>
      if lt value ratio then i
      else paletteWalk rest (i + 1)%Z (sub value ratio)
  end.

(** [Math.max(...xs)]: [-Infinity] on an empty array. *)
Definition mathMax (xs : list number) : number :=
  fold_left max xs (S754_infinity true).

Fixpoint breathAnimationsFrom (i : nat) (durationInTicks : number)
    (rectProps : list RectProps) : list Timeline64.Animation :=
  match rectProps with
  | [] => []
  | r :: rest =>
      {| Timeline64.startDelayInTicks := startDelayInTicks r;
         Timeline64.durationInTicks := breathDurationInTicks r;
         Timeline64.endDelayInTicks :=
           sub (sub durationInTicks (breathDurationInTicks r))
             (startDelayInTicks r);
         Timeline64.lineIndex := Some (Z.of_nat i);
         Timeline64.type := "breath";
         Timeline64.subAnimations := [] |}
      :: breathAnimationsFrom (S i) durationInTicks rest
  end.

(** The root node built by [animate], from the two delays of
    [gene.animation] and the entries of [rectProps]. *)
Definition timelineAnimation (startDelay endDelay : number)
    (rectProps : list RectProps) : Timeline64.Animation :=
  let durationInTicks :=
    add (mathMax (map startDelayInTicks rectProps))
      (mathMax (map breathDurationInTicks rectProps)) in
  {| Timeline64.startDelayInTicks := startDelay;
     Timeline64.durationInTicks := durationInTicks;
     Timeline64.endDelayInTicks := endDelay;
     Timeline64.lineIndex := None;
     Timeline64.type := "timeline";
     Timeline64.subAnimations :=
       breathAnimationsFrom 0 durationInTicks rectProps |}.

End Content64.

(** *** The two renderings side by side *)

Module Renderings.

(** The integers from [0] to [n - 1]. *)
Fixpoint upto (n : nat) : list Z :=
  match n with
  | O => []
  | S k => upto k ++ [Z.of_nat k]
  end.

Definition sameType (a b : option Timeline.AnimateLineType) : bool :=
  match a, b with
  | None, None => true
  | Some Timeline.static, Some Timeline.static
  | Some Timeline.start_suck, Some Timeline.start_suck
  | Some Timeline.start_expand, Some Timeline.start_expand
  | Some Timeline.end_suck, Some Timeline.end_suck
  | Some Timeline.end_expand, Some Timeline.end_expand => true
  | _, _ => false
  end.

(** For a duration of [d] ticks and [t] ticks into the active window: the
    two renderings select the same sub-phase, it is defined, and the
    proportion computed in double precision lies in [0, 1). *)
Definition sameSubPhase (d t : Z) : bool :=
  let '(ty64, proportion64) :=
    Timeline64.breathStep (Binary64.ofZ d) (Binary64.ofZ t) in
  let '(ty, _) := Timeline.breathStep (inject_Z d) (inject_Z t) in
  sameType ty64 ty
  && match ty64 with Some _ => true | None => false end
  && Binary64.ge proportion64 (Binary64.ofZ 0)
  && Binary64.lt proportion64 (Binary64.ofZ 1).

(** For weights given in units of [2^-20] and a noise value of [k / 100]:
    the walk in double precision, from the normalized value computed in
    double precision, returns what the exact walk returns from the same
    value. *)
Definition sameIndex (weights : list Z) (k : Z) : bool :=
  let value :=
    Content64.colorPalleteNormalizedValue (Binary64.literal (k # 100)) in
  (Content64.paletteWalk
     (map (fun w => Binary64.literal (w # 1048576)) weights) 0 value
   =? Content.paletteWalk (map (fun w => w # 1048576) weights) 0
        (Binary64.toQ value))%Z.

(** Weights in units of [2^-20]: the four quarters of the default gene, and
    weights that sum to less and to more than 0.99. *)
Definition sampleWeights : list (list Z) :=
  [ [262144; 262144; 262144; 262144];
    [524288; 262144; 131072];
    [104858; 209715; 314573; 409430];
    [1; 1038089];
    [1038090];
    [1038091] ]%Z.

End Renderings.

(** *** Sample inputs in double precision *)

Module Sample64.

Import Binary64.

Definition easeLinear (x : number) : number := x.

(** A breath node with an end delay of 14.4 ticks. *)
Definition breath : Timeline64.Animation :=
  {| Timeline64.startDelayInTicks := ofZ 10;
     Timeline64.durationInTicks := ofZ 40;
     Timeline64.endDelayInTicks := literal (144 # 10);
     Timeline64.lineIndex := Some 0%Z;
     Timeline64.type := "breath";
     Timeline64.subAnimations := [] |}.

(** The breath node of [Sample.breath], in whole ticks. *)
Definition wholeBreath : Timeline64.Animation :=
  {| Timeline64.startDelayInTicks := ofZ 10;
     Timeline64.durationInTicks := ofZ 40;
     Timeline64.endDelayInTicks := ofZ 30;
     Timeline64.lineIndex := Some 0%Z;
     Timeline64.type := "breath";
     Timeline64.subAnimations := [] |}.

Definition vertical : Grid.GridLine := ((0, 0), (0, 2))%Z.

(** One line of one cell, a start delay of 4 ticks and 0.1 tick per unit. *)
Definition tenthPerUnit : list Content64.RectProps :=
  [ {| Content64.startDelayInTicks := ofZ 4;
       Content64.breathDurationInTicks := literal (1 # 10) |} ].

(** Two lines, of two cells and of one cell, with 0.1 tick per unit. *)
Definition tenthPerUnitTwoLines : list Content64.RectProps :=
  [ {| Content64.startDelayInTicks := ofZ 4;
       Content64.breathDurationInTicks := literal (2 # 10) |};
    {| Content64.startDelayInTicks := ofZ 1;
       Content64.breathDurationInTicks := literal (1 # 10) |} ].

End Sample64.

(** * Properties *)

(** ** Numbers *)

Lemma Qlt_bool_iff (a b : Q) : Qlt_bool a b = true <-> a < b.
Proof.
  unfold Qlt_bool. rewrite negb_true_iff.
  split; intro H.
  - apply Qnot_le_lt. intro Hle. apply Qle_bool_iff in Hle. congruence.
  - destruct (Qle_bool b a) eqn:E; [|reflexivity].
    apply Qle_bool_iff in E. lra.
Qed.

Lemma Qlt_bool_false_iff (a b : Q) : Qlt_bool a b = false <-> b <= a.
Proof.
  unfold Qlt_bool. rewrite negb_false_iff. apply Qle_bool_iff.
Qed.

Lemma Qge_bool_iff (a b : Q) : Qge_bool a b = true <-> b <= a.
Proof. unfold Qge_bool. apply Qle_bool_iff. Qed.

Lemma Qeq_bool_false_iff (a b : Q) : Qeq_bool a b = false <-> ~ a == b.
Proof.
  split.
  - apply Qeq_bool_neq.
  - intro H. destruct (Qeq_bool a b) eqn:E; [|reflexivity].
    apply Qeq_bool_iff in E. contradiction.
Qed.

Lemma Qfloor_unique (x : Q) (z : Z) :
  inject_Z z <= x -> x < inject_Z (z + 1) -> Qfloor x = z.
Proof.
  intros Hlo Hhi.
  pose proof (Qfloor_le x) as Hf1. pose proof (Qlt_floor x) as Hf2.
  assert (H1 : inject_Z z < inject_Z (Qfloor x + 1)) by lra.
  assert (H2 : inject_Z (Qfloor x) < inject_Z (z + 1)) by lra.
  rewrite <- Zlt_Qlt in H1, H2. lia.
Qed.

Lemma Qtrunc_nonneg (x : Q) : 0 <= x -> Qtrunc x = Qfloor x.
Proof.
  intro H. unfold Qtrunc. apply Qle_bool_iff in H. now rewrite H.
Qed.

(** For a non-negative dividend and a positive divisor, [a % b] is
    [a - b * floor (a / b)] and lies in [[0, b)]. *)
Lemma jsRem_nonneg (a b : Q) :
  0 <= a -> 0 < b ->
  exists m, jsRem a b = Some m
            /\ m == a - b * inject_Z (Qfloor (a / b)) /\ 0 <= m /\ m < b.
Proof.
  intros Ha Hb. unfold jsRem.
  assert (Hb0 : Qeq_bool b 0 = false) by (apply Qeq_bool_false_iff; lra).
  rewrite Hb0.
  assert (Hq : 0 <= a / b) by (apply Qle_shift_div_l; lra).
  rewrite (Qtrunc_nonneg _ Hq).
  eexists. split; [reflexivity|]. rewrite Qred_correct.
  split; [reflexivity|].
  pose proof (Qfloor_le (a / b)) as H1. pose proof (Qlt_floor (a / b)) as H2.
  rewrite inject_Z_plus in H2.
  assert (Hab : a == (a / b) * b) by (field; lra).
  set (q := a / b) in *. set (f := inject_Z (Qfloor q)) in *.
  change (inject_Z 1) with 1 in H2.
  split; nra.
Qed.



(** ** The timeline animation engine *)

Section TimelineFacts.

Variable easeOutElastic : Q -> Q.

Local Notation animateRatios := (Timeline.animateRatios easeOutElastic).
Local Notation animateLine := (Timeline.animateLine easeOutElastic).
Local Notation breathStep := Timeline.breathStep.
Local Notation getAnimatedLinesWithAnimations :=
  (Timeline.getAnimatedLinesWithAnimations easeOutElastic).

Lemma Line_eq_refl (l : Line) : Line_eq l l.
Proof. repeat split; reflexivity. Qed.

Lemma Lines_eq_refl (ls : list Line) : Lines_eq ls ls.
Proof. induction ls; constructor; auto using Line_eq_refl. Qed.

(** A line animated with ratios [0] and [1] is the line itself. *)
Lemma animateLine_open (l : Line) (ty : option Timeline.AnimateLineType)
    (p : Q) :
  fst (animateRatios ty p) == 0 -> snd (animateRatios ty p) == 1 ->
  Line_eq (animateLine l ty p) l.
Proof.
  intros H0 H1. unfold Timeline.animateLine.
  destruct (animateRatios ty p) as [startRatio endRatio].
  destruct l as [[l00 l01] [l10 l11]]. simpl in H0, H1.
  destruct (Qeq_bool (l10 - l00) 0).
  - repeat split; simpl; try reflexivity; rewrite ?H0, ?H1; ring.
  - destruct (Qeq_bool (l11 - l01) 0).
    + repeat split; simpl; try reflexivity; rewrite ?H0, ?H1; ring.
    + apply Line_eq_refl.
Qed.

Lemma hold_open (lines : list Line) :
  Lines_eq (map (fun l => animateLine l (Some Timeline.static) 1) lines) lines.
Proof.
  induction lines as [|l ls IH]; constructor; [|exact IH].
  apply animateLine_open; reflexivity.
Qed.

(** C9: a line that is neither vertical nor horizontal is returned as it is,
    whatever the animation type (the undefined type included) and the
    proportion. *)
Theorem animateLine_diagonal_unchanged
    (l : Line) (ty : option Timeline.AnimateLineType) (proportion : Q) :
  ~ fst (snd l) - fst (fst l) == 0 ->
  ~ snd (snd l) - snd (fst l) == 0 ->
  animateLine l ty proportion = l.
Proof.
  intros Hx Hy. unfold Timeline.animateLine.
  destruct (animateRatios ty proportion) as [startRatio endRatio].
  destruct l as [[l00 l01] [l10 l11]]. simpl in Hx, Hy.
  apply Qeq_bool_false_iff in Hx, Hy. now rewrite Hx, Hy.
Qed.

(** The sub-phase of a breath node: for a tick [t] of the active window
    that falls in the quarter number [k], the type is the [k]-th of the
    sequence and the proportion is the progress inside that quarter. *)
Lemma breathStep_quarter (duration t : Q) (k : Z) :
  0 < duration -> (0 <= k)%Z ->
  inject_Z k * (duration / 4) <= t ->
  t < inject_Z (k + 1) * (duration / 4) ->
  exists proportion,
    breathStep duration t
    = (arrayGet Timeline.animationSequence k, proportion)
    /\ proportion == (t - inject_Z k * (duration / 4)) / (duration / 4).
Proof.
  intros Hd Hk Hlo Hhi. unfold Timeline.breathStep.
  change (inject_Z (Z.of_nat (List.length Timeline.animationSequence))) with 4.
  set (seq := duration / 4) in *.
  assert (Hseq : 0 < seq) by (unfold seq; apply Qlt_shift_div_l; lra).
  assert (Hk0 : 0 <= inject_Z k) by (rewrite Zle_Qle in Hk; exact Hk).
  assert (Ht : 0 <= t) by nra.
  assert (Hf : Qfloor (t / seq) = k).
  { apply Qfloor_unique.
    - apply Qle_shift_div_l; [exact Hseq | exact Hlo].
    - apply Qlt_shift_div_r; [exact Hseq | exact Hhi]. }
  destruct (jsRem_nonneg t seq Ht Hseq) as (m & Hm & Hmeq & _).
  rewrite Hm, Hf. eexists. split; [reflexivity|].
  rewrite Hmeq, Hf. field. lra.
Qed.

(** Evaluation of a node at a tick whose remainder is known. *)
Lemma getAnimatedLines_breath_active
    (anim : Timeline.Animation) (lines : list Line) (tick m : Q) :
  Timeline.type anim = "breath"%string ->
  jsRem tick (Timeline.completeTicksDuration anim) = Some m ->
  Timeline.startDelayInTicks anim <= m ->
  m < Timeline.startDelayInTicks anim + Timeline.durationInTicks anim ->
  getAnimatedLinesWithAnimations anim lines tick
  = Some (map (fun l =>
                 animateLine l
                   (fst (breathStep (Timeline.durationInTicks anim)
                           (m - Timeline.startDelayInTicks anim)))
                   (snd (breathStep (Timeline.durationInTicks anim)
                           (m - Timeline.startDelayInTicks anim))))
              lines).
Proof.
  destruct anim as [s d e li ty subs].
  unfold Timeline.completeTicksDuration. simpl. intros Hty Hm Hlo Hhi.
  rewrite Hm.
  assert (H1 : Qlt_bool m s = false) by (apply Qlt_bool_false_iff; lra).
  assert (H2 : Qge_bool m s = true) by (apply Qge_bool_iff; lra).
  assert (H3 : Qlt_bool m (s + d + e - e) = true)
    by (apply Qlt_bool_iff; lra).
  rewrite H1, H2, H3, Hty. simpl.
  destruct (breathStep d (m - s)) as [ty' p]. reflexivity.
Qed.

Lemma getAnimatedLines_hold
    (anim : Timeline.Animation) (lines : list Line) (tick m : Q) :
  jsRem tick (Timeline.completeTicksDuration anim) = Some m ->
  m < Timeline.startDelayInTicks anim
  \/ Timeline.startDelayInTicks anim + Timeline.durationInTicks anim <= m ->
  getAnimatedLinesWithAnimations anim lines tick
  = Some (map (fun l => animateLine l (Some Timeline.static) 1) lines).
Proof.
  destruct anim as [s d e li ty subs].
  unfold Timeline.completeTicksDuration. simpl. intros Hm Hcase.
  rewrite Hm.
  destruct (Qlt_bool m s) eqn:H1; [reflexivity|].
  apply Qlt_bool_false_iff in H1.
  assert (Hge : s + d <= m) by (destruct Hcase; lra).
  assert (H3 : Qlt_bool m (s + d + e - e) = false)
    by (apply Qlt_bool_false_iff; lra).
  assert (H4 : Qge_bool m (s + d + e - e) = true)
    by (apply Qge_bool_iff; lra).
  rewrite H3, H4, andb_false_r. reflexivity.
Qed.




Lemma Line_eq_sym (l m : Line) : Line_eq l m -> Line_eq m l.
Proof.
  intros [[H1 H2] [H3 H4]]. repeat split; symmetry; assumption.
Qed.

Lemma Line_eq_trans (l m n : Line) : Line_eq l m -> Line_eq m n -> Line_eq l n.
Proof.
  intros [[H1 H2] [H3 H4]] [[K1 K2] [K3 K4]].
  repeat split; etransitivity; eassumption.
Qed.

Lemma Lines_eq_sym (ls ms : list Line) : Lines_eq ls ms -> Lines_eq ms ls.
Proof.
  induction 1; constructor; auto using Line_eq_sym.
Qed.

Lemma Lines_eq_trans (ls ms ns : list Line) :
  Lines_eq ls ms -> Lines_eq ms ns -> Lines_eq ls ns.
Proof.
  intros H. revert ns.
  induction H as [|l m ls ms Hlm _ IH]; intros ns Hn; inversion Hn; subst.
  - constructor.
  - constructor; [eapply Line_eq_trans; eassumption | apply IH; assumption].
Qed.

End TimelineFacts.

(** ** The content assigner *)

Lemma paletteWalk_range (ratios : list Q) (i0 : Z) (value : Q) :
  Content.paletteWalk ratios i0 value = (-1)%Z
  \/ (i0 <= Content.paletteWalk ratios i0 value
      < i0 + Z.of_nat (List.length ratios))%Z.
Proof.
  revert i0 value.
  induction ratios as [|ratio rest IH]; intros i0 value; simpl.
  - left. reflexivity.
  - destruct (Qlt_bool value ratio).
    + right. lia.
    + destruct (IH (i0 + 1)%Z (value - ratio)) as [H | H]; [left | right];
        lia.
Qed.

Lemma remainingValue_cons (ratio : Q) (rest : list Q) (value : Q) (i : nat) :
  Content.remainingValue (ratio :: rest) value (S i)
  = Content.remainingValue rest (value - ratio) i.
Proof. reflexivity. Qed.

(** The walk entered at index [i0] returns [i0 + i] exactly when [i] is the
    first position at which the remaining value is below the weight. *)
Lemma paletteWalk_spec (ratios : list Q) (i0 : Z) (value : Q) (i : nat) :
  (0 <= i0)%Z ->
  Content.paletteWalk ratios i0 value = (i0 + Z.of_nat i)%Z
  <-> exists ratio,
        nth_error ratios i = Some ratio
        /\ Content.remainingValue ratios value i < ratio
        /\ forall (j : nat) (r : Q),
             (j < i)%nat -> nth_error ratios j = Some r ->
             ~ Content.remainingValue ratios value j < r.
Proof.
  revert i0 value i.
  induction ratios as [|ratio rest IH]; intros i0 value i Hi0.
  - simpl. split.
    + intro H. lia.
    + intros (r & Hnth & _). destruct i; discriminate.
  - simpl. destruct (Qlt_bool value ratio) eqn:Hlt.
    + apply Qlt_bool_iff in Hlt. split.
      * intro H. assert (i = 0%nat) by lia. subst i.
        exists ratio. repeat split; [exact Hlt | intros; lia].
      * intros (r & Hnth & Hrem & Hfirst).
        destruct i as [|i]; [lia|].
        exfalso. apply (Hfirst 0%nat ratio); [lia | reflexivity | exact Hlt].
    + apply Qlt_bool_false_iff in Hlt.
      destruct i as [|i].
      * split.
        -- intro H.
           destruct (paletteWalk_range rest (i0 + 1) (value - ratio)); lia.
        -- intros (r & Hnth & Hrem & _). simpl in Hnth.
           injection Hnth as <-. unfold Content.remainingValue in Hrem.
           simpl in Hrem. lra.
      * replace (i0 + Z.of_nat (S i))%Z with (i0 + 1 + Z.of_nat i)%Z by lia.
        rewrite (IH (i0 + 1)%Z (value - ratio) i) by lia.
        split; intros (r & Hnth & Hrem & Hfirst); exists r;
          (split; [exact Hnth|]); (split; [exact Hrem|]).
        -- intros [|j] r' Hj Hnth'.
           ++ simpl in Hnth'. injection Hnth' as <-.
              unfold Content.remainingValue. simpl. lra.
           ++ rewrite remainingValue_cons.
              apply Hfirst; [lia | exact Hnth'].
        -- intros j r' Hj Hnth'.
           rewrite <- remainingValue_cons.
           apply Hfirst; [lia | exact Hnth'].
Qed.

(** The walk returns the sentinel exactly when no index is hit. *)
Lemma paletteWalk_exhausted (ratios : list Q) (i0 : Z) (value : Q) :
  (0 <= i0)%Z ->
  Content.paletteWalk ratios i0 value = (-1)%Z
  <-> Content.exhausts ratios value.
Proof.
  revert i0 value.
  induction ratios as [|ratio rest IH]; intros i0 value Hi0; simpl.
  - split; [|reflexivity]. intros _ j r Hnth. destruct j; discriminate.
  - destruct (Qlt_bool value ratio) eqn:Hlt.
    + apply Qlt_bool_iff in Hlt. split; [lia|].
      intro H. exfalso. apply (H 0%nat ratio); [reflexivity | exact Hlt].
    + apply Qlt_bool_false_iff in Hlt.
      rewrite (IH (i0 + 1)%Z (value - ratio)) by lia.
      split; intros H.
      * intros [|j] r Hnth.
        -- simpl in Hnth. injection Hnth as <-.
           unfold Content.remainingValue. simpl. lra.
        -- rewrite remainingValue_cons. apply H. exact Hnth.
      * intros j r Hnth. rewrite <- remainingValue_cons.
        apply H. exact Hnth.
Qed.

(** Non-negative weights whose sum does not exceed the value are
    exhausted. *)
Lemma exhausts_of_small_sum (ratios : list Q) (value : Q) :
  Forall (fun ratio => 0 <= ratio) ratios ->
  Content.sumRatios ratios <= value ->
  Content.exhausts ratios value.
Proof.
  revert value.
  induction ratios as [|ratio rest IH]; intros value Hpos Hsum.
  - intros j r Hnth. destruct j; discriminate.
  - inversion Hpos as [|? ? Hr Hrest]; subst.
    simpl in Hsum.
    assert (Hrest_pos : 0 <= Content.sumRatios rest).
    { clear -Hrest. induction Hrest; simpl; [lra|].
      unfold Content.sumRatios in *. simpl. lra. }
    unfold Content.sumRatios in Hsum, Hrest_pos. simpl in Hsum.
    intros [|j] r Hnth.
    + simpl in Hnth. injection Hnth as <-.
      unfold Content.remainingValue. simpl. lra.
    + rewrite remainingValue_cons.
      apply (IH (value - ratio)); [exact Hrest | | exact Hnth].
      unfold Content.sumRatios. lra.
Qed.

Section ContentFacts.

Variable Rng : Type.
Variable rand : Rng -> Q * Rng.
Variable randomByWeights : list Q -> Rng -> Z * Rng.
Variable noise2D : Q -> Q -> Q.
Variable foreground : Gene.Foreground.
Variable animation : Gene.Animation.
Variable colorPtOffset : Q * Q.

Local Notation colorPt := (Content.colorPt foreground colorPtOffset).
Local Notation colorPalleteIndex :=
  (Content.colorPalleteIndex noise2D foreground).
Local Notation sprinkledIndex :=
  (Content.sprinkledIndex Rng rand randomByWeights noise2D foreground).
Local Notation rectPropsAt :=
  (Content.rectPropsAt Rng rand randomByWeights noise2D foreground
     animation colorPtOffset).

Lemma sprinkledIndex_no_override (pt : Cord) (g : Rng) :
  Gene.colorSprinkleRatio foreground <= fst (rand g) ->
  sprinkledIndex pt g = (colorPalleteIndex pt, snd (rand g)).
Proof.
  intro H. unfold Content.sprinkledIndex.
  destruct (rand g) as [r g1]. simpl in *.
  apply Qlt_bool_false_iff in H. now rewrite H.
Qed.

(** C6: without a sprinkle override the palette index is the result of the
    walk over [colorPalletesRatio] from the normalized noise value; the walk
    returns the first index at which the value that is left is below the
    weight; with weights [0.5, 0.5], the value 0.3 selects index 0 and the
    value 0.7 selects index 1. *)
Theorem palette_selection_walk :
  (forall (pt : Cord) (g : Rng),
      Gene.colorSprinkleRatio foreground <= fst (rand g) ->
      fst (sprinkledIndex pt g)
      = Content.paletteWalk (Gene.colorPalletesRatio foreground) 0
          (Content.colorPalleteNormalizedValue (noise2D (fst pt) (snd pt))))
  /\ (forall (ratios : list Q) (value : Q) (i : nat),
         Content.paletteWalk ratios 0 value = Z.of_nat i
         <-> exists ratio,
               nth_error ratios i = Some ratio
               /\ Content.remainingValue ratios value i < ratio
               /\ forall (j : nat) (r : Q),
                    (j < i)%nat -> nth_error ratios j = Some r ->
                    ~ Content.remainingValue ratios value j < r)
  /\ Content.paletteWalk [1 # 2; 1 # 2] 0 (3 # 10) = 0%Z
  /\ Content.paletteWalk [1 # 2; 1 # 2] 0 (7 # 10) = 1%Z.
Proof.
  split; [|split; [|split; reflexivity]].
  - intros pt g H. rewrite (sprinkledIndex_no_override pt g H). reflexivity.
  - intros ratios value i.
    rewrite <- (paletteWalk_spec ratios 0 value i) by lia. reflexivity.
Qed.

Lemma binaryFraction_nonneg (ratios : list Q) :
  forallb binaryFraction ratios = true ->
  Forall (fun ratio => 0 <= ratio) ratios.
Proof.
  induction ratios as [|r rs IH]; intro H; [constructor|].
  cbn [forallb] in H. apply andb_true_iff in H. destruct H as [Hr Hrs].
  constructor; [|apply IH; exact Hrs].
  unfold binaryFraction in Hr.
  apply andb_true_iff in Hr. destruct Hr as [Hr _].
  apply andb_true_iff in Hr. destruct Hr as [Hr _].
  apply Qle_bool_iff. exact Hr.
Qed.

(** C2, as amended: for weights that are binary fractions, when the walk
    exhausts the weights the index computed by the walk is [-1]; unless the
    sprinkle override replaces it, the consuming code reads
    [colorPalletes[-1]], which is undefined, and fails.  Such weights, when
    their sum is below 0.99, are exhausted by the normalized value at the
    top of its range. *)
Theorem palette_exhaustion_invalid_access :
  (forallb binaryFraction (Gene.colorPalletesRatio foreground) = true ->
   forall (i : nat) (l : Grid.GridLine) (g : Rng),
      Content.exhausts (Gene.colorPalletesRatio foreground)
        (Content.colorPalleteNormalizedValue
           (noise2D (fst (colorPt l)) (snd (colorPt l)))) ->
      colorPalleteIndex (colorPt l) = (-1)%Z
      /\ (Gene.colorSprinkleRatio foreground <= fst (rand g) ->
          fst (sprinkledIndex (colorPt l) g) = (-1)%Z
          /\ arrayGet (Gene.colorPalletes foreground) (-1) = None
          /\ rectPropsAt i l g = None))
  /\ (forall ratios : list Q,
         forallb binaryFraction ratios = true ->
         Content.sumRatios ratios < 99 # 100 ->
         exists noise,
           Content.colorPalleteNormalizedValue noise == 99 # 100
           /\ Content.exhausts ratios
                (Content.colorPalleteNormalizedValue noise)).
Proof.
  split.
  - intros _ i l g Hex.
    assert (Hidx : colorPalleteIndex (colorPt l) = (-1)%Z).
    { unfold Content.colorPalleteIndex.
      apply paletteWalk_exhausted; [lia | exact Hex]. }
    split; [exact Hidx|]. intro Hno.
    pose proof (sprinkledIndex_no_override (colorPt l) g Hno) as Hs.
    split; [rewrite Hs; exact Hidx|]. split; [reflexivity|].
    unfold Content.rectPropsAt. rewrite Hs, Hidx. reflexivity.
  - intros ratios Hbin Hsum. exists 1.
    assert (Hv : Content.colorPalleteNormalizedValue 1 == 99 # 100)
      by reflexivity.
    split; [exact Hv|].
    apply exhausts_of_small_sum; [apply binaryFraction_nonneg; exact Hbin|].
    rewrite Hv. lra.
Qed.

End ContentFacts.

(** ** The construction of the timeline *)

Lemma fold_left_Qmax_ge (xs : list Q) (x y : Q) :
  In y (x :: xs) -> y <= fold_left Qmax xs x.
Proof.
  revert x y. induction xs as [|z zs IH]; intros x y Hin; simpl.
  - destruct Hin as [E | []]. rewrite E. lra.
  - assert (Hacc : Qmax x z <= fold_left Qmax zs (Qmax x z))
      by (apply IH; left; reflexivity).
    destruct Hin as [E | [E | Hin]].
    + rewrite <- E. apply Qle_trans with (Qmax x z); [apply Q.le_max_l|].
      exact Hacc.
    + rewrite <- E. apply Qle_trans with (Qmax x z); [apply Q.le_max_r|].
      exact Hacc.
    + apply IH. right. exact Hin.
Qed.

Lemma mathMax_ge (xs : list Q) (m y : Q) :
  Content.mathMax xs = Some m -> In y xs -> y <= m.
Proof.
  destruct xs as [|x rest]; simpl; [discriminate|].
  intros [= <-] Hin. apply fold_left_Qmax_ge. exact Hin.
Qed.

Lemma definedProps_length (rectProps : list (option Content.RectProps))
    (props : list Content.RectProps) :
  Content.definedProps rectProps = Some props ->
  List.length props = List.length rectProps.
Proof.
  revert props.
  induction rectProps as [|[r|] rest IH]; intros props H; simpl in H.
  - injection H as <-. reflexivity.
  - destruct (Content.definedProps rest) as [rs|]; [|discriminate].
    injection H as <-. simpl. f_equal. apply IH. reflexivity.
  - discriminate.
Qed.

Lemma breathAnimationsFrom_length (i : nat) (d : Q)
    (props : list Content.RectProps) :
  List.length (Content.breathAnimationsFrom i d props) = List.length props.
Proof.
  revert i. induction props; intro i; simpl; [reflexivity|].
  f_equal. auto.
Qed.

(** ** The grid partitioner *)

Lemma coverCount_app (xs ys : list Grid.GridLine) (c : Grid.GridCord) :
  Grid.coverCount (xs ++ ys) c
  = (Grid.coverCount xs c + Grid.coverCount ys c)%nat.
Proof.
  unfold Grid.coverCount. rewrite filter_app, length_app. reflexivity.
Qed.

Lemma coverCount_cons (l : Grid.GridLine) (ls : list Grid.GridLine)
    (c : Grid.GridCord) :
  Grid.coverCount (l :: ls) c
  = ((if Grid.coversb c l then 1 else 0) + Grid.coverCount ls c)%nat.
Proof.
  unfold Grid.coverCount. simpl. destruct (Grid.coversb c l); reflexivity.
Qed.

Lemma inRegionb_iff (topLeft bottomRight c : Grid.GridCord) :
  Grid.inRegionb topLeft bottomRight c = true
  <-> Grid.inRegion topLeft bottomRight c.
Proof.
  unfold Grid.inRegionb, Grid.inRegion.
  rewrite !andb_true_iff, !Z.leb_le. tauto.
Qed.

(** Lines inside a region cover no cell outside it. *)
Lemma coverCount_outside (topLeft bottomRight : Grid.GridCord)
    (lines : list Grid.GridLine) (c : Grid.GridCord) :
  Forall (Grid.lineWithin topLeft bottomRight) lines ->
  Grid.inRegionb topLeft bottomRight c = false ->
  Grid.coverCount lines c = 0%nat.
Proof.
  intros Hin Hout. induction Hin as [|l ls Hl _ IH]; [reflexivity|].
  rewrite coverCount_cons, IH.
  destruct (Grid.coversb c l) eqn:Hc; [|reflexivity].
  exfalso. unfold Grid.coversb in Hc. unfold Grid.lineWithin in Hl.
  rewrite !andb_true_iff, !Z.leb_le in Hc.
  assert (Hr : Grid.inRegionb topLeft bottomRight c = true)
    by (apply inRegionb_iff; unfold Grid.inRegion; lia).
  congruence.
Qed.

Lemma tilesRegion_count (topLeft bottomRight : Grid.GridCord)
    (lines : list Grid.GridLine) (c : Grid.GridCord) :
  Grid.tilesRegion topLeft bottomRight lines ->
  Grid.coverCount lines c
  = if Grid.inRegionb topLeft bottomRight c then 1%nat else 0%nat.
Proof.
  intros [Hin Hone].
  destruct (Grid.inRegionb topLeft bottomRight c) eqn:Hc.
  - apply Hone. now apply inRegionb_iff.
  - now apply (coverCount_outside topLeft bottomRight).
Qed.

Lemma lineWithin_mono (tl br tl' br' : Grid.GridCord) (l : Grid.GridLine) :
  (fst tl' <= fst tl)%Z -> (snd tl' <= snd tl)%Z ->
  (fst br <= fst br')%Z -> (snd br <= snd br')%Z ->
  Grid.lineWithin tl br l -> Grid.lineWithin tl' br' l.
Proof. unfold Grid.lineWithin. lia. Qed.

(** A region is tiled by a tiling of a first part, a line, and a tiling of
    a second part, when each cell of the region is in exactly one of the
    three. *)
Lemma tilesRegion_split (tl br tlA brA tlB brB : Grid.GridCord)
    (before after : list Grid.GridLine) (line : Grid.GridLine) :
  Grid.tilesRegion tlA brA before ->
  Grid.tilesRegion tlB brB after ->
  Grid.lineWithin tl br line ->
  (fst tl <= fst tlA /\ snd tl <= snd tlA
   /\ fst brA <= fst br /\ snd brA <= snd br)%Z ->
  (fst tl <= fst tlB /\ snd tl <= snd tlB
   /\ fst brB <= fst br /\ snd brB <= snd br)%Z ->
  (forall c, Grid.inRegion tl br c ->
             ((if Grid.inRegionb tlA brA c then 1 else 0)
              + (if Grid.coversb c line then 1 else 0)
              + (if Grid.inRegionb tlB brB c then 1 else 0) = 1)%nat) ->
  Grid.tilesRegion tl br (before ++ line :: after).
Proof.
  intros HA HB Hline HsubA HsubB Hone. split.
  - apply Forall_app. split; [|constructor; [exact Hline|]].
    + eapply Forall_impl; [|exact (proj1 HA)].
      intros l. apply lineWithin_mono; lia.
    + eapply Forall_impl; [|exact (proj1 HB)].
      intros l. apply lineWithin_mono; lia.
  - intros c Hc.
    rewrite coverCount_app, coverCount_cons.
    rewrite (tilesRegion_count _ _ _ c HA), (tilesRegion_count _ _ _ c HB).
    specialize (Hone c Hc). lia.
Qed.

(** The empty sequence tiles an inverted region. *)
Lemma tilesRegion_nil (tl br : Grid.GridCord) :
  (fst br < fst tl \/ snd br < snd tl)%Z -> Grid.tilesRegion tl br [].
Proof.
  intro H. split; [constructor|].
  intros c Hc. unfold Grid.inRegion in Hc. lia.
Qed.

Ltac cover_cases :=
  unfold Grid.coverCount, Grid.coversb, Grid.inRegionb; simpl;
  repeat match goal with
         | |- context [(?a <=? ?b)%Z] =>
             destruct (Z.leb_spec a b); simpl; try lia
         end.

Ltac tiles_by_cases :=
  split;
  [ repeat constructor; unfold Grid.lineWithin; simpl; lia
  | let c0 := fresh "c0" in
    let c1 := fresh "c1" in
    let Hc := fresh "Hc" in
    intros [c0 c1] Hc; unfold Grid.inRegion in Hc; simpl in Hc;
    cover_cases ].

Section GridFacts.

Variable Rng : Type.
Variable rand : Rng -> Q * Rng.
Variable random : Z -> Z -> Rng -> Z * Rng.

Local Notation generateGridPartitioningInGridUnits :=
  (Grid.generateGridPartitioningInGridUnits Rng rand random).

(** C7: on a region of extent one in both directions the partitioner flips
    the weighted coin, returns the two halves of the block along the chosen
    axis, and does not recurse (one unit of fuel is enough); the two lines
    tile the block.  For [[0,0]..[1,1]], a ratio of one half and a vertical
    outcome the lines are [[[0,0],[0,1]]] and [[[1,0],[1,1]]]. *)
Theorem two_by_two_block
    (topLeft bottomRight : Grid.GridCord) (vertOrHorzRatio : Q) (g : Rng)
    (fuel : nat) :
  (fst bottomRight - fst topLeft = 1)%Z ->
  (snd bottomRight - snd topLeft = 1)%Z ->
  exists first second,
    generateGridPartitioningInGridUnits (S fuel) topLeft bottomRight
      vertOrHorzRatio g
    = Some ([first; second], snd (rand g))
    /\ Grid.tilesRegion topLeft bottomRight [first; second]
    /\ (vertOrHorzRatio < fst (rand g) ->
        first = (topLeft, (fst topLeft, snd bottomRight))
        /\ second = ((fst bottomRight, snd topLeft), bottomRight))
    /\ (fst (rand g) <= vertOrHorzRatio ->
        first = (topLeft, (fst bottomRight, snd topLeft))
        /\ second = ((fst topLeft, snd bottomRight), bottomRight))
    /\ (topLeft = (0, 0)%Z -> bottomRight = (1, 1)%Z ->
        vertOrHorzRatio < fst (rand g) ->
        first = ((0, 0), (0, 1))%Z /\ second = ((1, 0), (1, 1))%Z).
Proof.
  destruct topLeft as [tl0 tl1], bottomRight as [br0 br1]. simpl.
  intros H0 H1.
  assert (Hb0 : br0 = (tl0 + 1)%Z) by lia.
  assert (Hb1 : br1 = (tl1 + 1)%Z) by lia. subst br0 br1.
  replace (tl0 + 1 - tl0)%Z with 1%Z by lia.
  replace (tl1 + 1 - tl1)%Z with 1%Z by lia. simpl.
  destruct (rand g) as [r g1]. simpl.
  replace (tl0 + 1 - 1)%Z with tl0 by lia.
  replace (tl1 + 1 - 1)%Z with tl1 by lia.
  destruct (Qlt_bool vertOrHorzRatio r) eqn:Hv.
  - apply Qlt_bool_iff in Hv.
    eexists _, _. split; [reflexivity|].
    split; [tiles_by_cases|].
    split; [auto|]. split; [intro; lra|].
    intros [= -> ->] _ _. auto.
  - apply Qlt_bool_false_iff in Hv.
    eexists _, _. split; [reflexivity|].
    split; [tiles_by_cases|].
    split; [intro; lra|]. split; [auto|].
    intros _ _ ?. lra.
Qed.

Section CutInRegion.

(** Every cut coordinate drawn for a region lies inside the region: for the
    draw [random (lo, hi, 'int')] of a region that spans [lo - 1 .. hi], the
    outcome is between [lo - 1] and [hi]. *)
Hypothesis random_in_region :
  forall (lo hi : Z) (g : Rng),
    (lo - 1 <= hi)%Z -> (lo - 1 <= fst (random lo hi g) <= hi)%Z.

Ltac use_IH IH :=
  match goal with
  | |- context [Grid.generateGridPartitioningInGridUnits _ _ _ _ ?a ?b ?r ?g] =>
      let lines := fresh "lines" in
      let g' := fresh "g'" in
      let Hgen := fresh "Hgen" in
      let Ht := fresh "Htiles" in
      destruct (IH a b r g) as (lines & g' & Hgen & Ht);
      [ simpl; lia | simpl; lia | simpl; lia | rewrite Hgen ]
  end.

(** With enough fuel the partitioner returns, and its lines tile the
    region. *)
Lemma generate_tiles (fuel : nat) :
  forall (topLeft bottomRight : Grid.GridCord) (ratio : Q) (g : Rng),
    (fst topLeft <= fst bottomRight)%Z ->
    (snd topLeft <= snd bottomRight)%Z ->
    (Z.to_nat ((fst bottomRight - fst topLeft)
               + (snd bottomRight - snd topLeft)) < fuel)%nat ->
    exists lines g',
      generateGridPartitioningInGridUnits fuel topLeft bottomRight ratio g
      = Some (lines, g')
      /\ Grid.tilesRegion topLeft bottomRight lines.
Proof.
  induction fuel as [|fuel IH];
    intros [tl0 tl1] [br0 br1] ratio g H0 H1 Hfuel; [lia|].
  simpl in H0, H1, Hfuel.
  cbn [Grid.generateGridPartitioningInGridUnits].
  destruct ((br0 - tl0 =? 0) && (br1 - tl1 =? 0))%Z eqn:Hdot.
  { apply andb_true_iff in Hdot. rewrite !Z.eqb_eq in Hdot.
    eexists _, _. split; [reflexivity|]. tiles_by_cases. }
  destruct (rand g) as [r g1].
  destruct (((br0 - tl0 =? 1) && (br1 - tl1 =? 0))
            || ((br0 - tl0 =? 0) && (br1 - tl1 =? 1)))%Z eqn:Hline.
  { apply orb_true_iff in Hline.
    rewrite !andb_true_iff, !Z.eqb_eq in Hline.
    eexists _, _. split; [reflexivity|].
    destruct Hline as [[? ?] | [? ?]]; tiles_by_cases. }
  destruct ((br0 - tl0 =? 1) && (br1 - tl1 =? 1))%Z eqn:Hsquare.
  { apply andb_true_iff in Hsquare. rewrite !Z.eqb_eq in Hsquare.
    destruct (Qlt_bool ratio r);
      (eexists _, _; split; [reflexivity | tiles_by_cases]). }
  destruct (Qlt_bool ratio r) eqn:Hvert.
  - (* a vertical cut *)
    pose proof (random_in_region (tl0 + 1) br0 g1) as Hx.
    destruct (random (tl0 + 1) br0 g1) as [x g2]. simpl in Hx.
    assert (Hx' : (tl0 <= x <= br0)%Z) by lia. clear Hx.
    cbn [fst snd negb]. rewrite !Z.geb_leb.
    destruct ((tl0 <=? x - 1) && (tl1 <=? br1 - 0))%Z eqn:HvalidA.
    + apply andb_true_iff in HvalidA. rewrite !Z.leb_le in HvalidA.
      use_IH IH.
      destruct ((x + 1 <=? br0) && (tl1 + 0 <=? br1))%Z eqn:HvalidB.
      * apply andb_true_iff in HvalidB. rewrite !Z.leb_le in HvalidB.
        use_IH IH.
        eexists _, _. split; [reflexivity|].
        eapply tilesRegion_split; try eassumption;
          try (unfold Grid.lineWithin; simpl; lia).
        intros [c0 c1] Hc. unfold Grid.inRegion in Hc. simpl in Hc.
        cover_cases.
      * apply andb_false_iff in HvalidB. rewrite !Z.leb_gt in HvalidB.
        eexists _, _. split; [reflexivity|].
        eapply tilesRegion_split with (tlB := (x + 1, tl1)%Z) (brB := (br0, br1));
          try eassumption;
          try (unfold Grid.lineWithin; simpl; lia).
        -- apply tilesRegion_nil. simpl. lia.
        -- intros [c0 c1] Hc. unfold Grid.inRegion in Hc. simpl in Hc.
           cover_cases.
    + apply andb_false_iff in HvalidA. rewrite !Z.leb_gt in HvalidA.
      destruct ((x + 1 <=? br0) && (tl1 + 0 <=? br1))%Z eqn:HvalidB.
      * apply andb_true_iff in HvalidB. rewrite !Z.leb_le in HvalidB.
        use_IH IH.
        eexists _, _. split; [reflexivity|].
        eapply tilesRegion_split with (tlA := (tl0, tl1)) (brA := (x - 1, br1)%Z);
          try eassumption;
          try (unfold Grid.lineWithin; simpl; lia).
        -- apply tilesRegion_nil. simpl. lia.
        -- intros [c0 c1] Hc. unfold Grid.inRegion in Hc. simpl in Hc.
           cover_cases.
      * apply andb_false_iff in HvalidB. rewrite !Z.leb_gt in HvalidB.
        eexists _, _. split; [reflexivity|].
        eapply tilesRegion_split with (tlA := (tl0, tl1)) (brA := (x - 1, br1)%Z)
                                      (tlB := (x + 1, tl1)%Z) (brB := (br0, br1));
          try (unfold Grid.lineWithin; simpl; lia).
        -- apply tilesRegion_nil. simpl. lia.
        -- apply tilesRegion_nil. simpl. lia.
        -- intros [c0 c1] Hc. unfold Grid.inRegion in Hc. simpl in Hc.
           cover_cases.
  - (* a horizontal cut *)
    pose proof (random_in_region (tl1 + 1) br1 g1) as Hy.
    destruct (random (tl1 + 1) br1 g1) as [y g2]. simpl in Hy.
    assert (Hy' : (tl1 <= y <= br1)%Z) by lia. clear Hy.
    cbn [fst snd negb]. rewrite !Z.geb_leb.
    destruct ((tl0 <=? br0 - 0) && (tl1 <=? y - 1))%Z eqn:HvalidA.
    + apply andb_true_iff in HvalidA. rewrite !Z.leb_le in HvalidA.
      use_IH IH.
      destruct ((tl0 + 0 <=? br0) && (y + 1 <=? br1))%Z eqn:HvalidB.
      * apply andb_true_iff in HvalidB. rewrite !Z.leb_le in HvalidB.
        use_IH IH.
        eexists _, _. split; [reflexivity|].
        eapply tilesRegion_split; try eassumption;
          try (unfold Grid.lineWithin; simpl; lia).
        intros [c0 c1] Hc. unfold Grid.inRegion in Hc. simpl in Hc.
        cover_cases.
      * apply andb_false_iff in HvalidB. rewrite !Z.leb_gt in HvalidB.
        eexists _, _. split; [reflexivity|].
        eapply tilesRegion_split with (tlB := (tl0, y + 1)%Z) (brB := (br0, br1));
          try eassumption;
          try (unfold Grid.lineWithin; simpl; lia).
        -- apply tilesRegion_nil. simpl. lia.
        -- intros [c0 c1] Hc. unfold Grid.inRegion in Hc. simpl in Hc.
           cover_cases.
    + apply andb_false_iff in HvalidA. rewrite !Z.leb_gt in HvalidA.
      destruct ((tl0 + 0 <=? br0) && (y + 1 <=? br1))%Z eqn:HvalidB.
      * apply andb_true_iff in HvalidB. rewrite !Z.leb_le in HvalidB.
        use_IH IH.
        eexists _, _. split; [reflexivity|].
        eapply tilesRegion_split with (tlA := (tl0, tl1)) (brA := (br0, y - 1)%Z);
          try eassumption;
          try (unfold Grid.lineWithin; simpl; lia).
        -- apply tilesRegion_nil. simpl. lia.
        -- intros [c0 c1] Hc. unfold Grid.inRegion in Hc. simpl in Hc.
           cover_cases.
      * apply andb_false_iff in HvalidB. rewrite !Z.leb_gt in HvalidB.
        eexists _, _. split; [reflexivity|].
        eapply tilesRegion_split with (tlA := (tl0, tl1)) (brA := (br0, y - 1)%Z)
                                      (tlB := (tl0, y + 1)%Z) (brB := (br0, br1));
          try (unfold Grid.lineWithin; simpl; lia).
        -- apply tilesRegion_nil. simpl. lia.
        -- apply tilesRegion_nil. simpl. lia.
        -- intros [c0 c1] Hc. unfold Grid.inRegion in Hc. simpl in Hc.
           cover_cases.
Qed.

End CutInRegion.

End GridFacts.

(** ** The rect converter *)

Lemma Zlt_of_scaled (s : Q) (a b : Z) :
  0 < s -> inject_Z a * s < inject_Z b * s -> (a < b)%Z.
Proof.
  intros Hs H. rewrite Zlt_Qlt. nra.
Qed.

Lemma scaled_le (s : Q) (a b : Z) :
  0 < s -> (a <= b)%Z -> inject_Z a * s <= inject_Z b * s.
Proof.
  intros Hs H. rewrite Zle_Qle in H. nra.
Qed.

(** One axis of a rectangle against one axis of a unit cell: with a jitter
    ratio of one, a point of the cell [c] is in the rectangle of the block
    [a .. b] exactly when [a <= c <= b]. *)
Lemma stripe_in_cell (origin u g j x : Q) (a b c : Z) :
  0 < u -> 0 <= g -> j == 1 ->
  origin + inject_Z c * (u + g) <= x ->
  x < origin + inject_Z c * (u + g) + u ->
  (origin + inject_Z a * (u + g) <= x
   /\ x < origin + ((inject_Z b + j) * (u + g) - g))
  <-> (a <= c /\ c <= b)%Z.
Proof.
  intros Hu Hg Hj Hlo Hhi.
  assert (Hs : 0 < u + g) by lra.
  split.
  - intros [H1 H2]. rewrite Hj in H2. split.
    + assert (H : (a < c + 1)%Z); [|lia].
      apply (Zlt_of_scaled (u + g)); [exact Hs|].
      rewrite inject_Z_plus. change (inject_Z 1) with 1. lra.
    + assert (H : (c < b + 1)%Z); [|lia].
      apply (Zlt_of_scaled (u + g)); [exact Hs|].
      rewrite inject_Z_plus. change (inject_Z 1) with 1. lra.
  - intros [H1 H2]. rewrite Hj.
    pose proof (scaled_le (u + g) a c Hs H1).
    pose proof (scaled_le (u + g) c b Hs H2).
    split; lra.
Qed.

(** One axis of a rectangle against the cell of a point. *)
Lemma stripe_cell_of (origin u g j x : Q) (a b : Z) :
  0 < u -> 0 <= g -> j == 1 ->
  origin + inject_Z a * (u + g) <= x ->
  x < origin + ((inject_Z b + j) * (u + g) - g) ->
  (a <= Qfloor ((x - origin) / (u + g))
   /\ Qfloor ((x - origin) / (u + g)) <= b)%Z.
Proof.
  intros Hu Hg Hj H1 H2. rewrite Hj in H2.
  assert (Hs : 0 < u + g) by lra.
  set (q := (x - origin) / (u + g)).
  assert (Hq : x - origin == q * (u + g)) by (unfold q; field; lra).
  pose proof (Qfloor_le q) as Hf1. pose proof (Qlt_floor q) as Hf2.
  rewrite inject_Z_plus in Hf2. change (inject_Z 1) with 1 in Hf2.
  split.
  - assert (H : (a < Qfloor q + 1)%Z); [|lia].
    apply (Zlt_of_scaled (u + g)); [exact Hs|].
    rewrite inject_Z_plus. change (inject_Z 1) with 1. nra.
  - assert (H : (Qfloor q < b + 1)%Z); [|lia].
    apply (Zlt_of_scaled (u + g)); [exact Hs|].
    rewrite inject_Z_plus. change (inject_Z 1) with 1. nra.
Qed.

Section ConverterFacts.

Variable sketchContext : Converter.SketchContext.
Variable gridPartitioning : Converter.GridPartitioning.

Local Notation unitSize := (Converter.unitSize gridPartitioning).
Local Notation gap := (Converter.gap gridPartitioning).
Local Notation gridSizeInUnits := (Converter.gridSizeInUnits gridPartitioning).
Local Notation topLeft := (Converter.topLeft sketchContext gridPartitioning).
Local Notation totalGridBounds := (Converter.totalGridBounds gridPartitioning).
Local Notation scaleLine := (Converter.scaleLine gridPartitioning).
Local Notation translateRect :=
  (Converter.translateRect sketchContext gridPartitioning).
Local Notation scaleLinesFrom := (Converter.scaleLinesFrom gridPartitioning).
Local Notation convertGridLinesToRects :=
  (Converter.convertGridLinesToRects sketchContext gridPartitioning).
Local Notation inUnitCell :=
  (Converter.inUnitCell sketchContext gridPartitioning).
Local Notation cellOf := (Converter.cellOf sketchContext gridPartitioning).
Local Notation rectInBound :=
  (Converter.rectInBound sketchContext gridPartitioning).
Local Notation tilesScaledBound :=
  (Converter.tilesScaledBound sketchContext gridPartitioning).

Lemma scaleLinesFrom_spec (lines : list Line)
    (lineProps : list Converter.LineProps) :
  forall i : nat,
    (i + List.length lines <= List.length lineProps)%nat ->
    exists rs,
      scaleLinesFrom i lines lineProps = Some rs
      /\ List.length rs = List.length lines
      /\ forall (k : nat) (l : Line),
           nth_error lines k = Some l ->
           exists p,
             nth_error lineProps (i + k) = Some p
             /\ nth_error rs k = Some (scaleLine l p).
Proof.
  induction lines as [|l rest IH]; intros i Hlen; simpl in *.
  - exists []. repeat split. intros k l H. destruct k; discriminate.
  - destruct (nth_error lineProps i) as [p|] eqn:Hp.
    + destruct (IH (S i)) as (rs & Hrs & Hlen' & Hnth); [lia|].
      rewrite Hrs. exists (scaleLine l p :: rs).
      split; [reflexivity|]. split; [simpl; lia|].
      intros [|k] l' Hk; simpl in Hk.
      * injection Hk as <-. exists p. rewrite Nat.add_0_r. auto.
      * destruct (Hnth k l' Hk) as (p' & Hp' & Hr).
        exists p'. rewrite Nat.add_succ_r. auto.
    + apply nth_error_None in Hp. lia.
Qed.

(** The rectangle of a grid line. *)
Lemma convert_grid_lines (lines : list Grid.GridLine)
    (lineProps : list Converter.LineProps) :
  (List.length lines <= List.length lineProps)%nat ->
  exists rects,
    convertGridLinesToRects (map Grid.lineOfGrid lines) lineProps
    = Some rects
    /\ Forall2 (fun l r =>
                  exists p, In p lineProps
                            /\ r = translateRect
                                     (scaleLine (Grid.lineOfGrid l) p))
         lines rects.
Proof.
  intro Hlen. unfold Converter.convertGridLinesToRects.
  assert (H : forall i,
             (i + List.length lines <= List.length lineProps)%nat ->
             exists rs,
               scaleLinesFrom i (map Grid.lineOfGrid lines) lineProps
               = Some rs
               /\ Forall2 (fun l r =>
                             exists p, In p lineProps
                                       /\ r = scaleLine (Grid.lineOfGrid l) p)
                    lines rs).
  { clear Hlen. induction lines as [|l rest IH]; intros i Hi; simpl in *.
    - exists []. split; [reflexivity | constructor].
    - destruct (nth_error lineProps i) as [p|] eqn:Hp.
      + destruct (IH (S i)) as (rs & Hrs & Hall); [lia|].
        rewrite Hrs. eexists. split; [reflexivity|].
        constructor; [|exact Hall].
        exists p. split; [|reflexivity]. eapply nth_error_In; eauto.
      + apply nth_error_None in Hp. lia. }
  destruct (H 0%nat) as (rs & Hrs & Hall); [simpl; lia|].
  rewrite Hrs. eexists. split; [reflexivity|].
  clear -Hall. induction Hall as [|l r ls rs' (p & Hin & ->) _ IH]; simpl;
    constructor; eauto.
Qed.

Lemma rectCount_le (R : Grid.GridLine -> Rect -> Prop)
    (lines : list Grid.GridLine) (rects : list Rect)
    (p : Cord) (c : Grid.GridCord) :
  Forall2 R lines rects ->
  (forall l r, R l r ->
               Converter.inRectb p r = true -> Grid.coversb c l = true) ->
  (Converter.rectCount rects p <= Grid.coverCount lines c)%nat.
Proof.
  intros Hall Himp.
  induction Hall as [|l r ls rs Hlr _ IH]; [apply Nat.le_refl|].
  unfold Converter.rectCount, Grid.coverCount in *. simpl.
  destruct (Converter.inRectb p r) eqn:Hr.
  - rewrite (Himp l r Hlr Hr). simpl. lia.
  - destruct (Grid.coversb c l); simpl; lia.
Qed.

Lemma rectCount_eq (R : Grid.GridLine -> Rect -> Prop)
    (lines : list Grid.GridLine) (rects : list Rect)
    (p : Cord) (c : Grid.GridCord) :
  Forall2 R lines rects ->
  (forall l r, R l r -> Converter.inRectb p r = Grid.coversb c l) ->
  Converter.rectCount rects p = Grid.coverCount lines c.
Proof.
  intros Hall Heq.
  induction Hall as [|l r ls rs Hlr _ IH]; [reflexivity|].
  unfold Converter.rectCount, Grid.coverCount in *. simpl.
  rewrite (Heq l r Hlr). destruct (Grid.coversb c l); simpl; lia.
Qed.

Section UnitJitter.

Hypothesis unit_width : 0 < fst unitSize.
Hypothesis unit_height : 0 < snd unitSize.
Hypothesis gap_nonneg : 0 <= gap.

Variable p : Converter.LineProps.
Hypothesis jitter_x : fst (Converter.gitterRatio p) == 1.
Hypothesis jitter_y : snd (Converter.gitterRatio p) == 1.

Lemma inRectb_spec (pt : Cord) (l : Grid.GridLine) :
  Converter.inRectb pt (translateRect (scaleLine (Grid.lineOfGrid l) p))
  = true
  <-> (fst topLeft + inject_Z (fst (fst l)) * (fst unitSize + gap) <= fst pt
       /\ fst pt < fst topLeft
                   + ((inject_Z (fst (snd l)) + fst (Converter.gitterRatio p))
                      * (fst unitSize + gap) - gap))
      /\ (snd topLeft + inject_Z (snd (fst l)) * (snd unitSize + gap)
          <= snd pt
          /\ snd pt < snd topLeft
                      + ((inject_Z (snd (snd l))
                          + snd (Converter.gitterRatio p))
                         * (snd unitSize + gap) - gap)).
Proof.
  unfold Converter.inRectb, Converter.translateRect, Converter.scaleLine,
    Grid.lineOfGrid. cbn [fst snd].
  rewrite !andb_true_iff, !Qle_bool_iff, !Qlt_bool_iff. tauto.
Qed.

Lemma coversb_spec (c : Grid.GridCord) (l : Grid.GridLine) :
  Grid.coversb c l = true
  <-> (fst (fst l) <= fst c /\ fst c <= fst (snd l))%Z
      /\ (snd (fst l) <= snd c /\ snd c <= snd (snd l))%Z.
Proof.
  unfold Grid.coversb. rewrite !andb_true_iff, !Z.leb_le. tauto.
Qed.

Lemma inRect_cellOf (pt : Cord) (l : Grid.GridLine) :
  Converter.inRectb pt (translateRect (scaleLine (Grid.lineOfGrid l) p))
  = true ->
  Grid.coversb (cellOf pt) l = true.
Proof.
  rewrite inRectb_spec, coversb_spec. intros [[Hx1 Hx2] [Hy1 Hy2]].
  unfold Converter.cellOf. cbn [fst snd]. split.
  - apply (stripe_cell_of _ _ _ (fst (Converter.gitterRatio p))); assumption.
  - apply (stripe_cell_of _ _ _ (snd (Converter.gitterRatio p))); assumption.
Qed.

Lemma inRect_unit_cell (pt : Cord) (c : Grid.GridCord) (l : Grid.GridLine) :
  inUnitCell c pt ->
  Converter.inRectb pt (translateRect (scaleLine (Grid.lineOfGrid l) p))
  = Grid.coversb c l.
Proof.
  intros (Hx1 & Hx2 & Hy1 & Hy2).
  apply eq_true_iff_eq. rewrite inRectb_spec, coversb_spec.
  rewrite (stripe_in_cell _ _ _ _ _ _ _ (fst c)
             unit_width gap_nonneg jitter_x Hx1 Hx2).
  rewrite (stripe_in_cell _ _ _ _ _ _ _ (snd c)
             unit_height gap_nonneg jitter_y Hy1 Hy2).
  reflexivity.
Qed.

Lemma rect_in_bound (w h : Z) (l : Grid.GridLine) :
  fst gridSizeInUnits == inject_Z w ->
  snd gridSizeInUnits == inject_Z h ->
  Grid.lineWithin (0, 0)%Z (w - 1, h - 1)%Z l ->
  rectInBound (translateRect (scaleLine (Grid.lineOfGrid l) p)).
Proof.
  intros Hw Hh Hl. unfold Grid.lineWithin in Hl. simpl in Hl.
  destruct Hl as (Ha0 & Hab0 & Hb0 & Ha1 & Hab1 & Hb1).
  assert (Hs0 : 0 < fst unitSize + gap) by lra.
  assert (Hs1 : 0 < snd unitSize + gap) by lra.
  pose proof (scaled_le _ _ _ Hs0 Ha0) as A0.
  pose proof (scaled_le _ _ _ Hs0 Hab0) as B0.
  pose proof (scaled_le _ _ _ Hs0 Hb0) as C0.
  pose proof (scaled_le _ _ _ Hs1 Ha1) as A1.
  pose proof (scaled_le _ _ _ Hs1 Hab1) as B1.
  pose proof (scaled_le _ _ _ Hs1 Hb1) as C1.
  unfold Z.sub in C0, C1. rewrite inject_Z_plus in C0, C1.
  change (inject_Z (- (1))) with (- (1)) in C0, C1.
  change (inject_Z 0) with 0 in A0, A1.
  unfold Converter.rectInBound, Converter.translateRect, Converter.scaleLine,
    Converter.totalGridBounds, Grid.lineOfGrid. cbn [fst snd].
  rewrite Hw, Hh, jitter_x, jitter_y.
  repeat split; lra.
Qed.

End UnitJitter.

End ConverterFacts.

(** C8, as amended: the converter gives one rectangle per line, in the
    order of the lines; the near corner is the first endpoint scaled by
    [unitSize + gap]; the far corner is the second endpoint scaled by
    [unitSize + gap] and moved outward by
    [jitterRatio * (unitSize + gap) - gap], with the jitter ratio of that
    line; every rectangle is translated by the same [topLeft], which
    centres the total grid bound
    [unitSize * gridSizeInUnits + gap * (gridSizeInUnits - 1)] in the
    canvas. *)
Theorem convertGridLinesToRects_formula
    (sketchContext : Converter.SketchContext)
    (gridPartitioning : Converter.GridPartitioning)
    (lines : list Line) (lineProps : list Converter.LineProps) :
  (List.length lines <= List.length lineProps)%nat ->
  let unitSize := Converter.unitSize gridPartitioning in
  let gap := Converter.gap gridPartitioning in
  let gridSizeInUnits := Converter.gridSizeInUnits gridPartitioning in
  let topLeft := Converter.topLeft sketchContext gridPartitioning in
  let totalGridBounds := Converter.totalGridBounds gridPartitioning in
  exists rects,
    Converter.convertGridLinesToRects sketchContext gridPartitioning
      lines lineProps = Some rects
    /\ List.length rects = List.length lines
    /\ (forall (i : nat) (l : Line),
           nth_error lines i = Some l ->
           exists p r,
             nth_error lineProps i = Some p
             /\ nth_error rects i = Some r
             /\ fst (fst r)
                = fst topLeft + fst (fst l) * (fst unitSize + gap)
             /\ snd (fst r)
                = snd topLeft + snd (fst l) * (snd unitSize + gap)
             /\ fst (snd r)
                == fst topLeft
                   + (fst (snd l) * (fst unitSize + gap)
                      + (fst (Converter.gitterRatio p) * (fst unitSize + gap)
                         - gap))
             /\ snd (snd r)
                == snd topLeft
                   + (snd (snd l) * (snd unitSize + gap)
                      + (snd (Converter.gitterRatio p) * (snd unitSize + gap)
                         - gap)))
    /\ totalGridBounds
       = (fst unitSize * fst gridSizeInUnits
          + gap * (fst gridSizeInUnits - 1),
          snd unitSize * snd gridSizeInUnits
          + gap * (snd gridSizeInUnits - 1))
    /\ fst topLeft + fst totalGridBounds + fst topLeft
       == Converter.width sketchContext
    /\ snd topLeft + snd totalGridBounds + snd topLeft
       == Converter.height sketchContext.
Proof.
  intros Hlen unitSize gap gridSizeInUnits topLeft totalGridBounds.
  destruct (scaleLinesFrom_spec gridPartitioning lines lineProps 0%nat)
    as (rs & Hrs & Hlen' & Hnth); [simpl; lia|].
  unfold Converter.convertGridLinesToRects. rewrite Hrs.
  eexists. split; [reflexivity|].
  split; [rewrite length_map; exact Hlen'|].
  split; [|split; [reflexivity|]].
  - intros i l Hl. destruct (Hnth i l Hl) as (p & Hp & Hr).
    exists p. eexists. split; [exact Hp|].
    split; [apply map_nth_error; exact Hr|].
    unfold Converter.translateRect, Converter.scaleLine. cbn [fst snd].
    repeat split; try reflexivity;
      unfold topLeft, unitSize, gap; ring.
  - unfold topLeft, totalGridBounds, Converter.topLeft. cbn [fst snd].
    split; field.
Qed.

(** C1, as amended: when every cut coordinate drawn for a region lies
    inside that region, the partitioner returns on every grid bound
    [[0,0]..[w-1,h-1]] (with fuel for [w + h] nested calls), its lines tile
    the grid, and with a jitter ratio of one on every line the rectangles of
    the converter tile the scaled grid bound: they lie inside it, no point
    is in two of them, and every point of a unit cell is in one, so that
    only the gaps between cells are left uncovered. *)
Theorem partition_rects_tile
    (Rng : Type) (rand : Rng -> Q * Rng) (random : Z -> Z -> Rng -> Z * Rng)
    (sketchContext : Converter.SketchContext)
    (gridPartitioning : Converter.GridPartitioning)
    (w h : Z) (vertOrHorzRatio : Q) (g : Rng) (fuel : nat) :
  (forall (lo hi : Z) (g : Rng),
      (lo - 1 <= hi)%Z -> (lo - 1 <= fst (random lo hi g) <= hi)%Z) ->
  (1 <= w)%Z -> (1 <= h)%Z ->
  fst (Converter.gridSizeInUnits gridPartitioning) == inject_Z w ->
  snd (Converter.gridSizeInUnits gridPartitioning) == inject_Z h ->
  0 < fst (Converter.unitSize gridPartitioning) ->
  0 < snd (Converter.unitSize gridPartitioning) ->
  0 <= Converter.gap gridPartitioning ->
  (Z.to_nat (w + h) <= fuel)%nat ->
  exists lines g',
    Grid.generateGridPartitioningInGridUnits Rng rand random fuel
      (0, 0)%Z (w - 1, h - 1)%Z vertOrHorzRatio g = Some (lines, g')
    /\ Grid.tilesRegion (0, 0)%Z (w - 1, h - 1)%Z lines
    /\ forall lineProps : list Converter.LineProps,
         List.length lineProps = List.length lines ->
         Forall (fun p => fst (Converter.gitterRatio p) == 1
                          /\ snd (Converter.gitterRatio p) == 1) lineProps ->
         exists rects,
           Converter.convertGridLinesToRects sketchContext gridPartitioning
             (map Grid.lineOfGrid lines) lineProps = Some rects
           /\ Converter.tilesScaledBound sketchContext gridPartitioning
                w h rects.
Proof.
  intros Hcut Hw Hh Hgw Hgh Hu0 Hu1 Hg Hfuel.
  destruct (generate_tiles Rng rand random Hcut fuel (0, 0)%Z
              (w - 1, h - 1)%Z vertOrHorzRatio g)
    as (lines & g' & Hgen & Htiles); [simpl; lia | simpl; lia | simpl; lia |].
  exists lines, g'. split; [exact Hgen|]. split; [exact Htiles|].
  intros lineProps Hlen Hjit.
  destruct (convert_grid_lines sketchContext gridPartitioning lines lineProps)
    as (rects & Hconv & Hall); [lia|].
  exists rects. split; [exact Hconv|].
  set (R := fun (l : Grid.GridLine) (r : Rect) =>
              exists p,
                (fst (Converter.gitterRatio p) == 1
                 /\ snd (Converter.gitterRatio p) == 1)
                /\ r = Converter.translateRect sketchContext gridPartitioning
                         (Converter.scaleLine gridPartitioning
                            (Grid.lineOfGrid l) p)).
  assert (HR : Forall2 R lines rects).
  { eapply Forall2_impl; [|exact Hall].
    intros l r (p & Hin & ->). exists p. split; [|reflexivity].
    rewrite Forall_forall in Hjit. apply Hjit. exact Hin. }
  split; [|split].
  - destruct Htiles as [Hwithin _].
    clear -HR Hwithin Hgw Hgh Hu0 Hu1 Hg.
    induction HR as [|l r ls rs (p & [Hjx Hjy] & ->) _ IH];
      [constructor|].
    inversion Hwithin; subst.
    constructor; [|apply IH; assumption].
    apply (rect_in_bound sketchContext gridPartitioning Hu0 Hu1 Hg p
             Hjx Hjy w h); assumption.
  - intro pt.
    apply Nat.le_trans with
      (Grid.coverCount lines
         (Converter.cellOf sketchContext gridPartitioning pt)).
    + apply (rectCount_le R); [exact HR|].
      intros l r (p & [Hjx Hjy] & ->).
      apply (inRect_cellOf sketchContext gridPartitioning Hu0 Hu1 Hg p
               Hjx Hjy).
    + rewrite (tilesRegion_count _ _ _ _ Htiles).
      destruct (Grid.inRegionb _ _ _); lia.
  - intros c pt Hc Hcell.
    rewrite (rectCount_eq R lines rects pt c HR).
    + apply (proj2 Htiles). exact Hc.
    + intros l r (p & [Hjx Hjy] & ->).
      apply (inRect_unit_cell sketchContext gridPartitioning Hu0 Hu1 Hg p
               Hjx Hjy). exact Hcell.
Qed.

(** ** Double precision on whole numbers

    The doubles that hold the integers of magnitude below [2^53] are
    closed under the operations the timeline applies to whole numbers of
    ticks: sums, differences, products, remainders and comparisons are those
    of the integers, without rounding. *)

Module Binary64Facts.

Import Binary64.
Local Open Scope Z_scope.

(** The number of binary digits of a mantissa. *)
Lemma digits2_size (p : positive) : digits2_pos p = Pos.size p.
Proof. induction p; simpl; congruence. Qed.

Lemma digits_bounds (p : positive) :
  2 ^ (Zpos (digits2_pos p) - 1) <= Zpos p < 2 ^ Zpos (digits2_pos p).
Proof.
  rewrite digits2_size. split.
  - pose proof (Pos.size_le p) as H.
    assert (Hp : (2 ^ Zpos (Pos.size p) <= 2 * Zpos p)).
    { rewrite <- Pos2Z.inj_pow. change (2 * Zpos p) with (Zpos p~0). exact H. }
    replace (Zpos (Pos.size p)) with (Z.succ (Zpos (Pos.size p) - 1)) in Hp by lia.
    rewrite Z.pow_succ_r in Hp by lia. lia.
  - pose proof (Pos.size_gt p) as H.
    rewrite <- Pos2Z.inj_pow. exact H.
Qed.

Lemma digits_unique (p : positive) (n : Z) :
  2 ^ (n - 1) <= Zpos p < 2 ^ n -> Zpos (digits2_pos p) = n.
Proof.
  intros [Hlo Hhi]. pose proof (digits_bounds p) as [Dlo Dhi].
  set (d := Zpos (digits2_pos p)) in *.
  assert (Hd : 0 < d) by (unfold d; lia).
  destruct (Z.lt_trichotomy d n) as [Hlt | [Heq | Hgt]]; [|exact Heq|].
  - exfalso. assert (2 ^ d <= 2 ^ (n - 1)) by (apply Z.pow_le_mono_r; lia). lia.
  - exfalso.
    assert (Hn : 0 <= n \/ n < 0) by lia. destruct Hn as [Hn|Hn].
    + assert (2 ^ n <= 2 ^ (d - 1)) by (apply Z.pow_le_mono_r; lia). lia.
    + rewrite (Z.pow_neg_r 2 n) in Hhi by lia. lia.
Qed.

(** Shifting out zero bits loses nothing. *)
Lemma shr_1_double (m : Z) :
  shr_1 {| shr_m := 2 * m; shr_r := false; shr_s := false |}
  = {| shr_m := m; shr_r := false; shr_s := false |}.
Proof. destruct m; reflexivity. Qed.

Lemma pow2_xI (n : positive) (m : Z) :
  m * 2 ^ Zpos n~1 = 2 * ((m * 2 ^ Zpos n) * 2 ^ Zpos n).
Proof.
  assert (E : Zpos n~1 = Zpos n + Zpos n + 1) by lia.
  rewrite E, !Z.pow_add_r, Z.pow_1_r by lia. ring.
Qed.

Lemma pow2_xO (n : positive) (m : Z) :
  m * 2 ^ Zpos n~0 = (m * 2 ^ Zpos n) * 2 ^ Zpos n.
Proof.
  assert (E : Zpos n~0 = Zpos n + Zpos n) by lia.
  rewrite E, Z.pow_add_r by lia. ring.
Qed.

Lemma shr_iter (n : positive) : forall m : Z,
  iter_pos shr_1 n {| shr_m := m * 2 ^ Zpos n; shr_r := false; shr_s := false |}
  = {| shr_m := m; shr_r := false; shr_s := false |}.
Proof.
  induction n as [n IH | n IH |]; intro m.
  - rewrite pow2_xI. cbn [iter_pos].
    rewrite shr_1_double, IH, IH. reflexivity.
  - rewrite pow2_xO. cbn [iter_pos]. rewrite IH, IH. reflexivity.
  - rewrite Z.pow_1_r, Z.mul_comm. apply shr_1_double.
Qed.

Lemma iter_xO (q p : positive) : Zpos (Pos.iter xO p q) = Zpos p * 2 ^ Zpos q.
Proof.
  revert p. induction q using Pos.peano_ind; intro p.
  - cbn [Pos.iter]. rewrite Z.pow_1_r. lia.
  - rewrite Pos.iter_succ, Pos2Z.inj_succ, Z.pow_succ_r by lia.
    change (Zpos (Pos.iter xO p q)~0) with (2 * Zpos (Pos.iter xO p q)).
    rewrite IHq. ring.
Qed.

Lemma pow2_pos (k : Z) : 0 <= k -> 0 < 2 ^ k.
Proof. intro. apply Z.pow_pos_nonneg; lia. Qed.

(** The mantissa [mant p] is [p] shifted to 53 digits. *)
Lemma digits_shift (p : positive) (k : Z) :
  0 <= k ->
  Zpos (digits2_pos (Z.to_pos (Zpos p * 2 ^ k))) = Zpos (digits2_pos p) + k.
Proof.
  intro Hk. apply digits_unique.
  pose proof (digits_bounds p) as [Hlo Hhi].
  pose proof (pow2_pos k Hk) as Hpk.
  rewrite Z2Pos.id by lia.
  replace (Zpos (digits2_pos p) + k - 1) with (Zpos (digits2_pos p) - 1 + k) by lia.
  rewrite !Z.pow_add_r by lia. split; nia.
Qed.

(** Rounding a mantissa whose low bits are zero only shifts it. *)
Lemma shr_fexp_shift (p : positive) (k : Z) :
  0 <= k -> Zpos (digits2_pos p) <= 53 ->
  53 <= Zpos (digits2_pos p) + k ->
  shr_fexp prec emax (Zpos (Z.to_pos (Zpos p * 2 ^ k))) (- k) loc_Exact
  = ({| shr_m := Zpos (mant p); shr_r := false; shr_s := false |},
     Zpos (digits2_pos p) - 53).
Proof.
  intros Hk Hd Hdk.
  set (d := Zpos (digits2_pos p)) in *.
  assert (Hd1 : 1 <= d) by (unfold d; lia).
  pose proof (pow2_pos k Hk) as Hpk.
  set (n := d + k - 53).
  assert (Hn : 0 <= n) by (unfold n; lia).
  assert (Hm : Zpos p * 2 ^ k = Zpos (mant p) * 2 ^ n).
  { unfold mant. fold d. rewrite Z2Pos.id by (pose proof (pow2_pos (53 - d)); nia).
    rewrite <- Z.mul_assoc, <- Z.pow_add_r by lia. f_equal. f_equal. unfold n. lia. }
  unfold shr_fexp, fexp, emin, prec, emax.
  cbn [Zdigits2 shr_record_of_loc].
  rewrite digits_shift by lia. fold d.
  replace (Z.max (d + k + - k - 53) (3 - 1024 - 53) - - k) with n by (unfold n; lia).
  rewrite Z2Pos.id by lia. rewrite Hm.
  destruct n as [|n'|n'] eqn:En; [| |lia].
  - cbn [shr]. rewrite Z.pow_0_r, Z.mul_1_r. f_equal. lia.
  - cbn [shr]. rewrite shr_iter. f_equal. lia.
Qed.

Lemma mant_digits (p : positive) :
  Zpos (digits2_pos p) <= 53 -> Zpos (digits2_pos (mant p)) = 53.
Proof.
  intro Hd. unfold mant. rewrite digits_shift by lia. lia.
Qed.

Lemma shr_fexp_id (p : positive) :
  Zpos (digits2_pos p) <= 53 ->
  shr_fexp prec emax (Zpos (mant p)) (Zpos (digits2_pos p) - 53) loc_Exact
  = ({| shr_m := Zpos (mant p); shr_r := false; shr_s := false |},
     Zpos (digits2_pos p) - 53).
Proof.
  intro Hd. unfold shr_fexp, fexp, emin, prec, emax.
  cbn [Zdigits2 shr_record_of_loc]. rewrite (mant_digits p Hd).
  replace (Z.max (53 + (Zpos (digits2_pos p) - 53) - 53) (3 - 1024 - 53)
           - (Zpos (digits2_pos p) - 53)) with 0 by lia.
  reflexivity.
Qed.

Lemma round_aux_shift (s : bool) (p : positive) (k : Z) :
  0 <= k -> Zpos (digits2_pos p) <= 53 ->
  53 <= Zpos (digits2_pos p) + k ->
  binary_round_aux prec emax s (Zpos (Z.to_pos (Zpos p * 2 ^ k))) (- k) loc_Exact
  = canon s p.
Proof.
  intros Hk Hd Hdk. unfold binary_round_aux.
  rewrite (shr_fexp_shift p k Hk Hd Hdk).
  cbn [shr_m shr_r shr_s loc_of_shr_record round_nearest_even].
  rewrite (shr_fexp_id p Hd). cbn [shr_m].
  unfold prec, emax.
  replace (Zpos (digits2_pos p) - 53 <=? 1024 - 53) with true
    by (symmetry; apply Z.leb_le; lia).
  reflexivity.
Qed.

(** An integer below [2^53], scaled by a power of two, is rounded to the
    double that holds it. *)
Lemma binary_round_exact (s : bool) (p : positive) (k : Z) :
  0 <= k -> Zpos (digits2_pos p) <= 53 ->
  binary_round prec emax s (Z.to_pos (Zpos p * 2 ^ k)) (- k) = canon s p.
Proof.
  intros Hk Hd.
  set (d := Zpos (digits2_pos p)) in *.
  assert (Hd1 : 1 <= d) by (unfold d; lia).
  pose proof (pow2_pos k Hk) as Hpk.
  unfold binary_round, fexp, emin, prec, emax.
  rewrite digits_shift by lia. fold d.
  replace (Z.max (d + k + - k - 53) (3 - 1024 - 53)) with (d - 53) by lia.
  unfold shl_align.
  destruct (d - 53 - - k) as [|q|q] eqn:Eq.
  - apply round_aux_shift; lia.
  - apply round_aux_shift; lia.
  - (* the mantissa is shifted left to 53 digits *)
    assert (Hq : Zpos q = 53 - d - k) by lia.
    assert (E : Pos.iter xO (Z.to_pos (Zpos p * 2 ^ k)) q = mant p).
    { apply Pos2Z.inj. rewrite iter_xO, Z2Pos.id by lia.
      unfold mant. fold d.
      rewrite Z2Pos.id by (pose proof (pow2_pos (53 - d)); nia).
      rewrite <- Z.mul_assoc, <- Z.pow_add_r by lia. f_equal. f_equal. lia. }
    rewrite E.
    pose proof (round_aux_shift s p (53 - d)) as R. fold d in R.
    replace (- (53 - d)) with (d - 53) in R by lia.
    unfold mant. fold d. apply R; lia.
Qed.

Lemma ofZ_pos (p : positive) :
  Zpos (digits2_pos p) <= 53 -> ofZ (Zpos p) = canon false p.
Proof.
  intro Hd. unfold ofZ, binary_normalize.
  pose proof (binary_round_exact false p 0) as R.
  rewrite Z.pow_0_r, Z.mul_1_r, Pos2Z.id in R. apply R; lia.
Qed.

Lemma ofZ_neg (p : positive) :
  Zpos (digits2_pos p) <= 53 -> ofZ (Zneg p) = canon true p.
Proof.
  intro Hd. unfold ofZ, binary_normalize.
  pose proof (binary_round_exact true p 0) as R.
  rewrite Z.pow_0_r, Z.mul_1_r, Pos2Z.id in R. apply R; lia.
Qed.

(** [binary_normalize] of a scaled integer *)
Lemma normalize_exact (z k : Z) :
  0 <= k -> Z.abs z < 2 ^ 53 ->
  binary_normalize prec emax (z * 2 ^ k) (- k) false = ofZ z.
Proof.
  intros Hk Hz. pose proof (pow2_pos k Hk) as Hpk.
  destruct z as [|p|p].
  - reflexivity.
  - assert (Hd : Zpos (digits2_pos p) <= 53).
    { pose proof (digits_bounds p) as [Hlo _].
      destruct (Z.le_gt_cases (Zpos (digits2_pos p)) 53); [assumption|].
      exfalso. assert (2 ^ 53 <= 2 ^ (Zpos (digits2_pos p) - 1))
        by (apply Z.pow_le_mono_r; lia). lia. }
    rewrite (ofZ_pos p Hd).
    destruct (Zpos p * 2 ^ k) as [|q|q] eqn:E; [nia| |nia].
    unfold binary_normalize. rewrite <- (binary_round_exact false p k Hk Hd).
    rewrite E. reflexivity.
  - assert (Hd : Zpos (digits2_pos p) <= 53).
    { pose proof (digits_bounds p) as [Hlo _].
      destruct (Z.le_gt_cases (Zpos (digits2_pos p)) 53); [assumption|].
      exfalso. assert (2 ^ 53 <= 2 ^ (Zpos (digits2_pos p) - 1))
        by (apply Z.pow_le_mono_r; lia). lia. }
    rewrite (ofZ_neg p Hd).
    destruct (Zneg p * 2 ^ k) as [|q|q] eqn:E; [nia|nia|].
    unfold binary_normalize. rewrite <- (binary_round_exact true p k Hk Hd).
    f_equal. assert (Zpos q = Zpos p * 2 ^ k) by lia.
    rewrite <- H. reflexivity.
Qed.

Lemma digits_le_53 (p : positive) : Zpos p < 2 ^ 53 -> Zpos (digits2_pos p) <= 53.
Proof.
  intro H. pose proof (digits_bounds p) as [Hlo _].
  destruct (Z.le_gt_cases (Zpos (digits2_pos p)) 53); [assumption|].
  exfalso. assert (2 ^ 53 <= 2 ^ (Zpos (digits2_pos p) - 1))
    by (apply Z.pow_le_mono_r; lia). lia.
Qed.

(** The double of a non-zero integer below [2^53]. *)
Lemma ofZ_canon (z : Z) :
  z <> 0 -> Z.abs z < 2 ^ 53 ->
  ofZ z = canon (z <? 0) (Z.to_pos (Z.abs z)).
Proof.
  intros Hz Hb. destruct z as [|p|p]; [congruence| |].
  - apply ofZ_pos. apply digits_le_53. exact Hb.
  - apply ofZ_neg. apply digits_le_53. exact Hb.
Qed.

Lemma align_mant (p : positive) (e : Z) :
  Zpos (digits2_pos p) <= 53 -> e <= Zpos (digits2_pos p) - 53 ->
  Zpos (fst (shl_align (mant p) (Zpos (digits2_pos p) - 53) e))
  = Zpos p * 2 ^ (- e).
Proof.
  intros Hd He. set (d := Zpos (digits2_pos p)) in *.
  assert (Hd1 : 1 <= d) by (unfold d; lia).
  assert (Hm : Zpos (mant p) = Zpos p * 2 ^ (53 - d)).
  { unfold mant. fold d. rewrite Z2Pos.id; [reflexivity|].
    pose proof (pow2_pos (53 - d)). nia. }
  unfold shl_align. destruct (e - (d - 53)) as [|q|q] eqn:E; cbn [fst].
  - rewrite Hm. f_equal. f_equal. lia.
  - lia.
  - rewrite iter_xO, Hm, <- Z.mul_assoc, <- Z.pow_add_r by lia.
    f_equal. f_equal. lia.
Qed.

Lemma cond_Zopp_scaled (z k : Z) :
  z <> 0 ->
  cond_Zopp (z <? 0) (Zpos (Z.to_pos (Z.abs z)) * 2 ^ k) = z * 2 ^ k.
Proof.
  intro Hz. rewrite Z2Pos.id by lia.
  destruct (z <? 0) eqn:E; unfold cond_Zopp.
  - apply Z.ltb_lt in E. rewrite Z.abs_neq by lia. ring.
  - apply Z.ltb_ge in E. rewrite Z.abs_eq by lia. ring.
Qed.

Lemma digits_of (z : Z) :
  z <> 0 -> Z.abs z < 2 ^ 53 ->
  1 <= Zpos (digits2_pos (Z.to_pos (Z.abs z))) <= 53.
Proof.
  intros Hz Hb. split; [lia|].
  apply digits_le_53. rewrite Z2Pos.id by lia. exact Hb.
Qed.

(** Sums and differences of whole numbers are exact. *)
Lemma add_ofZ (a b : Z) :
  Z.abs a < 2 ^ 53 -> Z.abs b < 2 ^ 53 -> Z.abs (a + b) < 2 ^ 53 ->
  add (ofZ a) (ofZ b) = ofZ (a + b).
Proof.
  intros Ha Hb Hab.
  destruct (Z.eq_dec a 0) as [->|Ha0].
  { destruct (Z.eq_dec b 0) as [->|Hb0]; [reflexivity|].
    rewrite Z.add_0_l, (ofZ_canon b Hb0 Hb). reflexivity. }
  destruct (Z.eq_dec b 0) as [->|Hb0].
  { rewrite Z.add_0_r, (ofZ_canon a Ha0 Ha). reflexivity. }
  rewrite (ofZ_canon a Ha0 Ha), (ofZ_canon b Hb0 Hb).
  pose proof (digits_of a Ha0 Ha) as Da. pose proof (digits_of b Hb0 Hb) as Db.
  unfold add, SFadd, canon.
  set (ez := Z.min _ _).
  rewrite (align_mant _ ez), (align_mant _ ez) by (unfold ez; lia).
  rewrite !cond_Zopp_scaled by assumption.
  rewrite <- Z.mul_add_distr_r.
  pose proof (normalize_exact (a + b) (- ez)) as N.
  rewrite Z.opp_involutive in N. apply N; [unfold ez; lia | exact Hab].
Qed.

Lemma sub_ofZ (a b : Z) :
  Z.abs a < 2 ^ 53 -> Z.abs b < 2 ^ 53 -> Z.abs (a - b) < 2 ^ 53 ->
  sub (ofZ a) (ofZ b) = ofZ (a - b).
Proof.
  intros Ha Hb Hab.
  destruct (Z.eq_dec a 0) as [->|Ha0].
  { destruct (Z.eq_dec b 0) as [->|Hb0]; [reflexivity|].
    rewrite Z.sub_0_l, (ofZ_canon b Hb0 Hb).
    rewrite (ofZ_canon (- b)) by lia.
    unfold sub, SFsub, canon. change (ofZ 0) with (S754_zero false). cbn iota.
    rewrite Z.abs_opp. f_equal.
    destruct (Z.ltb_spec b 0), (Z.ltb_spec (- b) 0); try reflexivity; lia. }
  destruct (Z.eq_dec b 0) as [->|Hb0].
  { rewrite Z.sub_0_r, (ofZ_canon a Ha0 Ha). reflexivity. }
  rewrite (ofZ_canon a Ha0 Ha), (ofZ_canon b Hb0 Hb).
  pose proof (digits_of a Ha0 Ha) as Da. pose proof (digits_of b Hb0 Hb) as Db.
  unfold sub, SFsub, canon.
  set (ez := Z.min _ _).
  rewrite (align_mant _ ez), (align_mant _ ez) by (unfold ez; lia).
  rewrite !cond_Zopp_scaled by assumption.
  rewrite <- Z.mul_sub_distr_r.
  pose proof (normalize_exact (a - b) (- ez)) as N.
  rewrite Z.opp_involutive in N. apply N; [unfold ez; lia | exact Hab].
Qed.

Lemma mant_value (p : positive) :
  Zpos (digits2_pos p) <= 53 ->
  Zpos (mant p) = Zpos p * 2 ^ (53 - Zpos (digits2_pos p)).
Proof.
  intro Hd. unfold mant. rewrite Z2Pos.id; [reflexivity|].
  pose proof (pow2_pos (53 - Zpos (digits2_pos p))). nia.
Qed.

(** The order of the doubles of two whole numbers is the order of the
    numbers. *)
Lemma compare_canon_pos (p q : positive) :
  Zpos (digits2_pos p) <= 53 -> Zpos (digits2_pos q) <= 53 ->
  match Zpos (digits2_pos p) - 53 ?= Zpos (digits2_pos q) - 53 with
  | Lt => Lt
  | Gt => Gt
  | Eq => Pos.compare_cont Eq (mant p) (mant q)
  end = (Zpos p ?= Zpos q).
Proof.
  intros Hp Hq.
  pose proof (digits_bounds p) as [Plo Phi].
  pose proof (digits_bounds q) as [Qlo Qhi].
  set (dp := Zpos (digits2_pos p)) in *. set (dq := Zpos (digits2_pos q)) in *.
  destruct (Z.compare_spec (dp - 53) (dq - 53)) as [E|E|E].
  - assert (C : (Zpos (mant p) ?= Zpos (mant q)) = (Zpos p ?= Zpos q)).
    { rewrite !mant_value by assumption. fold dp dq.
      replace dq with dp by lia.
      symmetry. apply Zmult_compare_compat_r.
      pose proof (pow2_pos (53 - dp)). lia. }
    exact C.
  - symmetry. apply Z.compare_lt_iff.
    assert (2 ^ dp <= 2 ^ (dq - 1)) by (apply Z.pow_le_mono_r; lia). lia.
  - symmetry. apply Z.compare_gt_iff.
    assert (2 ^ dq <= 2 ^ (dp - 1)) by (apply Z.pow_le_mono_r; lia). lia.
Qed.

Lemma compare_ofZ (a b : Z) :
  Z.abs a < 2 ^ 53 -> Z.abs b < 2 ^ 53 ->
  SFcompare (ofZ a) (ofZ b) = Some (a ?= b).
Proof.
  intros Ha Hb.
  destruct (Z.eq_dec a 0) as [->|Ha0].
  { destruct (Z.eq_dec b 0) as [->|Hb0]; [reflexivity|].
    rewrite (ofZ_canon b Hb0 Hb). change (ofZ 0) with (S754_zero false).
    unfold canon, SFcompare. f_equal.
    destruct (Z.ltb_spec b 0); symmetry;
      [apply Z.compare_gt_iff | apply Z.compare_lt_iff]; lia. }
  destruct (Z.eq_dec b 0) as [->|Hb0].
  { rewrite (ofZ_canon a Ha0 Ha). change (ofZ 0) with (S754_zero false).
    unfold canon, SFcompare. f_equal.
    destruct (Z.ltb_spec a 0); symmetry;
      [apply Z.compare_lt_iff | apply Z.compare_gt_iff]; lia. }
  rewrite (ofZ_canon a Ha0 Ha), (ofZ_canon b Hb0 Hb).
  pose proof (digits_of a Ha0 Ha) as Da. pose proof (digits_of b Hb0 Hb) as Db.
  unfold canon, SFcompare. f_equal.
  destruct (Z.ltb_spec a 0) as [An|Ap], (Z.ltb_spec b 0) as [Bn|Bp].
  - (* both negative *)
    destruct (Z.compare_spec (Zpos (digits2_pos (Z.to_pos (Z.abs a))) - 53)
                (Zpos (digits2_pos (Z.to_pos (Z.abs b))) - 53)) as [E|E|E].
    + pose proof (compare_canon_pos (Z.to_pos (Z.abs a)) (Z.to_pos (Z.abs b))
                    ltac:(lia) ltac:(lia)) as C.
      rewrite E, Z.compare_refl in C. rewrite C.
      rewrite !Z2Pos.id by lia. rewrite !Z.abs_neq by lia.
      rewrite Z.compare_opp. rewrite <- Z.compare_antisym. reflexivity.
    + pose proof (compare_canon_pos (Z.to_pos (Z.abs a)) (Z.to_pos (Z.abs b))
                    ltac:(lia) ltac:(lia)) as C.
      rewrite (proj2 (Z.compare_lt_iff _ _) E) in C.
      symmetry in C. rewrite !Z2Pos.id in C by lia.
      change (Z.abs a < Z.abs b) in C.
      symmetry. apply Z.compare_gt_iff. lia.
    + pose proof (compare_canon_pos (Z.to_pos (Z.abs a)) (Z.to_pos (Z.abs b))
                    ltac:(lia) ltac:(lia)) as C.
      rewrite (proj2 (Z.compare_gt_iff _ _) E) in C.
      symmetry in C. rewrite !Z2Pos.id in C by lia.
      change (Z.abs a > Z.abs b) in C.
      symmetry. apply Z.compare_lt_iff. lia.
  - symmetry. apply Z.compare_lt_iff. lia.
  - symmetry. apply Z.compare_gt_iff. lia.
  - rewrite compare_canon_pos by lia.
    rewrite !Z2Pos.id by lia. rewrite !Z.abs_eq by lia. reflexivity.
Qed.

Lemma ltb_ofZ (a b : Z) :
  Z.abs a < 2 ^ 53 -> Z.abs b < 2 ^ 53 -> SFltb (ofZ a) (ofZ b) = (a <? b).
Proof.
  intros Ha Hb. unfold SFltb. rewrite compare_ofZ by assumption.
  unfold Z.ltb. destruct (a ?= b); reflexivity.
Qed.

Lemma leb_ofZ (a b : Z) :
  Z.abs a < 2 ^ 53 -> Z.abs b < 2 ^ 53 -> SFleb (ofZ a) (ofZ b) = (a <=? b).
Proof.
  intros Ha Hb. unfold SFleb. rewrite compare_ofZ by assumption.
  unfold Z.leb. destruct (a ?= b); reflexivity.
Qed.

Lemma eqb_ofZ (a b : Z) :
  Z.abs a < 2 ^ 53 -> Z.abs b < 2 ^ 53 -> SFeqb (ofZ a) (ofZ b) = (a =? b).
Proof.
  intros Ha Hb. unfold SFeqb. rewrite compare_ofZ by assumption.
  destruct (Z.compare_spec a b) as [E|E|E].
  - symmetry. apply Z.eqb_eq. exact E.
  - symmetry. apply Z.eqb_neq. lia.
  - symmetry. apply Z.eqb_neq. lia.
Qed.


Lemma digits_mul_lower (p q : positive) :
  Zpos (digits2_pos p) + Zpos (digits2_pos q) - 1
  <= Zpos (digits2_pos (p * q)).
Proof.
  pose proof (digits_bounds p) as [Plo Phi].
  pose proof (digits_bounds q) as [Qlo Qhi].
  pose proof (digits_bounds (p * q)) as [_ Rhi].
  set (dp := Zpos (digits2_pos p)) in *. set (dq := Zpos (digits2_pos q)) in *.
  set (dr := Zpos (digits2_pos (p * q))) in *.
  assert (1 <= dp) by (unfold dp; lia). assert (1 <= dq) by (unfold dq; lia).
  assert (1 <= dr) by (unfold dr; lia).
  destruct (Z.le_gt_cases (dp + dq - 1) dr) as [|Hlt]; [assumption|exfalso].
  assert (2 ^ dr <= 2 ^ (dp - 1 + (dq - 1))) by (apply Z.pow_le_mono_r; lia).
  rewrite Z.pow_add_r in H2 by lia.
  rewrite Pos2Z.inj_mul in Rhi.
  assert (0 < 2 ^ (dp - 1)) by (apply pow2_pos; lia).
  assert (0 < 2 ^ (dq - 1)) by (apply pow2_pos; lia).
  nia.
Qed.

Lemma mul_ofZ (a b : Z) :
  a <> 0 -> b <> 0 ->
  Z.abs a < 2 ^ 53 -> Z.abs b < 2 ^ 53 -> Z.abs (a * b) < 2 ^ 53 ->
  mul (ofZ a) (ofZ b) = ofZ (a * b).
Proof.
  intros Ha0 Hb0 Ha Hb Hab.
  rewrite (ofZ_canon a Ha0 Ha), (ofZ_canon b Hb0 Hb), (ofZ_canon (a * b)) by nia.
  pose proof (digits_of a Ha0 Ha) as Da. pose proof (digits_of b Hb0 Hb) as Db.
  set (pa := Z.to_pos (Z.abs a)) in *. set (pb := Z.to_pos (Z.abs b)) in *.
  assert (Epab : Z.to_pos (Z.abs (a * b)) = (pa * pb)%positive).
  { unfold pa, pb. rewrite Z.abs_mul, Z2Pos.inj_mul by lia. reflexivity. }
  rewrite Epab.
  assert (Dab : Zpos (digits2_pos (pa * pb)) <= 53).
  { apply digits_le_53. rewrite <- Epab, Z2Pos.id by nia. exact Hab. }
  pose proof (digits_mul_lower pa pb) as Dlow.
  unfold mul, SFmul, canon.
  set (da := Zpos (digits2_pos pa)) in *. set (db := Zpos (digits2_pos pb)) in *.
  pose proof (round_aux_shift (xorb (a <? 0) (b <? 0)) (pa * pb) (106 - da - db)) as R.
  replace (- (106 - da - db)) with (da - 53 + (db - 53)) in R by lia.
  assert (Em : Zpos (mant pa * mant pb)
               = Zpos (Z.to_pos (Zpos (pa * pb) * 2 ^ (106 - da - db)))).
  { rewrite Pos2Z.inj_mul, !mant_value by lia. fold da db.
    assert (0 < 2 ^ (106 - da - db)) by (apply pow2_pos; lia).
    rewrite Z2Pos.id by nia.
    replace (106 - da - db) with ((53 - da) + (53 - db)) by lia.
    rewrite Z.pow_add_r, Pos2Z.inj_mul by lia. ring. }
  rewrite Em, R by lia.
  unfold canon. f_equal.
  destruct (Z.ltb_spec a 0), (Z.ltb_spec b 0), (Z.ltb_spec (a * b) 0);
    try reflexivity; nia.
Qed.

Lemma mul_ofZ_zero_r (a : Z) :
  Z.abs a < 2 ^ 53 -> mul (ofZ a) (ofZ 0) = S754_zero (a <? 0).
Proof.
  intro Ha. destruct (Z.eq_dec a 0) as [->|Ha0]; [reflexivity|].
  rewrite (ofZ_canon a Ha0 Ha). unfold canon. change (ofZ 0) with (S754_zero false).
  unfold mul, SFmul. rewrite xorb_false_r. reflexivity.
Qed.

Lemma add_zero_r (a : Z) (s : bool) :
  Z.abs a < 2 ^ 53 -> add (ofZ a) (S754_zero s) = ofZ a.
Proof.
  intro Ha. destruct (Z.eq_dec a 0) as [->|Ha0].
  - destruct s; reflexivity.
  - rewrite (ofZ_canon a Ha0 Ha). reflexivity.
Qed.

Lemma mul_ofZ_one_r (a : Z) :
  Z.abs a < 2 ^ 53 -> mul (ofZ a) (ofZ 1) = ofZ a.
Proof.
  intro Ha. destruct (Z.eq_dec a 0) as [->|Ha0]; [reflexivity|].
  rewrite mul_ofZ, Z.mul_1_r by lia. reflexivity.
Qed.

(** The remainder of whole numbers is the remainder of the integers. *)
Lemma rem_ofZ (t c : Z) :
  0 <= t < 2 ^ 53 -> 0 < c < 2 ^ 53 ->
  rem (ofZ t) (ofZ c) = ofZ (t mod c).
Proof.
  intros Ht Hc.
  destruct (Z.eq_dec t 0) as [->|Ht0].
  { rewrite Z.mod_0_l by lia. rewrite (ofZ_canon c) by lia. reflexivity. }
  rewrite (ofZ_canon t), (ofZ_canon c) by lia.
  pose proof (digits_of t ltac:(lia) ltac:(lia)) as Dt.
  pose proof (digits_of c ltac:(lia) ltac:(lia)) as Dc.
  replace (t <? 0) with false by (symmetry; apply Z.ltb_ge; lia).
  unfold rem, canon. cbv zeta.
  set (pt := Z.to_pos (Z.abs t)) in *. set (pc := Z.to_pos (Z.abs c)) in *.
  set (dt := Zpos (digits2_pos pt)) in *. set (dc := Zpos (digits2_pos pc)) in *.
  set (e := Z.min (dt - 53) (dc - 53)).
  assert (Et : Zpos (mant pt) * 2 ^ (dt - 53 - e) = t * 2 ^ (- e)).
  { rewrite mant_value by (fold dt; lia). fold dt.
    rewrite <- Z.mul_assoc, <- Z.pow_add_r by (unfold e; lia).
    unfold pt. rewrite Z2Pos.id, Z.abs_eq by lia. f_equal. f_equal. lia. }
  assert (Ec : Zpos (mant pc) * 2 ^ (dc - 53 - e) = c * 2 ^ (- e)).
  { rewrite mant_value by (fold dc; lia). fold dc.
    rewrite <- Z.mul_assoc, <- Z.pow_add_r by (unfold e; lia).
    unfold pc. rewrite Z2Pos.id, Z.abs_eq by lia. f_equal. f_equal. lia. }
  rewrite Et, Ec.
  assert (Hp : 0 < 2 ^ (- e)) by (apply pow2_pos; unfold e; lia).
  rewrite Z.rem_mod_nonneg by nia.
  rewrite Zmult_mod_distr_r.
  cbn [cond_Zopp].
  pose proof (normalize_exact (t mod c) (- e)) as N.
  rewrite Z.opp_involutive in N. apply N; [unfold e; lia|].
  pose proof (Z.mod_pos_bound t c ltac:(lia)). lia.
Qed.

Lemma rem_zero_divisor (a : number) : rem a (ofZ 0) = S754_nan.
Proof. destruct a; reflexivity. Qed.


End Binary64Facts.

(** *** The timeline engine on whole numbers of ticks *)

Section WholeTicks.

Import Binary64 Binary64Facts.
Local Open Scope Z_scope.

Variable easeOutElastic : number -> number.

Local Notation animateLine := (Timeline64.animateLine easeOutElastic).
Local Notation animateRatios := (Timeline64.animateRatios easeOutElastic).
Local Notation getAnimatedLinesWithAnimations :=
  (Timeline64.getAnimatedLinesWithAnimations easeOutElastic).

Lemma pow52_53 : 2 ^ 53 = 2 * 2 ^ 52.
Proof. reflexivity. Qed.

(** [NaN] fails every comparison. *)
Lemma lt_nan_l (x : number) : lt S754_nan x = false.
Proof. destruct x; reflexivity. Qed.

Lemma ge_nan_l (x : number) : ge S754_nan x = false.
Proof. destruct x; reflexivity. Qed.

(** With a start ratio of 0 and an end ratio of 1 a line with whole
    coordinates comes out as it is. *)
Lemma animateLine_open64 (l : Grid.GridLine) (ty : option Timeline.AnimateLineType)
    (p : number) :
  wholeLine l ->
  animateRatios ty p = (ofZ 0, ofZ 1) ->
  animateLine (lineOfGrid l) ty p = lineOfGrid l.
Proof.
  destruct l as [[l00 l01] [l10 l11]].
  intros [[H00 H01] [H10 H11]] Hr. cbn [fst snd] in *.
  pose proof pow52_53 as P.
  unfold Timeline64.animateLine, lineOfGrid. cbn [fst snd]. rewrite Hr.
  unfold strictEq.
  rewrite !sub_ofZ, !eqb_ofZ by (cbn [Z.abs]; lia).
  rewrite !mul_ofZ_zero_r, !add_zero_r, !mul_ofZ_one_r, !add_ofZ by lia.
  replace (l01 + (l11 - l01)) with l11 by lia.
  replace (l00 + (l10 - l00)) with l10 by lia.
  destruct (l10 - l00 =? 0); [reflexivity|].
  destruct (l11 - l01 =? 0); reflexivity.
Qed.

Lemma hold_open64 (lines : list Grid.GridLine) :
  Forall wholeLine lines ->
  map (fun l => animateLine l (Some Timeline.static) (ofZ 1)) (map lineOfGrid lines)
  = map lineOfGrid lines.
Proof.
  induction 1 as [|l ls Hl _ IH]; [reflexivity|].
  cbn [map]. rewrite IH, animateLine_open64; [reflexivity | exact Hl | reflexivity].
Qed.

(** A node whose delays and duration are whole numbers of ticks, at a whole
    tick: the comparisons of the source are comparisons of integers. *)
Lemma node_hold64 (anim : Timeline64.Animation) (s d e tick : Z)
    (lines : list Grid.GridLine) :
  Timeline64.startDelayInTicks anim = ofZ s ->
  Timeline64.durationInTicks anim = ofZ d ->
  Timeline64.endDelayInTicks anim = ofZ e ->
  0 <= s -> 0 <= d -> 0 <= e -> s + d + e < 2 ^ 53 ->
  0 <= tick < 2 ^ 53 ->
  Forall wholeLine lines ->
  s + d + e = 0
  \/ tick mod (s + d + e) < s
  \/ s + d <= tick mod (s + d + e) ->
  getAnimatedLinesWithAnimations anim (map lineOfGrid lines) (ofZ tick)
  = Some (map lineOfGrid lines).
Proof.
  intros Hs Hd He Hs0 Hd0 He0 Hc Ht Hl Hcase.
  destruct anim as [s' d' e' li ty subs]. cbn [Timeline64.startDelayInTicks
    Timeline64.durationInTicks Timeline64.endDelayInTicks] in *. subst s' d' e'.
  cbn [Timeline64.getAnimatedLinesWithAnimations Timeline64.startDelayInTicks
         Timeline64.durationInTicks Timeline64.endDelayInTicks Timeline64.type
         Timeline64.subAnimations].
  rewrite !add_ofZ by lia. rewrite sub_ofZ by lia.
  replace (s + d + e - e) with (s + d) by lia.
  rewrite (hold_open64 lines Hl).
  destruct (Z.eq_dec (s + d + e) 0) as [E0|E0].
  - rewrite E0, rem_zero_divisor, !lt_nan_l, !ge_nan_l. reflexivity.
  - pose proof (Z.mod_pos_bound tick (s + d + e) ltac:(lia)) as Hm.
    rewrite rem_ofZ by lia. unfold lt, ge.
    rewrite !ltb_ofZ, !leb_ofZ by lia.
    destruct Hcase as [H|[H|H]]; [lia| |].
    + replace (tick mod (s + d + e) <? s) with true
        by (symmetry; apply Z.ltb_lt; lia). reflexivity.
    + replace (tick mod (s + d + e) <? s) with false
        by (symmetry; apply Z.ltb_ge; lia).
      replace (tick mod (s + d + e) <? s + d) with false
        by (symmetry; apply Z.ltb_ge; lia).
      rewrite andb_false_r.
      replace (s + d <=? tick mod (s + d + e)) with true
        by (symmetry; apply Z.leb_le; lia). reflexivity.
Qed.




End WholeTicks.

(** *** The construction of the timeline on whole numbers of ticks *)

Section WholeTimeline.

Import Binary64 Binary64Facts.
Local Open Scope Z_scope.

(** [Math.max] on whole numbers. *)
Lemma max_ofZ (a b : Z) :
  Z.abs a < 2 ^ 53 -> Z.abs b < 2 ^ 53 -> max (ofZ a) (ofZ b) = ofZ (Z.max a b).
Proof.
  intros Ha Hb.
  assert (E : max (ofZ a) (ofZ b) = if SFltb (ofZ a) (ofZ b) then ofZ b else ofZ a).
  { destruct (Z.eq_dec a 0) as [->|Ha0]; destruct (Z.eq_dec b 0) as [->|Hb0];
      rewrite ?(ofZ_canon a), ?(ofZ_canon b) by assumption; reflexivity. }
  rewrite E, ltb_ofZ by assumption.
  destruct (Z.ltb_spec a b); f_equal; lia.
Qed.

Lemma fold_max_ofZ (zs : list Z) (z : Z) :
  Z.abs z < 2 ^ 53 -> Forall (fun x => Z.abs x < 2 ^ 53) zs ->
  fold_left max (map ofZ zs) (ofZ z) = ofZ (fold_left Z.max zs z).
Proof.
  intros Hz Hzs. revert z Hz.
  induction Hzs as [|x xs Hx _ IH]; intros z Hz; [reflexivity|].
  cbn [map fold_left]. rewrite max_ofZ by assumption. apply IH. lia.
Qed.

Lemma max_neg_infinity (a : Z) :
  Z.abs a < 2 ^ 53 -> max (S754_infinity true) (ofZ a) = ofZ a.
Proof.
  intro Ha. destruct (Z.eq_dec a 0) as [->|Ha0]; [reflexivity|].
  rewrite (ofZ_canon a) by assumption. reflexivity.
Qed.

Lemma mathMax_ofZ (z : Z) (zs : list Z) :
  Forall (fun x => Z.abs x < 2 ^ 53) (z :: zs) ->
  Content64.mathMax (ofZ z :: map ofZ zs) = ofZ (fold_left Z.max zs z).
Proof.
  intro H. inversion H as [|? ? Hz Hzs]; subst.
  unfold Content64.mathMax. cbn [map fold_left].
  rewrite max_neg_infinity by assumption. now apply fold_max_ofZ.
Qed.

Lemma fold_max_ge (zs : list Z) (z : Z) :
  z <= fold_left Z.max zs z
  /\ Forall (fun x => x <= fold_left Z.max zs z) zs.
Proof.
  revert z. induction zs as [|x xs IH]; intro z; cbn [fold_left].
  - split; [lia | constructor].
  - destruct (IH (Z.max z x)) as [H1 H2]. split; [lia|].
    constructor; [lia | exact H2].
Qed.

Lemma fold_max_bound (zs : list Z) (z b : Z) :
  z < b -> Forall (fun x => x < b) zs -> fold_left Z.max zs z < b.
Proof.
  intros Hz Hzs. revert z Hz.
  induction Hzs as [|x xs Hx _ IH]; intros z Hz; cbn [fold_left]; [exact Hz|].
  apply IH. lia.
Qed.

Lemma breathAnimationsFrom_window64 (i : nat) (D : Z)
    (timing : list (Z * Z)) :
  0 <= D < 2 ^ 52 ->
  Forall (fun t => 0 <= fst t <= D /\ 0 <= snd t <= D
                   /\ fst t + snd t <= D) timing ->
  Forall (fun a =>
            Timeline64.type a = "breath"%string
            /\ add (add (Timeline64.startDelayInTicks a)
                      (Timeline64.durationInTicks a))
                 (Timeline64.endDelayInTicks a) = ofZ D
            /\ ge (Timeline64.endDelayInTicks a) (ofZ 0) = true)
    (Content64.breathAnimationsFrom i (ofZ D)
       (map Content64.wholeProps timing)).
Proof.
  intros HD H. revert i.
  induction H as [|[s b] ts (Hs & Hb & Hsb) _ IH]; intro i;
    cbn [map Content64.breathAnimationsFrom]; constructor; [|apply IH].
  cbn [fst snd] in *.
  cbn [Timeline64.type Timeline64.startDelayInTicks Timeline64.durationInTicks
         Timeline64.endDelayInTicks Content64.wholeProps Content64.startDelayInTicks
         Content64.breathDurationInTicks fst snd].
  pose proof pow52_53 as P.
  rewrite !sub_ofZ, !add_ofZ by lia.
  split; [reflexivity|]. split; [f_equal; lia|].
  unfold ge. rewrite leb_ofZ by lia. apply Z.leb_le. lia.
Qed.

Lemma breathAnimationsFrom_length64 (i : nat) (d : number)
    (props : list Content64.RectProps) :
  List.length (Content64.breathAnimationsFrom i d props) = List.length props.
Proof.
  revert i. induction props; intro i; simpl; [reflexivity|].
  f_equal. auto.
Qed.

Lemma wholeProps_fields (timing : list (Z * Z)) :
  map Content64.startDelayInTicks (map Content64.wholeProps timing)
  = map ofZ (map fst timing)
  /\ map Content64.breathDurationInTicks (map Content64.wholeProps timing)
     = map ofZ (map snd timing).
Proof.
  split; rewrite !map_map; reflexivity.
Qed.

(** C10, as amended: in the timeline built, in double precision, from
    entries of [rectProps] whose start delays and breath durations are whole
    numbers of ticks, the duration of the root is the largest start delay
    plus the largest breath duration, and every sub-animation is a breath
    node whose start delay, duration and end delay add up to the duration of
    the root, with an end delay that is not negative; there is one
    sub-animation per entry. *)
Theorem timelineAnimation_children_window
    (startDelay endDelay : number) (timing : list (Z * Z)) :
  Forall (fun t => 0 <= fst t < 2 ^ 51 /\ 0 <= snd t < 2 ^ 51) timing ->
  let root :=
    Content64.timelineAnimation startDelay endDelay
      (map Content64.wholeProps timing) in
  Timeline64.type root = "timeline"%string
  /\ List.length (Timeline64.subAnimations root) = List.length timing
  /\ (forall t ts,
        timing = t :: ts ->
        Timeline64.durationInTicks root
        = ofZ (fold_left Z.max (map fst ts) (fst t)
               + fold_left Z.max (map snd ts) (snd t)))
  /\ Forall (fun a =>
               Timeline64.type a = "breath"%string
               /\ add (add (Timeline64.startDelayInTicks a)
                         (Timeline64.durationInTicks a))
                    (Timeline64.endDelayInTicks a)
                  = Timeline64.durationInTicks root
               /\ ge (Timeline64.endDelayInTicks a) (ofZ 0) = true)
       (Timeline64.subAnimations root).
Proof.
  intros Hwhole root.
  assert (Hlen : List.length (Timeline64.subAnimations root)
                 = List.length timing).
  { unfold root, Content64.timelineAnimation.
    cbn [Timeline64.subAnimations].
    rewrite breathAnimationsFrom_length64. apply length_map. }
  split; [reflexivity|]. split; [exact Hlen|].
  destruct timing as [|t ts].
  { split; [intros ? ? [=] | constructor]. }
  set (maxStart := fold_left Z.max (map fst ts) (fst t)).
  set (maxBreath := fold_left Z.max (map snd ts) (snd t)).
  pose proof pow52_53 as P.
  assert (P51 : 2 ^ 52 = 2 * 2 ^ 51) by reflexivity.
  assert (Hfst : Forall (fun x => 0 <= x < 2 ^ 51) (map fst (t :: ts))).
  { apply Forall_map. eapply Forall_impl; [|exact Hwhole].
    intros a Ha. cbn beta in Ha. tauto. }
  assert (Hsnd : Forall (fun x => 0 <= x < 2 ^ 51) (map snd (t :: ts))).
  { apply Forall_map. eapply Forall_impl; [|exact Hwhole].
    intros a Ha. cbn beta in Ha. tauto. }
  assert (HS : 0 <= maxStart < 2 ^ 51).
  { inversion Hfst as [|? ? H0 Hrest]; subst. split.
    - pose proof (proj1 (fold_max_ge (map fst ts) (fst t))). unfold maxStart. lia.
    - apply fold_max_bound; [lia|].
      eapply Forall_impl; [|exact Hrest]. cbn beta. intros. lia. }
  assert (HB : 0 <= maxBreath < 2 ^ 51).
  { inversion Hsnd as [|? ? H0 Hrest]; subst. split.
    - pose proof (proj1 (fold_max_ge (map snd ts) (snd t))). unfold maxBreath. lia.
    - apply fold_max_bound; [lia|].
      eapply Forall_impl; [|exact Hrest]. cbn beta. intros. lia. }
  assert (Hd : Timeline64.durationInTicks root = ofZ (maxStart + maxBreath)).
  { unfold root, Content64.timelineAnimation.
    cbn [Timeline64.durationInTicks].
    destruct (wholeProps_fields (t :: ts)) as [-> ->].
    cbn [map].
    rewrite !mathMax_ofZ.
    - apply add_ofZ; lia.
    - eapply Forall_impl; [|exact Hsnd]. cbn beta. intros. lia.
    - eapply Forall_impl; [|exact Hfst]. cbn beta. intros. lia. }
  split; [intros t' ts' [= <- <-]; exact Hd|].
  rewrite Hd.
  assert (Hroot : Timeline64.subAnimations root
                  = Content64.breathAnimationsFrom 0
                      (Timeline64.durationInTicks root)
                      (map Content64.wholeProps (t :: ts))) by reflexivity.
  rewrite Hroot, Hd.
  apply breathAnimationsFrom_window64; [lia|].
  pose proof (fold_max_ge (map fst ts) (fst t)) as [Gs Gss].
  pose proof (fold_max_ge (map snd ts) (snd t)) as [Gb Gbs].
  change (fst t <= maxStart) in Gs.
  change (Forall (fun x => x <= maxStart) (map fst ts)) in Gss.
  change (snd t <= maxBreath) in Gb.
  change (Forall (fun x => x <= maxBreath) (map snd ts)) in Gbs.
  rewrite Forall_forall in Hwhole, Gss, Gbs.
  apply Forall_forall. intros x Hin.
  assert (Hx : 0 <= fst x < 2 ^ 51 /\ 0 <= snd x < 2 ^ 51)
    by (apply Hwhole; exact Hin).
  assert (fst x <= maxStart).
  { destruct Hin as [<-|Hin]; [exact Gs|].
    apply Gss. apply in_map. exact Hin. }
  assert (snd x <= maxBreath).
  { destruct Hin as [<-|Hin]; [exact Gb|].
    apply Gbs. apply in_map. exact Hin. }
  lia.
Qed.

End WholeTimeline.

(** ** Concrete runs *)

(** The partitioner on a 3 by 2 grid with the sample source: a vertical cut
    at column 1, then the two cells of column 0 and the two cells of
    column 2. *)
Example partition_three_by_two :
  Grid.generateGridPartitioningInGridUnits nat Sample.rand Sample.random 3
    (0, 0)%Z (2, 1)%Z (1 # 2) 0%nat
  = Some ([((0, 0), (0, 0)); ((0, 1), (0, 1)); ((1, 0), (1, 1));
           ((2, 0), (2, 0)); ((2, 1), (2, 1))]%Z, 4%nat).
Proof. reflexivity. Qed.

(** The timeline built from the sample properties, 52 ticks into its active
    window: the first line is at the start of end-suck, the second 22 ticks
    into start-expand. *)
Example timeline_at_tick_1052 :
  exists root r,
    Content.timelineAnimation Sample.animation Sample.rectProps = Some root
    /\ Timeline.durationInTicks root == 190
    /\ Timeline.getAnimatedLinesWithAnimations Sample.easeLinear root
         [Sample.vertical; ((0, 1), (3, 1))] 1052 = Some r
    /\ Lines_eq r [((0, 0), (0, 2)); ((33 # 20, 1), (3, 1))].
Proof.
  eexists _, _. split; [reflexivity|]. split; [reflexivity|].
  split; [vm_compute; reflexivity|].
  repeat constructor.
Qed.

(** C1, the claim as stated fails: with a jitter ratio of one half the two
    rectangles of a 2 by 1 grid leave the point (25, 25) of the unit cell
    (0, 0) uncovered. *)
Lemma jitter_leaves_cells_uncovered :
  exists lines g' rects,
    Grid.generateGridPartitioningInGridUnits nat Sample.rand Sample.random
      2 (0, 0)%Z (1, 0)%Z (1 # 2) 0%nat = Some (lines, g')
    /\ Converter.convertGridLinesToRects Sample.sketchContext
         Sample.gridPartitioning (map Grid.lineOfGrid lines)
         [Sample.halfJitter; Sample.halfJitter] = Some rects
    /\ ~ Converter.tilesScaledBound Sample.sketchContext
           Sample.gridPartitioning 2 1 rects.
Proof.
  eexists _, _, _. split; [reflexivity|]. split; [reflexivity|].
  intros (_ & _ & Hcover).
  specialize (Hcover (0, 0)%Z (25, 25)).
  assert (Hc : Grid.inRegion (0, 0)%Z (2 - 1, 1 - 1)%Z (0, 0)%Z)
    by (unfold Grid.inRegion; simpl; lia).
  assert (Hu : Converter.inUnitCell Sample.sketchContext
                 Sample.gridPartitioning (0, 0)%Z (25, 25)).
  { unfold Converter.inUnitCell. cbn. repeat split; reflexivity || discriminate. }
  specialize (Hcover Hc Hu). vm_compute in Hcover. discriminate Hcover.
Qed.

(** A cut drawn outside the region breaks the tiling of the grid: on the
    1 by 3 grid a vertical cut asks for [random (1, 0, 'int')]; when the
    outcome is 1 the cutting line is the column 1, outside the grid. *)
Lemma cut_outside_region_breaks_tiling :
  exists lines g',
    Grid.generateGridPartitioningInGridUnits nat Sample.rand Sample.randomMin
      3 (0, 0)%Z (0, 2)%Z (1 # 2) 0%nat = Some (lines, g')
    /\ In ((1, 0), (1, 2))%Z lines
    /\ ~ Grid.tilesRegion (0, 0)%Z (0, 2)%Z lines.
Proof.
  eexists _, _. split; [reflexivity|]. split; [simpl; auto|].
  intros [Hwithin _]. rewrite Forall_forall in Hwithin.
  specialize (Hwithin ((1, 0), (1, 2))%Z).
  unfold Grid.lineWithin in Hwithin. simpl in Hwithin.
  destruct Hwithin as (_ & _ & Hout & _); [auto 10|]. lia.
Qed.


(** C10, the claim as stated fails in double precision.  With 0.1 tick per
    unit, one line of one cell and a start delay of 4 ticks, the root lasts
    [4 + 0.1 = 4.1] ticks and the end delay of the only sub-animation is
    [4.1 - 0.1 - 4 = -4.44e-16], which is negative.  With two lines, of two
    cells and of one cell, the root lasts 4.2 ticks and the three fields of
    the second sub-animation add up to 4.200000000000001. *)
Lemma fractional_ticks_break_window :
  (exists child,
      Timeline64.subAnimations
        (Content64.timelineAnimation (Binary64.ofZ 1000) (Binary64.ofZ 0)
           Sample64.tenthPerUnit) = [child]
      /\ Binary64.lt (Timeline64.endDelayInTicks child) (Binary64.ofZ 0)
         = true)
  /\ (exists first second,
         Timeline64.subAnimations
           (Content64.timelineAnimation (Binary64.ofZ 1000) (Binary64.ofZ 0)
              Sample64.tenthPerUnitTwoLines) = [first; second]
         /\ Timeline64.durationInTicks
              (Content64.timelineAnimation (Binary64.ofZ 1000)
                 (Binary64.ofZ 0) Sample64.tenthPerUnitTwoLines)
            = Binary64.literal (42 # 10)
         /\ Binary64.lt
              (Binary64.literal (42 # 10))
              (Binary64.add
                 (Binary64.add (Timeline64.startDelayInTicks second)
                    (Timeline64.durationInTicks second))
                 (Timeline64.endDelayInTicks second)) = true).
Proof.
  split.
  - eexists. split; reflexivity.
  - eexists _, _. split; [reflexivity|]. split; reflexivity.
Qed.

(** The two renderings on whole numbers and binary fractions, side by side:
    for every duration up to 32 ticks and every tick of the active window
    they select the same sub-phase; for the sample weights and a hundred
    noise values they walk to the same palette index. *)
Lemma renderings_agree_on_samples :
  forallb (fun d =>
             forallb (Renderings.sameSubPhase (d + 1))
               (Renderings.upto (Z.to_nat (d + 1))))
    (Renderings.upto 32) = true
  /\ forallb (fun weights =>
                forallb (Renderings.sameIndex weights) (Renderings.upto 101))
       Renderings.sampleWeights = true.
Proof. split; vm_compute; reflexivity. Qed.

(** Rounding in the palette walk.  The weights 0.01, 0.08 and 0.9 sum to
    more than 0.99, yet the value 0.99 exhausts them: [0.99 - 0.01 - 0.08]
    is exactly 0.9 in double precision, which is not below the last weight.
    The weights 0.02, 0.86 and 0.11 sum to 0.99, yet the value 0.99 is
    assigned index 2: [0.99 - 0.02 - 0.86] is 0.10999999999999999.  With the
    weights 0.1 and 0.2 a noise value of 0.21 is normalized to 0.3 and
    assigned index 1, since [0.3 - 0.1] is 0.19999999999999998.  Weights
    that are binary fractions are subtracted without rounding: the four
    quarters of the default gene place a noise value of 1, normalized to
    0.99, in the last palette. *)
Lemma palette_walk_rounding :
  Content64.paletteWalk
    [Binary64.literal (1 # 100); Binary64.literal (8 # 100);
     Binary64.literal (9 # 10)] 0 (Binary64.literal (99 # 100)) = (-1)%Z
  /\ Content64.paletteWalk
       [Binary64.literal (2 # 100); Binary64.literal (86 # 100);
        Binary64.literal (11 # 100)] 0 (Binary64.literal (99 # 100)) = 2%Z
  /\ Content64.colorPalleteNormalizedValue (Binary64.literal (21 # 100))
     = Binary64.literal (3 # 10)
  /\ Content64.paletteWalk
       [Binary64.literal (1 # 10); Binary64.literal (2 # 10)] 0
       (Content64.colorPalleteNormalizedValue (Binary64.literal (21 # 100)))
     = 1%Z
  /\ Content64.colorPalleteNormalizedValue (Binary64.ofZ 1)
     = Binary64.literal (99 # 100)
  /\ Content64.paletteWalk
       [Binary64.literal (1 # 4); Binary64.literal (1 # 4);
        Binary64.literal (1 # 4); Binary64.literal (1 # 4)] 0
       (Content64.colorPalleteNormalizedValue (Binary64.ofZ 1)) = 3%Z.
Proof. repeat split; reflexivity. Qed.

(** C2, the claim as stated fails: the walk over the single weight 0.25
    exhausts and gives [-1], but the sprinkle override fires, replaces the
    index by 0, and the consuming code reads a palette that exists. *)
Lemma sprinkle_replaces_exhausted_index :
  Content.exhausts (Gene.colorPalletesRatio Sample.foreground)
    (Content.colorPalleteNormalizedValue
       (Sample.noise2D
          (fst (Content.colorPt Sample.foreground (0, 0) ((0, 0), (0, 0))%Z))
          (snd (Content.colorPt Sample.foreground (0, 0) ((0, 0), (0, 0))%Z))))
  /\ Content.colorPalleteIndex Sample.noise2D Sample.foreground
       (Content.colorPt Sample.foreground (0, 0) ((0, 0), (0, 0))%Z)
     = (-1)%Z
  /\ fst (Content.sprinkledIndex nat Sample.randLow Sample.randomByWeights
            Sample.noise2D Sample.foreground
            (Content.colorPt Sample.foreground (0, 0) ((0, 0), (0, 0))%Z)
            0%nat) = 0%Z
  /\ Content.rectPropsAt nat Sample.randLow Sample.randomByWeights
       Sample.noise2D Sample.foreground Sample.animation (0, 0)
       0 ((0, 0), (0, 0))%Z 0%nat <> None.
Proof.
  split; [|split; [|split]].
  - apply (paletteWalk_exhausted _ 0); [lia | reflexivity].
  - reflexivity.
  - reflexivity.
  - vm_compute. discriminate.
Qed.

(** C8, the claim as stated fails: with units of 50 pixels, a gap of 10 and
    a jitter ratio of one, the far corner of the rectangle of the cell
    (0, 0) is at 50, where the shift of the description gives 10. *)
Lemma far_corner_not_as_described :
  exists r,
    Converter.convertGridLinesToRects Sample.sketchContext
      Sample.gridPartitioning [((0, 0), (0, 0))] [Sample.fullJitter]
    = Some [r]
    /\ fst (snd r) == 50
    /\ fst (Converter.topLeft Sample.sketchContext Sample.gridPartitioning)
       + fst (Converter.farCornerAsDescribed Sample.gridPartitioning
                ((0, 0), (0, 0)) Sample.fullJitter) == 10
    /\ ~ fst (snd r)
         == fst (Converter.topLeft Sample.sketchContext
                   Sample.gridPartitioning)
            + fst (Converter.farCornerAsDescribed Sample.gridPartitioning
                     ((0, 0), (0, 0)) Sample.fullJitter).
Proof.
  eexists. split; [reflexivity|].
  split; [reflexivity|]. split; [reflexivity|].
  vm_compute. discriminate.
Qed.

(** ** Instances *)

Lemma sample_random_in_region (lo hi : Z) (g : nat) :
  (lo - 1 <= hi)%Z -> (lo - 1 <= fst (Sample.random lo hi g) <= hi)%Z.
Proof.
  intro H. unfold Sample.random. cbn [fst].
  pose proof (Z.div_mod (lo + hi) 2) as Hd.
  pose proof (Z.mod_pos_bound (lo + hi) 2) as Hm. lia.
Qed.

Lemma partition_rects_tile_witness :
  exists lines g',
    Grid.generateGridPartitioningInGridUnits nat Sample.rand Sample.random 3
      (0, 0)%Z (2 - 1, 1 - 1)%Z (1 # 2) 0%nat = Some (lines, g')
    /\ Grid.tilesRegion (0, 0)%Z (2 - 1, 1 - 1)%Z lines
    /\ forall lineProps : list Converter.LineProps,
         List.length lineProps = List.length lines ->
         Forall (fun p => fst (Converter.gitterRatio p) == 1
                          /\ snd (Converter.gitterRatio p) == 1) lineProps ->
         exists rects,
           Converter.convertGridLinesToRects Sample.sketchContext
             Sample.gridPartitioning (map Grid.lineOfGrid lines) lineProps
           = Some rects
           /\ Converter.tilesScaledBound Sample.sketchContext
                Sample.gridPartitioning 2 1 rects.
Proof.
  apply (partition_rects_tile nat Sample.rand Sample.random
           Sample.sketchContext Sample.gridPartitioning 2 1 (1 # 2) 0%nat 3).
  - exact sample_random_in_region.
  - lia.
  - lia.
  - reflexivity.
  - reflexivity.
  - reflexivity.
  - reflexivity.
  - discriminate.
  - simpl. lia.
Defined.

Lemma palette_exhaustion_invalid_access_witness :
  Content.colorPalleteIndex Sample.noise2D Sample.foreground
    (Content.colorPt Sample.foreground (0, 0) ((0, 0), (0, 0))%Z) = (-1)%Z
  /\ Content.rectPropsAt nat Sample.rand Sample.randomByWeights
       Sample.noise2D Sample.foreground Sample.animation (0, 0)
       0 ((0, 0), (0, 0))%Z 0%nat = None.
Proof.
  destruct (proj1 (palette_exhaustion_invalid_access nat Sample.rand
                     Sample.randomByWeights Sample.noise2D Sample.foreground
                     Sample.animation (0, 0))
              eq_refl 0%nat ((0, 0), (0, 0))%Z 0%nat) as [Hidx Hacc].
  - apply (paletteWalk_exhausted _ 0); [lia | reflexivity].
  - split; [exact Hidx|]. apply Hacc. simpl. discriminate.
Defined.




Lemma palette_selection_walk_witness :
  fst (Content.sprinkledIndex nat Sample.rand Sample.randomByWeights
         Sample.noise2D Sample.foreground (0, 0) 0%nat)
  = Content.paletteWalk (Gene.colorPalletesRatio Sample.foreground) 0
      (Content.colorPalleteNormalizedValue (Sample.noise2D 0 0)).
Proof.
  apply (proj1 (palette_selection_walk nat Sample.rand Sample.randomByWeights
                  Sample.noise2D Sample.foreground) (0, 0) 0%nat).
  simpl. discriminate.
Defined.

Lemma two_by_two_block_witness :
  exists first second,
    Grid.generateGridPartitioningInGridUnits nat Sample.rand Sample.random 1
      (0, 0)%Z (1, 1)%Z (1 # 2) 0%nat
    = Some ([first; second], snd (Sample.rand 0%nat))
    /\ first = ((0, 0), (0, 1))%Z /\ second = ((1, 0), (1, 1))%Z.
Proof.
  destruct (two_by_two_block nat Sample.rand Sample.random
              (0, 0)%Z (1, 1)%Z (1 # 2) 0%nat 0%nat)
    as (first & second & Hgen & _ & _ & _ & Hex); [reflexivity..|].
  exists first, second. split; [exact Hgen|].
  apply Hex; reflexivity.
Defined.

Lemma convertGridLinesToRects_formula_witness :
  exists rects,
    Converter.convertGridLinesToRects Sample.sketchContext
      Sample.gridPartitioning [Sample.vertical] [Sample.fullJitter]
    = Some rects
    /\ List.length rects = 1%nat.
Proof.
  destruct (convertGridLinesToRects_formula Sample.sketchContext
              Sample.gridPartitioning [Sample.vertical] [Sample.fullJitter])
    as (rects & Hconv & Hlen & _); [simpl; lia|].
  exists rects. split; [exact Hconv | exact Hlen].
Defined.

Lemma animateLine_diagonal_unchanged_witness :
  Timeline.animateLine Sample.easeLinear Sample.diagonal
    (Some Timeline.start_suck) (1 # 2) = Sample.diagonal.
Proof.
  apply animateLine_diagonal_unchanged; simpl; discriminate.
Defined.

Lemma timelineAnimation_children_window_witness :
  Forall (fun a =>
            Timeline64.type a = "breath"%string
            /\ Binary64.add
                 (Binary64.add (Timeline64.startDelayInTicks a)
                    (Timeline64.durationInTicks a))
                 (Timeline64.endDelayInTicks a)
               = Binary64.ofZ 190
            /\ Binary64.ge (Timeline64.endDelayInTicks a) (Binary64.ofZ 0)
               = true)
    (Timeline64.subAnimations
       (Content64.timelineAnimation (Binary64.ofZ 1000) (Binary64.ofZ 0)
          (map Content64.wholeProps [(12, 80); (30, 160)]%Z))).
Proof.
  pose proof (timelineAnimation_children_window (Binary64.ofZ 1000)
                (Binary64.ofZ 0) [(12, 80); (30, 160)]%Z) as H.
  cbv zeta in H.
  destruct H as (_ & _ & Hd & Hall).
  - repeat constructor; simpl; lia.
  - rewrite (Hd _ _ eq_refl) in Hall. exact Hall.
Defined.

(** * Further properties *)

(** ** The partitioner, whatever the random source returns *)

Section PartitionShape.

Variable Rng : Type.
Variable rand : Rng -> Q * Rng.
Variable random : Z -> Z -> Rng -> Z * Rng.

Lemma wellShaped_join (before after : list Grid.GridLine)
    (line : Grid.GridLine) :
  Forall Animate.wellShaped before ->
  Animate.wellShaped line ->
  Forall Animate.wellShaped after ->
  before ++ line :: after <> []
  /\ Forall Animate.wellShaped (before ++ line :: after).
Proof.
  intros Hb Hl Ha. split.
  - destruct before; discriminate.
  - apply Forall_app. split; [exact Hb | constructor; assumption].
Qed.

Lemma generate_well_shaped (fuel : nat) :
  forall (topLeft bottomRight : Grid.GridCord) (ratio : Q) (g g' : Rng)
         (lines : list Grid.GridLine),
    (fst topLeft <= fst bottomRight)%Z ->
    (snd topLeft <= snd bottomRight)%Z ->
    Grid.generateGridPartitioningInGridUnits Rng rand random fuel
      topLeft bottomRight ratio g = Some (lines, g') ->
    lines <> [] /\ Forall Animate.wellShaped lines.
Proof.
  induction fuel as [|fuel IH];
    intros [tl0 tl1] [br0 br1] ratio g g' lines H0 H1 H; [discriminate|].
  simpl in H0, H1.
  cbn [Grid.generateGridPartitioningInGridUnits] in H.
  destruct ((br0 - tl0 =? 0) && (br1 - tl1 =? 0))%Z eqn:Hdot.
  { apply andb_true_iff in Hdot. rewrite !Z.eqb_eq in Hdot.
    injection H as <- _. split; [discriminate|].
    repeat constructor; simpl; lia. }
  destruct (rand g) as [r g1].
  destruct (((br0 - tl0 =? 1) && (br1 - tl1 =? 0))
            || ((br0 - tl0 =? 0) && (br1 - tl1 =? 1)))%Z eqn:Hline.
  { injection H as <- _. split; [discriminate|].
    repeat constructor; simpl; lia. }
  destruct ((br0 - tl0 =? 1) && (br1 - tl1 =? 1))%Z eqn:Hsquare.
  { apply andb_true_iff in Hsquare. rewrite !Z.eqb_eq in Hsquare.
    destruct (Qlt_bool ratio r); injection H as <- _;
      (split; [discriminate | repeat constructor; simpl; lia]). }
  destruct (Qlt_bool ratio r).
  - destruct (random (tl0 + 1) br0 g1) as [x g2].
    cbn [fst snd negb] in H. rewrite !Z.geb_leb in H.
    assert (Hline' : Animate.wellShaped ((x, tl1), (x, br1)))
      by (repeat split; simpl; auto; lia).
    destruct ((tl0 <=? x - 1) && (tl1 <=? br1 - 0))%Z eqn:HvalidA;
      destruct ((x + 1 <=? br0) && (tl1 + 0 <=? br1))%Z eqn:HvalidB;
      try (apply andb_true_iff in HvalidA; rewrite !Z.leb_le in HvalidA);
      try (apply andb_true_iff in HvalidB; rewrite !Z.leb_le in HvalidB);
      repeat match type of H with
             | match ?c with _ => _ end = _ =>
                 let E := fresh "E" in
                 destruct c as [[? ?]|] eqn:E; [|discriminate];
                 apply IH in E; [| simpl; lia | simpl; lia]
             end;
      injection H as <- _;
      first [apply wellShaped_join | apply (wellShaped_join [])];
      try exact Hline'; try tauto; constructor.
  - destruct (random (tl1 + 1) br1 g1) as [y g2].
    cbn [fst snd negb] in H. rewrite !Z.geb_leb in H.
    assert (Hline' : Animate.wellShaped ((tl0, y), (br0, y)))
      by (repeat split; simpl; auto; lia).
    destruct ((tl0 <=? br0 - 0) && (tl1 <=? y - 1))%Z eqn:HvalidA;
      destruct ((tl0 + 0 <=? br0) && (y + 1 <=? br1))%Z eqn:HvalidB;
      try (apply andb_true_iff in HvalidA; rewrite !Z.leb_le in HvalidA);
      try (apply andb_true_iff in HvalidB; rewrite !Z.leb_le in HvalidB);
      repeat match type of H with
             | match ?c with _ => _ end = _ =>
                 let E := fresh "E" in
                 destruct c as [[? ?]|] eqn:E; [|discriminate];
                 apply IH in E; [| simpl; lia | simpl; lia]
             end;
      injection H as <- _;
      first [apply wellShaped_join | apply (wellShaped_join [])];
      try exact Hline'; try tauto; constructor.
Qed.

(** X1: on a region with [topLeft <= bottomRight], whatever the outcomes of
    the random source, the partitioner never returns an empty sequence, and
    each of its lines lies on one axis and runs from its first endpoint to
    its second: no line is diagonal or reversed. *)
Theorem partition_lines_well_shaped
    (fuel : nat) (topLeft bottomRight : Grid.GridCord) (ratio : Q)
    (g g' : Rng) (lines : list Grid.GridLine) :
  (fst topLeft <= fst bottomRight)%Z ->
  (snd topLeft <= snd bottomRight)%Z ->
  Grid.generateGridPartitioningInGridUnits Rng rand random fuel
    topLeft bottomRight ratio g = Some (lines, g') ->
  lines <> []
  /\ Forall (fun l =>
               (fst (fst l) = fst (snd l) \/ snd (fst l) = snd (snd l))
               /\ (fst (fst l) <= fst (snd l))%Z
               /\ (snd (fst l) <= snd (snd l))%Z) lines.
Proof. apply generate_well_shaped. Qed.

End PartitionShape.

(** ** The timeline engine at any tick *)

Lemma jsRem_cycles (tick c t0 : Q) (n : Z) :
  0 < c -> (0 <= n)%Z -> 0 <= t0 -> t0 < c ->
  tick == inject_Z n * c + t0 ->
  exists m, jsRem tick c = Some m /\ m == t0.
Proof.
  intros Hc Hn Ht0 Hlt Htick.
  assert (Hn' : 0 <= inject_Z n) by (rewrite Zle_Qle in Hn; exact Hn).
  assert (Hpos : 0 <= tick) by nra.
  destruct (jsRem_nonneg tick c Hpos Hc) as (m & Hm & Hmeq & _).
  exists m. split; [exact Hm|].
  assert (Hf : Qfloor (tick / c) = n).
  { apply Qfloor_unique.
    - apply Qle_shift_div_l; [exact Hc | lra].
    - apply Qlt_shift_div_r; [exact Hc|].
      rewrite inject_Z_plus. change (inject_Z 1) with 1. lra. }
  rewrite Hmeq, Hf, Htick. ring.
Qed.

Lemma Qfloor_nonneg (x : Q) : 0 <= x -> (0 <= Qfloor x)%Z.
Proof.
  intro H. change 0%Z with (Qfloor 0). now apply Qfloor_resp_le.
Qed.

Lemma breathStep_defined (duration t : Q) :
  0 < duration -> 0 <= t -> t < duration ->
  exists ty proportion,
    Timeline.breathStep duration t = (Some ty, proportion)
    /\ In ty Timeline.animationSequence
    /\ 0 <= proportion /\ proportion < 1.
Proof.
  intros Hd Ht Hlt.
  assert (Hseq : 0 < duration / 4) by (apply Qlt_shift_div_l; lra).
  assert (Hq : 0 <= t / (duration / 4)) by (apply Qle_shift_div_l; lra).
  assert (Hq4 : t / (duration / 4) < 4).
  { apply Qlt_shift_div_r; [exact Hseq|].
    setoid_replace (4 * (duration / 4)) with duration by (field; lra).
    exact Hlt. }
  set (k := Qfloor (t / (duration / 4))).
  assert (Hk0 : (0 <= k)%Z) by (apply Qfloor_nonneg; exact Hq).
  assert (Hk4 : (k < 4)%Z).
  { rewrite Zlt_Qlt. pose proof (Qfloor_le (t / (duration / 4))) as Hf.
    fold k in Hf. change (inject_Z 4) with 4. lra. }
  destruct (breathStep_quarter duration t k Hd Hk0) as (p & Hstep & Hp).
  - pose proof (Qfloor_le (t / (duration / 4))) as Hf. fold k in Hf.
    assert (E : t == t / (duration / 4) * (duration / 4)) by (field; lra).
    nra.
  - pose proof (Qlt_floor (t / (duration / 4))) as Hf. fold k in Hf.
    assert (E : t == t / (duration / 4) * (duration / 4)) by (field; lra).
    nra.
  - assert (Hget : exists ty,
               arrayGet Timeline.animationSequence k = Some ty
               /\ In ty Timeline.animationSequence).
    { unfold arrayGet. destruct (Z.leb_spec 0 k) as [_|]; [|lia].
      assert (Hn : (Z.to_nat k < 4)%nat) by lia.
      destruct (Z.to_nat k) as [|[|[|[|n]]]]; simpl; eauto 10; lia. }
    destruct Hget as (ty & Hget & Hin).
    exists ty, p. rewrite Hstep, Hget. split; [reflexivity|].
    split; [exact Hin|].
    pose proof (Qfloor_le (t / (duration / 4))) as Hf1.
    pose proof (Qlt_floor (t / (duration / 4))) as Hf2.
    fold k in Hf1, Hf2. rewrite inject_Z_plus in Hf2.
    change (inject_Z 1) with 1 in Hf2.
    assert (E : (t - inject_Z k * (duration / 4)) / (duration / 4)
                == t / (duration / 4) - inject_Z k) by (field; lra).
    rewrite Hp, E. split; lra.
Qed.

Section EngineShape.

Variable easeOutElastic : Q -> Q.

Local Notation animateLine := (Timeline.animateLine easeOutElastic).
Local Notation getAnimatedLinesWithAnimations :=
  (Timeline.getAnimatedLinesWithAnimations easeOutElastic).
Local Notation animatedFrom := (Animate.animatedFrom easeOutElastic).

Lemma animatedFrom_same (lines : list Line) : Forall2 animatedFrom lines lines.
Proof.
  induction lines; constructor; [left; reflexivity | assumption].
Qed.

Lemma animatedFrom_map (lines : list Line) (ty : Timeline.AnimateLineType)
    (p : Q) :
  0 <= p -> p <= 1 ->
  Forall2 animatedFrom lines (map (fun l => animateLine l (Some ty) p) lines).
Proof.
  intros H0 H1. induction lines; simpl; constructor; [|assumption].
  right. exists ty, p. auto.
Qed.

Lemma breath_node_shape
    (anim : Timeline.Animation) (lines : list Line) (tick : Q) :
  Timeline.type anim = "breath"%string ->
  exists r,
    getAnimatedLinesWithAnimations anim lines tick = Some r
    /\ Forall2 animatedFrom lines r.
Proof.
  destruct anim as [s d e li ty subs]. simpl. intros ->.
  destruct (jsRem tick (s + d + e)) as [m|];
    [|eexists; split; [reflexivity | apply animatedFrom_same]].
  destruct (Qlt_bool m s) eqn:H1.
  { eexists. split; [reflexivity|]. apply animatedFrom_map; lra. }
  apply Qlt_bool_false_iff in H1.
  destruct (Qge_bool m s && Qlt_bool m (s + d + e - e)) eqn:H2.
  - apply andb_true_iff in H2. destruct H2 as [_ H2].
    apply Qlt_bool_iff in H2. simpl.
    destruct (breathStep_defined d (m - s)) as (ty & p & Hstep & _ & Hp0 & Hp1);
      [lra | lra | lra |].
    rewrite Hstep. eexists. split; [reflexivity|].
    apply animatedFrom_map; lra.
  - destruct (Qge_bool m (s + d + e - e)).
    + eexists. split; [reflexivity|]. apply animatedFrom_map; lra.
    + eexists. split; [reflexivity | apply animatedFrom_same].
Qed.

(** X2: a breath node whose delays and duration are whole numbers of ticks,
    evaluated at a whole tick on any lines, never fails and never uses an
    undefined animation type.  When the complete duration is zero it returns
    the lines as they are.  Otherwise, outside the active window it returns
    the lines of the hold state, and inside it the entry of
    [animationSequence] at the index computed from the tick exists, is one
    of the four sub-phases, and the lines are animated with it and a
    proportion that is at least 0 and below 1. *)
Theorem breath_evaluation_shape
    (anim : Timeline.Animation) (lines : list Line) (tick : Q) :
  Timeline.type anim = "breath"%string ->
  wholeNumber (Timeline.startDelayInTicks anim) = true ->
  wholeNumber (Timeline.durationInTicks anim) = true ->
  wholeNumber (Timeline.endDelayInTicks anim) = true ->
  wholeNumber tick = true ->
  0 <= Timeline.startDelayInTicks anim ->
  0 <= Timeline.durationInTicks anim ->
  0 <= Timeline.endDelayInTicks anim ->
  0 <= tick ->
  (jsRem tick (Timeline.completeTicksDuration anim) = None ->
   getAnimatedLinesWithAnimations anim lines tick = Some lines)
  /\ (forall relativeTick : Q,
        jsRem tick (Timeline.completeTicksDuration anim)
        = Some relativeTick ->
        (relativeTick < Timeline.startDelayInTicks anim
         \/ Timeline.startDelayInTicks anim + Timeline.durationInTicks anim
            <= relativeTick ->
         getAnimatedLinesWithAnimations anim lines tick
         = Some (map (fun l => animateLine l (Some Timeline.static) 1)
                   lines))
        /\ (Timeline.startDelayInTicks anim <= relativeTick ->
            relativeTick
            < Timeline.startDelayInTicks anim
              + Timeline.durationInTicks anim ->
            exists (ty : Timeline.AnimateLineType) (proportion : Q),
              Timeline.breathStep (Timeline.durationInTicks anim)
                (relativeTick - Timeline.startDelayInTicks anim)
              = (Some ty, proportion)
              /\ In ty Timeline.animationSequence
              /\ 0 <= proportion /\ proportion < 1
              /\ getAnimatedLinesWithAnimations anim lines tick
                 = Some (map (fun l => animateLine l (Some ty) proportion)
                           lines))).
Proof.
  intros Hty _ _ _ _ _ _ _ _. split.
  - destruct anim as [s d e li ty subs].
    unfold Timeline.completeTicksDuration. simpl. intros ->. reflexivity.
  - intros m Hm. split.
    + apply (getAnimatedLines_hold easeOutElastic anim lines tick m Hm).
    + intros Hlo Hhi.
      destruct (breathStep_defined (Timeline.durationInTicks anim)
                  (m - Timeline.startDelayInTicks anim))
        as (ty & p & Hstep & Hin & Hp0 & Hp1); [lra | lra | lra |].
      exists ty, p. repeat split; try assumption.
      rewrite (getAnimatedLines_breath_active easeOutElastic anim lines tick m
                 Hty Hm Hlo Hhi).
      rewrite Hstep. reflexivity.
Qed.


Lemma animateLine_ratios_eq (l : Line)
    (ty1 ty2 : option Timeline.AnimateLineType) (p1 p2 : Q) :
  fst (Timeline.animateRatios easeOutElastic ty1 p1)
  == fst (Timeline.animateRatios easeOutElastic ty2 p2) ->
  snd (Timeline.animateRatios easeOutElastic ty1 p1)
  == snd (Timeline.animateRatios easeOutElastic ty2 p2) ->
  Line_eq (animateLine l ty1 p1) (animateLine l ty2 p2).
Proof.
  intros Hs He. unfold Timeline.animateLine.
  destruct (Timeline.animateRatios easeOutElastic ty1 p1) as [a1 b1].
  destruct (Timeline.animateRatios easeOutElastic ty2 p2) as [a2 b2].
  simpl in Hs, He. destruct l as [[l00 l01] [l10 l11]].
  destruct (Qeq_bool (l10 - l00) 0);
    [|destruct (Qeq_bool (l11 - l01) 0)];
    repeat split; simpl; rewrite ?Hs, ?He; reflexivity.
Qed.

(** X4: for an easing curve that goes from 0 to 1, the four sub-phases of a
    breath join without a jump: start-expand begins at the open line; where
    it ends start-suck begins (the line shrunk onto its second endpoint);
    where start-suck ends end-suck begins (the open line); where end-suck
    ends end-expand begins (the line shrunk onto its first endpoint); and
    end-expand ends at the open line. *)
Theorem subphases_join (l : Line) :
  easeOutElastic 0 == 0 -> easeOutElastic 1 == 1 ->
  Line_eq (animateLine l (Some Timeline.start_expand) 0) l
  /\ Line_eq (animateLine l (Some Timeline.start_expand) 1)
       (animateLine l (Some Timeline.start_suck) 0)
  /\ Line_eq (animateLine l (Some Timeline.start_suck) 1)
       (animateLine l (Some Timeline.end_suck) 0)
  /\ Line_eq (animateLine l (Some Timeline.end_suck) 1)
       (animateLine l (Some Timeline.end_expand) 0)
  /\ Line_eq (animateLine l (Some Timeline.end_expand) 1) l
  /\ (fst (snd l) - fst (fst l) == 0 \/ snd (snd l) - snd (fst l) == 0 ->
      Line_eq (animateLine l (Some Timeline.start_expand) 1) (snd l, snd l)
      /\ Line_eq (animateLine l (Some Timeline.end_suck) 1) (fst l, fst l)).
Proof.
  intros E0 E1.
  split; [apply animateLine_open; simpl; [exact E0 | reflexivity]|].
  split; [apply animateLine_ratios_eq; simpl; rewrite ?E0, ?E1; ring|].
  split; [apply animateLine_ratios_eq; simpl; rewrite ?E0, ?E1; ring|].
  split; [apply animateLine_ratios_eq; simpl; rewrite ?E0, ?E1; ring|].
  split; [apply animateLine_open; simpl; [reflexivity | exact E1]|].
  intros Haxis. destruct l as [[l00 l01] [l10 l11]]. simpl in Haxis.
  unfold Timeline.animateLine. cbn [Timeline.animateRatios fst snd].
  destruct (Qeq_bool (l10 - l00) 0) eqn:Hv.
  - apply Qeq_bool_iff in Hv.
    split; repeat split; cbn [fst snd]; rewrite ?E1; lra.
  - apply Qeq_bool_false_iff in Hv.
    destruct Haxis as [Hx | Hy]; [contradiction|].
    assert (Hh : Qeq_bool (l11 - l01) 0 = true) by (apply Qeq_bool_iff; exact Hy).
    rewrite Hh.
    split; repeat split; cbn [fst snd]; rewrite ?E1; lra.
Qed.

(** X5: on a line that lies on one axis the two branches of [animateLine]
    are the same interpolation: the result runs from the point at
    [startRatio] to the point at [endRatio] of the segment, in both
    coordinates. *)
Theorem animateLine_interpolates
    (l : Line) (ty : option Timeline.AnimateLineType) (proportion : Q) :
  fst (snd l) - fst (fst l) == 0 \/ snd (snd l) - snd (fst l) == 0 ->
  let startRatio := fst (Timeline.animateRatios easeOutElastic ty proportion) in
  let endRatio := snd (Timeline.animateRatios easeOutElastic ty proportion) in
  let r := animateLine l ty proportion in
  fst (fst r) == fst (fst l) + (fst (snd l) - fst (fst l)) * startRatio
  /\ snd (fst r) == snd (fst l) + (snd (snd l) - snd (fst l)) * startRatio
  /\ fst (snd r) == fst (fst l) + (fst (snd l) - fst (fst l)) * endRatio
  /\ snd (snd r) == snd (fst l) + (snd (snd l) - snd (fst l)) * endRatio.
Proof.
  intros Haxis. unfold Timeline.animateLine.
  destruct (Timeline.animateRatios easeOutElastic ty proportion) as [a b].
  destruct l as [[l00 l01] [l10 l11]]. cbn [fst snd] in *.
  destruct (Qeq_bool (l10 - l00) 0) eqn:Hv.
  - apply Qeq_bool_iff in Hv. cbn [fst snd].
    repeat split; try reflexivity; nra.
  - apply Qeq_bool_false_iff in Hv.
    destruct Haxis as [Hx | Hy]; [contradiction|].
    assert (Hh : Qeq_bool (l11 - l01) 0 = true) by (apply Qeq_bool_iff; exact Hy).
    rewrite Hh. cbn [fst snd].
    repeat split; try reflexivity; nra.
Qed.

End EngineShape.

Section EngineHold64.

Import Binary64.
Local Open Scope Z_scope.

Variable easeOutElastic : number -> number.

(** X3: in every cycle of a node of any type whose delays and duration are
    whole numbers of ticks, evaluated in double precision at a whole tick on
    lines with whole coordinates: before the start delay has elapsed and
    from the end of the active window on, the node returns the lines
    unchanged. *)
Theorem hold_in_every_cycle
    (anim : Timeline64.Animation) (s d e tick : Z)
    (lines : list Grid.GridLine) :
  Timeline64.startDelayInTicks anim = ofZ s ->
  Timeline64.durationInTicks anim = ofZ d ->
  Timeline64.endDelayInTicks anim = ofZ e ->
  0 <= s -> 0 <= d -> 0 <= e -> 0 < s + d + e < 2 ^ 53 ->
  0 <= tick < 2 ^ 53 ->
  Forall wholeLine lines ->
  tick mod (s + d + e) < s \/ s + d <= tick mod (s + d + e) ->
  Timeline64.getAnimatedLinesWithAnimations easeOutElastic anim
    (map lineOfGrid lines) (ofZ tick)
  = Some (map lineOfGrid lines).
Proof.
  intros Hs Hd He Hs0 Hd0 He0 Hc Ht Hl Hcase.
  apply (node_hold64 easeOutElastic anim s d e); auto; lia.
Qed.

End EngineHold64.

(** ** A timeline node and its sub-animations *)

Section TimelineNode.

Variable easeOutElastic : Q -> Q.

Local Notation getAnimatedLinesWithAnimations :=
  (Timeline.getAnimatedLinesWithAnimations easeOutElastic).
Local Notation animatedFrom := (Animate.animatedFrom easeOutElastic).
Local Notation animateLine := (Timeline.animateLine easeOutElastic).

(** The evaluation of a timeline node, by phase. *)
Lemma getAnimatedLines_timeline
    (anim : Timeline.Animation) (lines : list Line) (tick : Q) :
  Timeline.type anim = "timeline"%string ->
  getAnimatedLinesWithAnimations anim lines tick
  = match jsRem tick (Timeline.completeTicksDuration anim) with
    | None => Some lines
    | Some m =>
        if Qlt_bool m (Timeline.startDelayInTicks anim) then
          Some (map (fun l => animateLine l (Some Timeline.static) 1) lines)
        else if Qge_bool m (Timeline.startDelayInTicks anim)
                && Qlt_bool m (Timeline.completeTicksDuration anim
                               - Timeline.endDelayInTicks anim)
        then
          Animate.lineGroups easeOutElastic lines
            (m - Timeline.startDelayInTicks anim)
            (Timeline.subAnimations anim)
        else if Qge_bool m (Timeline.completeTicksDuration anim
                            - Timeline.endDelayInTicks anim)
        then
          Some (map (fun l => animateLine l (Some Timeline.static) 1) lines)
        else Some lines
    end.
Proof.
  destruct anim as [s d e li ty subs]. intros Hty.
  unfold Timeline.completeTicksDuration.
  cbn [Timeline.type] in Hty. subst ty.
  cbn [Timeline.getAnimatedLinesWithAnimations Timeline.startDelayInTicks
       Timeline.durationInTicks Timeline.endDelayInTicks Timeline.type
       Timeline.subAnimations].
  destruct (jsRem tick (s + d + e)) as [m|]; [|reflexivity].
  destruct (Qlt_bool m s); [reflexivity|].
  destruct (Qge_bool m s && Qlt_bool m (s + d + e - e)); [|reflexivity].
  change (String.eqb "timeline" "timeline") with true. cbv iota.
  generalize (m - s) as t. intro t.
  induction subs as [|a rest IH]; [reflexivity|].
  cbn [Animate.lineGroups]. rewrite <- IH. reflexivity.
Qed.

Lemma skipn_nth_cons {A : Type} (xs : list A) (i : nat) (x : A) :
  nth_error xs i = Some x -> skipn i xs = x :: skipn (S i) xs.
Proof.
  revert i. induction xs as [|y ys IH]; intros [|i] H; simpl in *;
    try discriminate.
  - injection H as ->. reflexivity.
  - apply IH. exact H.
Qed.

(** The groups of the breath nodes built for the lines from index [i] on. *)
Lemma lineGroups_breath (lines : list Line) (tick durationInTicks : Q)
    (props : list Content.RectProps) :
  forall i : nat,
    (i + List.length props = List.length lines)%nat ->
    exists rs,
      Animate.lineGroups easeOutElastic lines tick
        (Content.breathAnimationsFrom i durationInTicks props) = Some rs
      /\ Forall2 animatedFrom (skipn i lines) rs.
Proof.
  induction props as [|r rest IH]; intros i Hlen; simpl in Hlen.
  - exists []. split; [reflexivity|].
    rewrite skipn_all2 by lia. constructor.
  - assert (Hi : (i < List.length lines)%nat) by lia.
    destruct (nth_error lines i) as [l|] eqn:Hl;
      [|apply nth_error_None in Hl; lia].
    destruct (IH (S i)) as (rs & Hrs & Hall); [lia|].
    cbn [Content.breathAnimationsFrom Animate.lineGroups Timeline.lineIndex].
    unfold arrayGet.
    destruct (Z.leb_spec 0 (Z.of_nat i)) as [_|]; [|lia].
    rewrite Nat2Z.id, Hl.
    match goal with
    | |- context [getAnimatedLinesWithAnimations ?a [l] tick] =>
        destruct (breath_node_shape easeOutElastic a [l] tick eq_refl)
          as (g & Hg & Hshape)
    end.
    rewrite Hg, Hrs.
    inversion Hshape as [|? l' ? gs Hl' Hnil]; subst.
    inversion Hnil; subst.
    eexists. split; [reflexivity|].
    rewrite (skipn_nth_cons _ _ _ Hl). simpl. constructor; assumption.
Qed.

End TimelineNode.

(** ** The content assigner on well-formed weights *)

Lemma paletteWalk_in_range (ratios : list Q) (i0 : Z) (value : Q) :
  0 <= value -> value < Content.sumRatios ratios ->
  (i0 <= Content.paletteWalk ratios i0 value
   < i0 + Z.of_nat (List.length ratios))%Z.
Proof.
  revert i0 value.
  induction ratios as [|ratio rest IH]; intros i0 value H0 Hsum.
  - unfold Content.sumRatios in Hsum. simpl in Hsum. lra.
  - unfold Content.sumRatios in Hsum. simpl in Hsum.
    cbn [Content.paletteWalk List.length].
    destruct (Qlt_bool value ratio) eqn:Hlt; [lia|].
    apply Qlt_bool_false_iff in Hlt.
    assert (H := IH (i0 + 1)%Z (value - ratio)).
    unfold Content.sumRatios in H.
    assert (H' := H ltac:(lra) ltac:(lra)). lia.
Qed.

Lemma colorPalleteNormalizedValue_range (noise : Q) :
  0 <= Content.colorPalleteNormalizedValue noise
  /\ Content.colorPalleteNormalizedValue noise <= 99 # 100.
Proof.
  unfold Content.colorPalleteNormalizedValue. split.
  - apply Q.min_glb; [|discriminate].
    apply Qle_shift_div_l; [reflexivity|].
    pose proof (Qabs_nonneg noise). lra.
  - apply Q.le_min_r.
Qed.

Lemma arrayGet_in_range {A : Type} (arr : list A) (i : Z) :
  (0 <= i < Z.of_nat (List.length arr))%Z ->
  exists x, arrayGet arr i = Some x /\ In x arr.
Proof.
  intros [H0 H1]. unfold arrayGet.
  destruct (Z.leb_spec 0 i) as [_|]; [|lia].
  destruct (nth_error arr (Z.to_nat i)) as [x|] eqn:E.
  - exists x. split; [reflexivity|]. eapply nth_error_In; eauto.
  - apply nth_error_None in E. lia.
Qed.

Section ContentMore.

Variable Rng : Type.
Variable rand : Rng -> Q * Rng.
Variable randomByWeights : list Q -> Rng -> Z * Rng.
Variable noise2D : Q -> Q -> Q.
Variable foreground : Gene.Foreground.
Variable animation : Gene.Animation.
Variable colorPtOffset : Q * Q.

Local Notation colorPalleteIndex :=
  (Content.colorPalleteIndex noise2D foreground).
Local Notation sprinkledIndex :=
  (Content.sprinkledIndex Rng rand randomByWeights noise2D foreground).
Local Notation rectPropsAt :=
  (Content.rectPropsAt Rng rand randomByWeights noise2D foreground
     animation colorPtOffset).
Local Notation rectPropsFrom :=
  (Content.rectPropsFrom Rng rand randomByWeights noise2D foreground
     animation colorPtOffset).

(** X6: for weights that are binary fractions, the walk hits an index of the
    weights whenever the value is in the range of the normalized values and
    below the sum of the weights; the normalized noise value lies between 0
    and 0.99; so with such weights that sum to more than 0.99 the walk never
    returns the sentinel. *)
Theorem palette_walk_in_range :
  (forall (ratios : list Q) (value : Q),
      forallb binaryFraction ratios = true ->
      0 <= value -> value <= 99 # 100 ->
      value < Content.sumRatios ratios ->
      (0 <= Content.paletteWalk ratios 0 value
       < Z.of_nat (List.length ratios))%Z)
  /\ (forall noise : Q,
         0 <= Content.colorPalleteNormalizedValue noise
         /\ Content.colorPalleteNormalizedValue noise <= 99 # 100)
  /\ (forallb binaryFraction (Gene.colorPalletesRatio foreground) = true ->
      99 # 100 < Content.sumRatios (Gene.colorPalletesRatio foreground) ->
      forall pt : Cord,
        (0 <= colorPalleteIndex pt
         < Z.of_nat (List.length (Gene.colorPalletesRatio foreground)))%Z).
Proof.
  split; [|split].
  - intros ratios value _ H0 _ Hs.
    pose proof (paletteWalk_in_range ratios 0 value H0 Hs). lia.
  - apply colorPalleteNormalizedValue_range.
  - intros _ Hsum pt. unfold Content.colorPalleteIndex.
    pose proof (colorPalleteNormalizedValue_range
                  (noise2D (fst pt) (snd pt))) as [H0 H1].
    pose proof (paletteWalk_in_range
                  (Gene.colorPalletesRatio foreground) 0 _ H0) as H.
    assert (H' := H ltac:(lra)). lia.
Qed.

(** The timing and depth fields of an entry of [rectProps]. *)
Lemma rectPropsAt_fields (i : nat) (l : Grid.GridLine) (g g' : Rng)
    (p : Content.RectProps) :
  rectPropsAt i l g = Some (Some p, g') ->
  (0 <= Content.zIndex p <= 10)%Z
  /\ Content.isVert p = (fst (fst l) =? fst (snd l))%Z
  /\ (exists n : Z,
         Content.startDelayInTicks p = inject_Z n
         /\ (0 <= Gene.bloomMaxStartDelayInTicks animation -> (0 <= n)%Z))
  /\ Content.breathDurationInTicks p
     = Gene.breathDurationInTicksPerUnit animation
       * inject_Z ((if (fst (fst l) =? fst (snd l))%Z
                    then snd (snd l) - snd (fst l)
                    else fst (snd l) - fst (fst l)) + 1).
Proof.
  unfold Content.rectPropsAt.
  destruct (sprinkledIndex (Content.colorPt foreground colorPtOffset l) g)
    as [idx g2].
  destruct (arrayGet (Gene.colorPalletes foreground) idx) as [pal|];
    [|discriminate].
  set (noise := Qabs _ / _).
  assert (Hstart : 0 <= Gene.bloomMaxStartDelayInTicks animation ->
                   (0 <= Qfloor (Gene.bloomMaxStartDelayInTicks animation
                                 * noise))%Z).
  { intro Hb. apply Qfloor_nonneg.
    assert (0 <= noise).
    { unfold noise. apply Qle_shift_div_l; [reflexivity|].
      match goal with |- _ <= Qabs ?x => pose proof (Qabs_nonneg x) end.
      lra. }
    nra. }
  pose proof (Z.mod_pos_bound (Z.of_nat i) 10 ltac:(lia)) as Hmod.
  destruct (String.eqb (Gene.type pal) "simple").
  - destruct (randomByWeights (Gene.colorRatios pal) g2) as [ci g3].
    intros [= <- _]. cbn. repeat split; try lia.
    eexists. split; [reflexivity | exact Hstart].
  - destruct (String.eqb (Gene.type pal) "gradient"); [|discriminate].
    intros [= <- _]. cbn. repeat split; try lia.
    eexists. split; [reflexivity | exact Hstart].
Qed.

(** X7: the fields of an entry of [rectProps]: the depth index is between 0
    and 10; the start delay is a whole number of ticks, non-negative when
    the bloom maximum is; and for a line of the partitioner the breath
    duration is the per-unit duration times the number of cells of the
    line, hence at least one per-unit duration. *)
Theorem rectProps_entry_fields (i : nat) (l : Grid.GridLine) (g g' : Rng)
    (p : Content.RectProps) :
  rectPropsAt i l g = Some (Some p, g') ->
  (fst (fst l) = fst (snd l) \/ snd (fst l) = snd (snd l)) ->
  (fst (fst l) <= fst (snd l))%Z -> (snd (fst l) <= snd (snd l))%Z ->
  (0 <= Content.zIndex p <= 10)%Z
  /\ (exists n : Z,
         Content.startDelayInTicks p = inject_Z n
         /\ (0 <= Gene.bloomMaxStartDelayInTicks animation -> (0 <= n)%Z))
  /\ Content.breathDurationInTicks p
     == Gene.breathDurationInTicksPerUnit animation
        * inject_Z ((fst (snd l) - fst (fst l) + 1)
                    * (snd (snd l) - snd (fst l) + 1))
  /\ (0 <= Gene.breathDurationInTicksPerUnit animation ->
      Gene.breathDurationInTicksPerUnit animation
      <= Content.breathDurationInTicks p).
Proof.
  intros H Haxis Hx Hy.
  destruct (rectPropsAt_fields i l g g' p H) as (Hz & _ & Hs & Hb).
  split; [exact Hz|]. split; [exact Hs|].
  assert (Hcells :
            ((if (fst (fst l) =? fst (snd l))%Z
              then snd (snd l) - snd (fst l)
              else fst (snd l) - fst (fst l)) + 1
             = (fst (snd l) - fst (fst l) + 1)
               * (snd (snd l) - snd (fst l) + 1))%Z).
  { destruct (Z.eqb_spec (fst (fst l)) (fst (snd l))) as [E | E].
    - rewrite E. lia.
    - destruct Haxis as [E' | E']; [contradiction|]. rewrite E'. lia. }
  rewrite Hb, Hcells. split; [reflexivity|].
  intro Hu.
  assert (Hone : (1 <= (fst (snd l) - fst (fst l) + 1)
                       * (snd (snd l) - snd (fst l) + 1))%Z) by nia.
  rewrite Zle_Qle in Hone. change (inject_Z 1) with 1 in Hone. nra.
Qed.

End ContentMore.

Section ContentTotal.

Variable Rng : Type.
Variable rand : Rng -> Q * Rng.
Variable randomByWeights : list Q -> Rng -> Z * Rng.
Variable noise2D : Q -> Q -> Q.
Variable foreground : Gene.Foreground.
Variable animation : Gene.Animation.
Variable colorPtOffset : Q * Q.

Local Notation rectPropsAt :=
  (Content.rectPropsAt Rng rand randomByWeights noise2D foreground
     animation colorPtOffset).
Local Notation rectPropsFrom :=
  (Content.rectPropsFrom Rng rand randomByWeights noise2D foreground
     animation colorPtOffset).

Lemma rectPropsFrom_length (lines : list Grid.GridLine) :
  forall (i : nat) (g g' : Rng) (ps : list (option Content.RectProps)),
    rectPropsFrom i lines g = Some (ps, g') ->
    List.length ps = List.length lines.
Proof.
  induction lines as [|l rest IH]; intros i g g' ps H; simpl in H.
  - injection H as <- _. reflexivity.
  - destruct (rectPropsAt i l g) as [[p g1]|]; [|discriminate].
    destruct (rectPropsFrom (S i) rest g1) as [[ps' g2]|] eqn:E;
      [|discriminate].
    injection H as <- _. simpl. f_equal. eapply IH. exact E.
Qed.

(** The timing of the entries computed for lines of the partitioner. *)
Lemma rectPropsFrom_timing (lines : list Grid.GridLine) :
  0 <= Gene.breathDurationInTicksPerUnit animation ->
  0 <= Gene.bloomMaxStartDelayInTicks animation ->
  Forall Animate.wellShaped lines ->
  forall (i : nat) (g g' : Rng) (ps : list (option Content.RectProps)),
    rectPropsFrom i lines g = Some (ps, g') ->
    Forall (fun entry =>
              forall p, entry = Some p ->
                        0 <= Content.startDelayInTicks p
                        /\ Gene.breathDurationInTicksPerUnit animation
                           <= Content.breathDurationInTicks p) ps.
Proof.
  intros Hu Hb Hshape.
  induction Hshape as [|l rest (Haxis & Hx & Hy) _ IH];
    intros i g g' ps H; simpl in H.
  - injection H as <- _. constructor.
  - destruct (rectPropsAt i l g) as [[p g1]|] eqn:Hat; [|discriminate].
    destruct (rectPropsFrom (S i) rest g1) as [[ps' g2]|] eqn:E;
      [|discriminate].
    injection H as <- _. constructor; [|eapply IH; exact E].
    intros p' ->.
    destruct (rectPropsAt_fields Rng rand randomByWeights noise2D foreground
                animation colorPtOffset i l g g1 p' Hat)
      as (_ & _ & (n & Hn & Hn0) & Hdur).
    split.
    + rewrite Hn. specialize (Hn0 Hb). rewrite Zle_Qle in Hn0. exact Hn0.
    + rewrite Hdur.
      assert (Hone : (1 <= (if (fst (fst l) =? fst (snd l))%Z
                            then snd (snd l) - snd (fst l)
                            else fst (snd l) - fst (fst l)) + 1)%Z)
        by (destruct (fst (fst l) =? fst (snd l))%Z; lia).
      rewrite Zle_Qle in Hone. change (inject_Z 1) with 1 in Hone. nra.
Qed.

Section WellFormed.

(** A well-formed configuration: the weights sum to more than 0.99, there
    is a palette for every weight, and the sprinkle draw is the index of a
    palette. *)
Hypothesis ratios_sum :
  99 # 100 < Content.sumRatios (Gene.colorPalletesRatio foreground).
Hypothesis ratios_length :
  (List.length (Gene.colorPalletesRatio foreground)
   <= List.length (Gene.colorPalletes foreground))%nat.
Hypothesis sprinkle_index :
  forall g : Rng,
    (0 <= fst (randomByWeights (Gene.colorPalletesSprinkleRatio foreground) g)
     < Z.of_nat (List.length (Gene.colorPalletes foreground)))%Z.

Lemma rectPropsAt_succeeds (i : nat) (l : Grid.GridLine) (g : Rng) :
  exists entry g',
    rectPropsAt i l g = Some (entry, g')
    /\ (Forall (fun pal => Gene.type pal = "simple"%string
                           \/ Gene.type pal = "gradient"%string)
          (Gene.colorPalletes foreground) ->
        exists p, entry = Some p).
Proof.
  unfold Content.rectPropsAt.
  set (pt := Content.colorPt foreground colorPtOffset l).
  assert (Hidx : (0 <= fst (Content.sprinkledIndex Rng rand randomByWeights
                              noise2D foreground pt g)
                  < Z.of_nat (List.length (Gene.colorPalletes foreground)))%Z).
  { unfold Content.sprinkledIndex. destruct (rand g) as [r g1].
    destruct (Qlt_bool r (Gene.colorSprinkleRatio foreground)).
    - apply sprinkle_index.
    - cbn [fst]. unfold Content.colorPalleteIndex.
      pose proof (colorPalleteNormalizedValue_range
                    (noise2D (fst pt) (snd pt))) as [H0 H1].
      pose proof (paletteWalk_in_range
                    (Gene.colorPalletesRatio foreground) 0 _ H0) as H.
      assert (H' := H ltac:(lra)). lia. }
  destruct (Content.sprinkledIndex Rng rand randomByWeights noise2D
              foreground pt g) as [idx g2].
  cbn [fst] in Hidx.
  destruct (arrayGet_in_range _ _ Hidx) as (pal & Hpal & Hin).
  rewrite Hpal.
  destruct (String.eqb (Gene.type pal) "simple") eqn:Hs.
  - destruct (randomByWeights (Gene.colorRatios pal) g2) as [ci g3].
    eexists _, _. split; [reflexivity|]. intros _. eauto.
  - destruct (String.eqb (Gene.type pal) "gradient") eqn:Hg.
    + eexists _, _. split; [reflexivity|]. intros _. eauto.
    + eexists _, _. split; [reflexivity|]. intros Htyped.
      rewrite Forall_forall in Htyped.
      apply String.eqb_neq in Hs, Hg.
      destruct (Htyped pal Hin); contradiction.
Qed.

Lemma rectPropsFrom_succeeds (lines : list Grid.GridLine) :
  forall (i : nat) (g : Rng),
    exists ps g',
      rectPropsFrom i lines g = Some (ps, g')
      /\ List.length ps = List.length lines
      /\ (Forall (fun pal => Gene.type pal = "simple"%string
                             \/ Gene.type pal = "gradient"%string)
            (Gene.colorPalletes foreground) ->
          exists props,
            Content.definedProps ps = Some props
            /\ List.length props = List.length lines).
Proof.
  induction lines as [|l rest IH]; intros i g; simpl.
  - exists [], g. repeat split. intros _. exists []. split; reflexivity.
  - destruct (rectPropsAt_succeeds i l g) as (entry & g1 & Hat & Hdef).
    rewrite Hat.
    destruct (IH (S i) g1) as (ps & g2 & Hrest & Hlen & Hdefs).
    rewrite Hrest. eexists _, _. split; [reflexivity|].
    split; [simpl; lia|].
    intros Htyped.
    destruct (Hdef Htyped) as (p & ->).
    destruct (Hdefs Htyped) as (props & Hprops & Hlen').
    exists (p :: props). simpl. rewrite Hprops. split; [reflexivity|].
    simpl. lia.
Qed.

(** X8: with a well-formed configuration whose weights are binary
    fractions, the construction of [rectProps] never reads a palette that
    does not exist: it returns one entry per line, and when every palette is
    of type simple or gradient no entry is the empty object. *)
Theorem rectProps_never_fails (lines : list Grid.GridLine) (g : Rng) :
  forallb binaryFraction (Gene.colorPalletesRatio foreground) = true ->
  exists ps g',
    rectPropsFrom 0 lines g = Some (ps, g')
    /\ List.length ps = List.length lines
    /\ (Forall (fun pal => Gene.type pal = "simple"%string
                           \/ Gene.type pal = "gradient"%string)
          (Gene.colorPalletes foreground) ->
        exists props,
          Content.definedProps ps = Some props
          /\ List.length props = List.length lines).
Proof. intros _. apply rectPropsFrom_succeeds. Qed.

End WellFormed.

End ContentTotal.

(** ** The timeline built by [animate] *)

Lemma breathAnimationsFrom_nth (durationInTicks : Q)
    (props : list Content.RectProps) :
  forall (i k : nat) (a : Timeline.Animation),
    nth_error (Content.breathAnimationsFrom i durationInTicks props) k
    = Some a ->
    exists r,
      nth_error props k = Some r
      /\ Timeline.lineIndex a = Some (Z.of_nat (i + k))
      /\ Timeline.startDelayInTicks a = Content.startDelayInTicks r
      /\ Timeline.durationInTicks a = Content.breathDurationInTicks r
      /\ Timeline.subAnimations a = [].
Proof.
  induction props as [|r rest IH]; intros i k a H; simpl in H.
  - destruct k; discriminate.
  - destruct k as [|k]; simpl in H.
    + injection H as <-. exists r. rewrite Nat.add_0_r. repeat split.
    + destruct (IH (S i) k a H) as (r' & Hr' & Hidx & Hrest).
      exists r'. split; [exact Hr'|].
      split; [|exact Hrest].
      rewrite Hidx. do 2 f_equal. lia.
Qed.

Lemma definedProps_nth (rectProps : list (option Content.RectProps)) :
  forall (props : list Content.RectProps) (k : nat) (r : Content.RectProps),
    Content.definedProps rectProps = Some props ->
    nth_error props k = Some r ->
    nth_error rectProps k = Some (Some r).
Proof.
  induction rectProps as [|[r0|] rest IH]; intros props k r H Hk;
    simpl in H.
  - injection H as <-. destruct k; discriminate.
  - destruct (Content.definedProps rest) as [rs|] eqn:E; [|discriminate].
    injection H as <-. destruct k as [|k]; simpl in *.
    + congruence.
    + eapply IH; eauto.
  - discriminate.
Qed.

(** X9: in the timeline built from [rectProps] the root carries the start
    and end delays of the configuration, and the sub-animation of index [k]
    targets the line of index [k], has no sub-animations of its own, and
    carries the start delay and the breath duration of the entry of index
    [k]. *)
Theorem timelineAnimation_children_bound
    (animation : Gene.Animation)
    (rectProps : list (option Content.RectProps))
    (root : Timeline.Animation) :
  Content.timelineAnimation animation rectProps = Some root ->
  Timeline.startDelayInTicks root = Gene.startDelayInTicks animation
  /\ Timeline.endDelayInTicks root = Gene.endDelayInTicks animation
  /\ forall (k : nat) (a : Timeline.Animation),
       nth_error (Timeline.subAnimations root) k = Some a ->
       Timeline.lineIndex a = Some (Z.of_nat k)
       /\ Timeline.subAnimations a = []
       /\ exists r,
            nth_error rectProps k = Some (Some r)
            /\ Timeline.startDelayInTicks a = Content.startDelayInTicks r
            /\ Timeline.durationInTicks a = Content.breathDurationInTicks r.
Proof.
  unfold Content.timelineAnimation.
  destruct (Content.definedProps rectProps) as [props|] eqn:Hdef;
    [|discriminate].
  destruct (Content.mathMax (map Content.startDelayInTicks props))
    as [maxStart|]; [|discriminate].
  destruct (Content.mathMax (map Content.breathDurationInTicks props))
    as [maxBreath|]; [|discriminate].
  intros [= <-]. cbn [Timeline.startDelayInTicks Timeline.endDelayInTicks
                      Timeline.subAnimations].
  split; [reflexivity|]. split; [reflexivity|].
  intros k a Hk.
  destruct (breathAnimationsFrom_nth _ _ _ _ _ Hk)
    as (r & Hr & Hidx & Hs & Hd & Hsubs).
  split; [exact Hidx|]. split; [exact Hsubs|].
  exists r. split; [|split; assumption].
  eapply definedProps_nth; eauto.
Qed.

Lemma definedProps_In (rectProps : list (option Content.RectProps)) :
  forall (props : list Content.RectProps) (r : Content.RectProps),
    Content.definedProps rectProps = Some props ->
    In r props -> In (Some r) rectProps.
Proof.
  intros props r Hdef Hin.
  destruct (In_nth_error _ _ Hin) as (k & Hk).
  eapply nth_error_In. eapply definedProps_nth; eauto.
Qed.

Lemma mathMax_some_inv (xs : list Q) (m : Q) :
  Content.mathMax xs = Some m -> exists x, In x xs.
Proof.
  destruct xs as [|x rest]; [discriminate|]. intros _. exists x. now left.
Qed.

(** The duration of the root when the entries have non-negative start
    delays and breath durations of at least [u]. *)
Lemma timelineAnimation_duration (animation : Gene.Animation)
    (rectProps : list (option Content.RectProps))
    (root : Timeline.Animation) (u : Q) :
  Content.timelineAnimation animation rectProps = Some root ->
  Forall (fun entry =>
            forall p, entry = Some p ->
                      0 <= Content.startDelayInTicks p
                      /\ u <= Content.breathDurationInTicks p) rectProps ->
  u <= Timeline.durationInTicks root.
Proof.
  unfold Content.timelineAnimation.
  destruct (Content.definedProps rectProps) as [props|] eqn:Hdef;
    [|discriminate].
  destruct (Content.mathMax (map Content.startDelayInTicks props))
    as [maxStart|] eqn:Hms; [|discriminate].
  destruct (Content.mathMax (map Content.breathDurationInTicks props))
    as [maxBreath|] eqn:Hmb; [|discriminate].
  intros [= <-] Hall. cbn [Timeline.durationInTicks].
  rewrite Forall_forall in Hall.
  destruct (mathMax_some_inv _ _ Hms) as (x & Hx).
  apply in_map_iff in Hx. destruct Hx as (r & <- & Hr).
  destruct (Hall (Some r) (definedProps_In _ _ _ Hdef Hr) r eq_refl)
    as [Hs Hb].
  pose proof (mathMax_ge _ _ _ Hms (in_map Content.startDelayInTicks _ _ Hr)).
  pose proof (mathMax_ge _ _ _ Hmb
                (in_map Content.breathDurationInTicks _ _ Hr)).
  lra.
Qed.

(** X10: for lines of the partitioner (on one axis, first endpoint before
    the second), a positive per-unit duration and non-negative delays, the
    timeline built from the computed [rectProps] has an active window of at
    least one per-unit duration and a positive complete duration: the
    remainder [tick % completeTicksDuration] of the frame callback is
    always a number. *)
Theorem built_timeline_loop_positive
    (Rng : Type) (rand : Rng -> Q * Rng)
    (randomByWeights : list Q -> Rng -> Z * Rng) (noise2D : Q -> Q -> Q)
    (foreground : Gene.Foreground) (animation : Gene.Animation)
    (colorPtOffset : Q * Q)
    (lines : list Grid.GridLine) (g g' : Rng)
    (rectProps : list (option Content.RectProps))
    (root : Timeline.Animation) :
  Forall (fun l =>
            (fst (fst l) = fst (snd l) \/ snd (fst l) = snd (snd l))
            /\ (fst (fst l) <= fst (snd l))%Z
            /\ (snd (fst l) <= snd (snd l))%Z) lines ->
  0 < Gene.breathDurationInTicksPerUnit animation ->
  0 <= Gene.bloomMaxStartDelayInTicks animation ->
  0 <= Gene.startDelayInTicks animation ->
  0 <= Gene.endDelayInTicks animation ->
  Content.rectPropsFrom Rng rand randomByWeights noise2D foreground
    animation colorPtOffset 0 lines g = Some (rectProps, g') ->
  Content.timelineAnimation animation rectProps = Some root ->
  Gene.breathDurationInTicksPerUnit animation
  <= Timeline.durationInTicks root
  /\ 0 < Timeline.completeTicksDuration root
  /\ forall tick : Q,
       exists m, jsRem tick (Timeline.completeTicksDuration root) = Some m.
Proof.
  intros Hshape Hu Hb Hs He Hprops Hroot.
  assert (Htiming := rectPropsFrom_timing Rng rand randomByWeights noise2D
                       foreground animation colorPtOffset lines
                       (Qlt_le_weak _ _ Hu) Hb Hshape 0%nat g g' rectProps
                       Hprops).
  pose proof (timelineAnimation_duration animation rectProps root _
                Hroot Htiming) as Hd.
  assert (Hfields : Timeline.startDelayInTicks root
                    = Gene.startDelayInTicks animation
                    /\ Timeline.endDelayInTicks root
                       = Gene.endDelayInTicks animation).
  { revert Hroot. unfold Content.timelineAnimation.
    destruct (Content.definedProps rectProps); [|discriminate].
    destruct (Content.mathMax _); [|discriminate].
    destruct (Content.mathMax _); [|discriminate].
    intros [= <-]. split; reflexivity. }
  destruct Hfields as [Hrs Hre].
  assert (Hc : 0 < Timeline.completeTicksDuration root).
  { unfold Timeline.completeTicksDuration. rewrite Hrs, Hre. lra. }
  split; [exact Hd|]. split; [exact Hc|].
  intro tick. unfold jsRem.
  assert (Hc0 : Qeq_bool (Timeline.completeTicksDuration root) 0 = false)
    by (apply Qeq_bool_false_iff; lra).
  rewrite Hc0. eexists. reflexivity.
Qed.

(** ** The frame callback *)

Section FrameLines.

Variable easeOutElastic : Q -> Q.

Local Notation getAnimatedLinesWithAnimations :=
  (Timeline.getAnimatedLinesWithAnimations easeOutElastic).
Local Notation animateLine := (Timeline.animateLine easeOutElastic).
Local Notation animatedFrom := (Animate.animatedFrom easeOutElastic).

Lemma built_timeline_lines
    (animation : Gene.Animation)
    (rectProps : list (option Content.RectProps))
    (root : Timeline.Animation) (lines : list Line) (tick : Q) :
  Content.timelineAnimation animation rectProps = Some root ->
  List.length lines = List.length rectProps ->
  exists r,
    getAnimatedLinesWithAnimations root lines tick = Some r
    /\ Forall2 animatedFrom lines r.
Proof.
  intros Hroot Hlen.
  assert (Hty : Timeline.type root = "timeline"%string).
  { revert Hroot. unfold Content.timelineAnimation.
    destruct (Content.definedProps rectProps); [|discriminate].
    destruct (Content.mathMax _); [|discriminate].
    destruct (Content.mathMax _); [|discriminate].
    intros [= <-]. reflexivity. }
  rewrite (getAnimatedLines_timeline easeOutElastic root lines tick Hty).
  destruct (jsRem tick (Timeline.completeTicksDuration root)) as [m|];
    [|eexists; split; [reflexivity | apply animatedFrom_same]].
  destruct (Qlt_bool m (Timeline.startDelayInTicks root)).
  { eexists. split; [reflexivity|]. apply animatedFrom_map; lra. }
  destruct (Qge_bool m (Timeline.startDelayInTicks root)
            && Qlt_bool m (Timeline.completeTicksDuration root
                           - Timeline.endDelayInTicks root)).
  - revert Hroot. unfold Content.timelineAnimation.
    destruct (Content.definedProps rectProps) as [props|] eqn:Hdef;
      [|discriminate].
    destruct (Content.mathMax (map Content.startDelayInTicks props))
      as [maxStart|]; [|discriminate].
    destruct (Content.mathMax (map Content.breathDurationInTicks props))
      as [maxBreath|]; [|discriminate].
    intros [= <-]. cbn [Timeline.subAnimations Timeline.startDelayInTicks].
    pose proof (definedProps_length _ _ Hdef) as Hlen'.
    destruct (lineGroups_breath easeOutElastic lines
                (m - Gene.startDelayInTicks animation)
                (maxStart + maxBreath) props 0%nat)
      as (rs & Hrs & Hall); [simpl; lia|].
    exists rs. split; [exact Hrs | exact Hall].
  - destruct (Qge_bool m (Timeline.completeTicksDuration root
                          - Timeline.endDelayInTicks root)).
    + eexists. split; [reflexivity|]. apply animatedFrom_map; lra.
    + eexists. split; [reflexivity | apply animatedFrom_same].
Qed.

(** X11: the timeline built from [rectProps], evaluated on as many lines as
    there are entries, returns at every tick one line per input line, in
    the same order: each is the input line of that index, as it is or
    animated with one of the five types and a proportion between 0 and 1.
    No sub-animation ever picks a line outside the sequence. *)
Theorem built_timeline_frame_lines
    (animation : Gene.Animation)
    (rectProps : list (option Content.RectProps))
    (root : Timeline.Animation) (lines : list Line) (tick : Q) :
  Content.timelineAnimation animation rectProps = Some root ->
  List.length lines = List.length rectProps ->
  exists r,
    getAnimatedLinesWithAnimations root lines tick = Some r
    /\ Forall2 (fun l l' =>
                  l' = l
                  \/ exists (ty : Timeline.AnimateLineType) (proportion : Q),
                       0 <= proportion /\ proportion <= 1
                       /\ l' = animateLine l (Some ty) proportion)
         lines r.
Proof. apply built_timeline_lines. Qed.

End FrameLines.

Lemma Forall2_length_eq {A B : Type} (R : A -> B -> Prop)
    (xs : list A) (ys : list B) :
  Forall2 R xs ys -> List.length xs = List.length ys.
Proof. induction 1; simpl; congruence. Qed.

Lemma convert_succeeds (sketchContext : Converter.SketchContext)
    (gridPartitioning : Converter.GridPartitioning)
    (lines : list Line) (lineProps : list Converter.LineProps) :
  (List.length lines <= List.length lineProps)%nat ->
  exists rects,
    Converter.convertGridLinesToRects sketchContext gridPartitioning
      lines lineProps = Some rects
    /\ List.length rects = List.length lines.
Proof.
  intro Hlen.
  destruct (scaleLinesFrom_spec gridPartitioning lines lineProps 0%nat)
    as (rs & Hrs & Hlen' & _); [simpl; lia|].
  unfold Converter.convertGridLinesToRects. rewrite Hrs.
  eexists. split; [reflexivity|]. now rewrite length_map.
Qed.

Lemma scaleLinesFrom_fails (gridPartitioning : Converter.GridPartitioning)
    (lines : list Line) (lineProps : list Converter.LineProps) :
  forall i : nat,
    (i <= List.length lineProps)%nat ->
    (List.length lineProps < i + List.length lines)%nat ->
    Converter.scaleLinesFrom gridPartitioning i lines lineProps = None.
Proof.
  induction lines as [|l rest IH]; intros i Hi Hlen; simpl in *; [lia|].
  destruct (nth_error lineProps i) as [p|] eqn:Hp; [|reflexivity].
  assert (i < List.length lineProps)%nat
    by (apply nth_error_Some; congruence).
  rewrite IH; [reflexivity | lia | lia].
Qed.

(** X12: the converter fails exactly when there are more lines than line
    properties; otherwise it returns one rectangle per line. *)
Theorem convertGridLinesToRects_fails_iff
    (sketchContext : Converter.SketchContext)
    (gridPartitioning : Converter.GridPartitioning)
    (lines : list Line) (lineProps : list Converter.LineProps) :
  (Converter.convertGridLinesToRects sketchContext gridPartitioning
     lines lineProps = None
   <-> (List.length lineProps < List.length lines)%nat)
  /\ forall rects,
       Converter.convertGridLinesToRects sketchContext gridPartitioning
         lines lineProps = Some rects ->
       List.length rects = List.length lines.
Proof.
  split; [split|].
  - intro Hnone.
    destruct (Nat.lt_ge_cases (List.length lineProps) (List.length lines))
      as [Hlt | Hge]; [exact Hlt|].
    destruct (convert_succeeds sketchContext gridPartitioning lines
                lineProps Hge) as (rects & Hsome & _).
    congruence.
  - intro Hlt. unfold Converter.convertGridLinesToRects.
    rewrite scaleLinesFrom_fails; [reflexivity | lia | simpl; lia].
  - intros rects Hsome.
    destruct (Nat.lt_ge_cases (List.length lineProps) (List.length lines))
      as [Hlt | Hge].
    + unfold Converter.convertGridLinesToRects in Hsome.
      rewrite scaleLinesFrom_fails in Hsome; [discriminate | lia | simpl; lia].
    + destruct (convert_succeeds sketchContext gridPartitioning lines
                  lineProps Hge) as (rects' & Hsome' & Hlen).
      congruence.
Qed.

(** X13: with a jitter ratio of one, the rectangle of a block of cells
    spans the units of its cells and the gaps between them, and not the gap
    after the last cell; the rectangle of the whole grid is the total grid
    bound, from [topLeft] on. *)
Theorem rect_spans_units_and_inner_gaps
    (sketchContext : Converter.SketchContext)
    (gridPartitioning : Converter.GridPartitioning)
    (l : Grid.GridLine) (p : Converter.LineProps) :
  fst (Converter.gitterRatio p) == 1 ->
  snd (Converter.gitterRatio p) == 1 ->
  let unitSize := Converter.unitSize gridPartitioning in
  let gap := Converter.gap gridPartitioning in
  let topLeft := Converter.topLeft sketchContext gridPartitioning in
  let total := Converter.totalGridBounds gridPartitioning in
  exists r,
    Converter.convertGridLinesToRects sketchContext gridPartitioning
      [Grid.lineOfGrid l] [p] = Some [r]
    /\ fst (snd r) - fst (fst r)
       == fst unitSize * inject_Z (fst (snd l) - fst (fst l) + 1)
          + gap * inject_Z (fst (snd l) - fst (fst l))
    /\ snd (snd r) - snd (fst r)
       == snd unitSize * inject_Z (snd (snd l) - snd (fst l) + 1)
          + gap * inject_Z (snd (snd l) - snd (fst l))
    /\ (forall w h : Z,
           l = ((0, 0), (w - 1, h - 1))%Z ->
           fst (Converter.gridSizeInUnits gridPartitioning) == inject_Z w ->
           snd (Converter.gridSizeInUnits gridPartitioning) == inject_Z h ->
           fst (fst r) == fst topLeft /\ snd (fst r) == snd topLeft
           /\ fst (snd r) == fst topLeft + fst total
           /\ snd (snd r) == snd topLeft + snd total).
Proof.
  intros Hjx Hjy unitSize gap topLeft total.
  eexists. split; [reflexivity|].
  unfold Converter.translateRect, Converter.scaleLine, Grid.lineOfGrid.
  cbn [fst snd].
  unfold Z.sub. rewrite !inject_Z_plus, !inject_Z_opp.
  change (inject_Z 1) with 1. rewrite Hjx, Hjy.
  split; [unfold unitSize, gap; ring|].
  split; [unfold unitSize, gap; ring|].
  intros w h -> Hw Hh. cbn [fst snd].
  unfold total, topLeft, unitSize, gap, Converter.totalGridBounds.
  cbn [fst snd]. unfold Z.sub.
  rewrite Hw, Hh, !inject_Z_plus, !inject_Z_opp.
  change (inject_Z 1) with 1. change (inject_Z 0) with 0.
  repeat split; rewrite ?Hjx, ?Hjy; ring.
Qed.

Section FrameFacts.

Variable easeOutElastic : Q -> Q.
Variable sketchContext : Converter.SketchContext.
Variable parallax : Animate.Parallax.
Variable gap : Q.
Variable unitSize : Q * Q.
Variable w h : Z.

Local Notation frameRects :=
  (Animate.frameRects easeOutElastic sketchContext gap unitSize w h).
Local Notation pointerOffset := (Animate.pointerOffset sketchContext parallax).
Local Notation offsetReturnCoeff := (Animate.offsetReturnCoeff parallax).
Local Notation frameOffset := (Animate.frameOffset sketchContext parallax).

Lemma frameRects_total
    (animation : Gene.Animation)
    (rectProps : list (option Content.RectProps))
    (root : Timeline.Animation) (lines : list Line)
    (lineProps : list Converter.LineProps) (tick : Q) :
  Content.timelineAnimation animation rectProps = Some root ->
  List.length lines = List.length rectProps ->
  (List.length lines <= List.length lineProps)%nat ->
  exists rects,
    frameRects lines lineProps root tick = Some rects
    /\ List.length rects = List.length lines.
Proof.
  intros Hroot Hlen Hprops. unfold Animate.frameRects.
  destruct (built_timeline_lines easeOutElastic animation rectProps root
              lines tick Hroot Hlen) as (r & Hr & Hall).
  rewrite Hr. apply Forall2_length_eq in Hall.
  destruct (convert_succeeds sketchContext
              (Animate.gridPartitioning gap unitSize w h) r lineProps)
    as (rects & Hrects & Hlen'); [lia|].
  exists rects. split; [exact Hrects | lia].
Qed.

(** X14: for the timeline built from [rectProps], with one entry and at
    least one line property per line, the frame callback computes at every
    tick one rectangle per line: neither the engine nor the converter
    fails. *)
Theorem frame_rects_total
    (animation : Gene.Animation)
    (rectProps : list (option Content.RectProps))
    (root : Timeline.Animation) (lines : list Line)
    (lineProps : list Converter.LineProps) (tick : Q) :
  Content.timelineAnimation animation rectProps = Some root ->
  List.length lines = List.length rectProps ->
  (List.length lines <= List.length lineProps)%nat ->
  exists rects,
    frameRects lines lineProps root tick = Some rects
    /\ List.length rects = List.length lines.
Proof. apply frameRects_total. Qed.

Lemma offsetReturnCoeff_spec (last tick : Q) :
  0 < Animate.animationTickCount parallax ->
  0 <= tick - last ->
  exists coeff,
    offsetReturnCoeff last tick = Some coeff
    /\ 0 <= coeff /\ coeff <= 1
    /\ (Animate.animationTickCount parallax <= tick - last -> coeff == 0)
    /\ (tick == last -> coeff == 1).
Proof.
  intros Hn Hd. unfold Animate.offsetReturnCoeff.
  set (n := Animate.animationTickCount parallax) in *.
  assert (Hn0 : Qeq_bool n 0 = false) by (apply Qeq_bool_false_iff; lra).
  rewrite Hn0. eexists. split; [reflexivity|].
  set (x := Qmin (tick - last) n / n).
  assert (Hx0 : 0 <= x).
  { unfold x. apply Qle_shift_div_l; [exact Hn|].
    apply Q.min_glb; lra. }
  assert (Hx1 : x <= 1).
  { unfold x. apply Qle_shift_div_r; [exact Hn|].
    pose proof (Q.le_min_r (tick - last) n). lra. }
  split; [nra|]. split; [nra|]. split.
  - intro Hge. assert (E : x == 1).
    { unfold x. rewrite (Q.min_r _ _ Hge). field. lra. }
    rewrite E. ring.
  - intro Heq. assert (E : x == 0).
    { unfold x. rewrite Q.min_l by lra.
      setoid_replace (tick - last) with 0 by lra. field. lra. }
    rewrite E. ring.
Qed.

(** X15: with the pointer outside the canvas and a positive animation tick
    count, the offset of the frame is the pointer offset scaled by a
    coefficient between 0 and 1; it is the whole pointer offset at the tick
    the pointer was last seen inside, and exactly zero from
    [animationTickCount] ticks later on; the tick last seen inside is left
    unchanged. *)
Theorem parallax_returns_to_rest (mouseCords : Cord) (last tick : Q) :
  0 < Animate.animationTickCount parallax ->
  0 <= tick - last ->
  exists coeff offset,
    frameOffset mouseCords false last tick = (Some offset, last)
    /\ 0 <= coeff /\ coeff <= 1
    /\ fst offset == fst (pointerOffset mouseCords) * coeff
    /\ snd offset == snd (pointerOffset mouseCords) * coeff
    /\ (tick == last ->
        Cord_eq offset (pointerOffset mouseCords))
    /\ (Animate.animationTickCount parallax <= tick - last ->
        Cord_eq offset (0, 0)).
Proof.
  intros Hn Hd.
  destruct (offsetReturnCoeff_spec last tick Hn Hd)
    as (coeff & Hc & H0 & H1 & Hrest & Hfull).
  unfold Animate.frameOffset. cbn [negb]. rewrite Hc.
  exists coeff. eexists. split; [reflexivity|].
  split; [exact H0|]. split; [exact H1|].
  cbn [fst snd]. split; [reflexivity|]. split; [reflexivity|].
  split.
  - intro E. specialize (Hfull E). split; cbn [fst snd]; rewrite Hfull; ring.
  - intro E. specialize (Hrest E). split; cbn [fst snd]; rewrite Hrest; ring.
Qed.

(** X16: the return coefficient does not grow with the tick: the longer
    the pointer has been outside, the smaller the offset. *)
Theorem parallax_coefficient_decreases (last tick tick' : Q) :
  0 < Animate.animationTickCount parallax ->
  0 <= tick - last -> tick <= tick' ->
  exists coeff coeff',
    offsetReturnCoeff last tick = Some coeff
    /\ offsetReturnCoeff last tick' = Some coeff'
    /\ coeff' <= coeff.
Proof.
  intros Hn Hd Hle. unfold Animate.offsetReturnCoeff.
  set (n := Animate.animationTickCount parallax) in *.
  assert (Hn0 : Qeq_bool n 0 = false) by (apply Qeq_bool_false_iff; lra).
  rewrite Hn0. eexists _, _. split; [reflexivity|]. split; [reflexivity|].
  set (x := Qmin (tick - last) n / n).
  set (x' := Qmin (tick' - last) n / n).
  assert (Hx0 : 0 <= x).
  { unfold x. apply Qle_shift_div_l; [exact Hn|]. apply Q.min_glb; lra. }
  assert (Hxx : x <= x').
  { unfold x, x'. apply Qle_shift_div_l; [exact Hn|].
    setoid_replace (Qmin (tick - last) n / n * n) with (Qmin (tick - last) n)
      by (field; lra).
    apply Q.min_le_compat_r. lra. }
  nra.
Qed.

(** With the pointer inside the canvas the offset is the pointer offset,
    zero at the centre, and the tick is recorded as the last one seen
    inside. *)
Lemma frameOffset_inside_canvas (mouseCords : Cord) (last tick : Q) :
  frameOffset mouseCords true last tick
  = (Some (pointerOffset mouseCords), tick)
  /\ (fst mouseCords == Converter.width sketchContext / 2 ->
      snd mouseCords == Converter.height sketchContext / 2 ->
      Cord_eq (pointerOffset mouseCords) (0, 0))
  /\ (0 <= fst (Animate.offsetStrength parallax) ->
      Converter.width sketchContext / 2 <= fst mouseCords ->
      fst (pointerOffset mouseCords) <= 0).
Proof.
  split; [reflexivity|]. unfold Animate.pointerOffset. split.
  - intros Hx Hy. split; cbn [fst snd]; rewrite ?Hx, ?Hy; ring.
  - intros Hs Hx. cbn [fst]. nra.
Qed.

End FrameFacts.

(** ** The regeneration step *)

Section LineProps.

Variable Rng : Type.
Variable randomFloat : Q -> Q -> Rng -> Q * Rng.
Variable gitter : Q * Q.

Local Notation makeLineProps := (Animate.makeLineProps Rng randomFloat gitter).

Lemma makeLineProps_length (lines : list Grid.GridLine) (g : Rng) :
  List.length (fst (makeLineProps lines g)) = List.length lines.
Proof.
  revert g. induction lines as [|l rest IH]; intro g; simpl; [reflexivity|].
  destruct (randomFloat (fst gitter) (snd gitter) g) as [a g1].
  destruct (randomFloat (fst gitter) (snd gitter) g1) as [b g2].
  specialize (IH g2). destruct (makeLineProps rest g2) as [ps g3].
  simpl in *. congruence.
Qed.

(** X17: when the float draw [random (min, max)] stays within its range,
    every jitter ratio computed by [animate] lies between [1 - gitter[1]]
    and [1 - gitter[0]], and there is one pair of ratios per line; with the
    default gitter [[0, 0]] every ratio is one. *)
Theorem lineProps_jitter_range (lines : list Grid.GridLine) (g : Rng) :
  (forall (lo hi : Q) (g : Rng),
      lo <= hi ->
      lo <= fst (randomFloat lo hi g) /\ fst (randomFloat lo hi g) <= hi) ->
  fst gitter <= snd gitter ->
  List.length (fst (makeLineProps lines g)) = List.length lines
  /\ Forall (fun p =>
               1 - snd gitter <= fst (Converter.gitterRatio p)
               /\ fst (Converter.gitterRatio p) <= 1 - fst gitter
               /\ 1 - snd gitter <= snd (Converter.gitterRatio p)
               /\ snd (Converter.gitterRatio p) <= 1 - fst gitter)
       (fst (makeLineProps lines g))
  /\ (fst gitter == 0 -> snd gitter == 0 ->
      Forall (fun p => fst (Converter.gitterRatio p) == 1
                       /\ snd (Converter.gitterRatio p) == 1)
        (fst (makeLineProps lines g))).
Proof.
  intros Hrange Hg.
  assert (Hall : Forall (fun p =>
               1 - snd gitter <= fst (Converter.gitterRatio p)
               /\ fst (Converter.gitterRatio p) <= 1 - fst gitter
               /\ 1 - snd gitter <= snd (Converter.gitterRatio p)
               /\ snd (Converter.gitterRatio p) <= 1 - fst gitter)
            (fst (makeLineProps lines g))).
  { revert g. induction lines as [|l rest IH]; intro g; simpl;
      [constructor|].
    pose proof (Hrange (fst gitter) (snd gitter) g Hg) as Ha.
    destruct (randomFloat (fst gitter) (snd gitter) g) as [a g1].
    pose proof (Hrange (fst gitter) (snd gitter) g1 Hg) as Hb.
    destruct (randomFloat (fst gitter) (snd gitter) g1) as [b g2].
    specialize (IH g2). destruct (makeLineProps rest g2) as [ps g3].
    simpl in *. constructor; [|exact IH]. simpl. lra. }
  split; [apply makeLineProps_length|]. split; [exact Hall|].
  intros H0 H1. eapply Forall_impl; [|exact Hall].
  intros p (A & B & C & D). split; lra.
Qed.

End LineProps.

Lemma timelineAnimation_defined (animation : Gene.Animation)
    (rectProps : list (option Content.RectProps))
    (props : list Content.RectProps) :
  Content.definedProps rectProps = Some props ->
  props <> [] ->
  exists root, Content.timelineAnimation animation rectProps = Some root.
Proof.
  intros Hdef Hne. unfold Content.timelineAnimation. rewrite Hdef.
  destruct props as [|r rest]; [contradiction|].
  simpl. eexists. reflexivity.
Qed.

Section Regeneration.

Variable Rng : Type.
Variable rand : Rng -> Q * Rng.
Variable randomInt : Z -> Z -> Rng -> Z * Rng.
Variable randomFloat : Q -> Q -> Rng -> Q * Rng.
Variable randomByWeights : list Q -> Rng -> Z * Rng.
Variable noise2D : Q -> Q -> Q.
Variable easeOutElastic : Q -> Q.
Variable sketchContext : Converter.SketchContext.
Variable foreground : Gene.Foreground.
Variable animation : Gene.Animation.
Variable gitter : Q * Q.
Variable gap : Q.
Variable unitSize : Q * Q.
Variable w h : Z.

Local Notation animate :=
  (Animate.animate Rng rand randomInt randomFloat randomByWeights noise2D
     sketchContext foreground animation gitter gap unitSize w h).
Local Notation frameRects :=
  (Animate.frameRects easeOutElastic sketchContext gap unitSize w h).

Lemma animate_inv (fuel : nat) (g g' : Rng) (scene : Animate.Scene) :
  animate fuel g = Some (scene, g') ->
  exists g1 g4 g5 colorPtOffset,
    Grid.generateGridPartitioningInGridUnits Rng rand randomInt fuel
      (0, 0)%Z (w - 1, h - 1)%Z (1 # 2) g
    = Some (Animate.lines scene, g1)
    /\ Animate.lineProps scene
       = fst (Animate.makeLineProps Rng randomFloat gitter
                (Animate.lines scene) g1)
    /\ Content.rectPropsFrom Rng rand randomByWeights noise2D foreground
         animation colorPtOffset 0 (Animate.lines scene) g4
       = Some (Animate.rectProps scene, g5)
    /\ Converter.convertGridLinesToRects sketchContext
         (Animate.gridPartitioning gap unitSize w h)
         (map Grid.lineOfGrid (Animate.lines scene))
         (Animate.lineProps scene)
       = Some (Animate.backgroundRects scene)
    /\ Animate.timelineAnimation scene
       = Content.timelineAnimation animation (Animate.rectProps scene).
Proof.
  unfold Animate.animate.
  destruct (Grid.generateGridPartitioningInGridUnits Rng rand randomInt fuel
              (0, 0)%Z (w - 1, h - 1)%Z (1 # 2) g) as [[lines g1]|];
    [|discriminate].
  destruct (Animate.makeLineProps Rng randomFloat gitter lines g1)
    as [lineProps g2] eqn:Hlp.
  destruct (randomInt 0 10000 g2) as [o0 g3].
  destruct (randomInt 0 10000 g3) as [o1 g4].
  destruct (Content.rectPropsFrom Rng rand randomByWeights noise2D
              foreground animation (inject_Z o0, inject_Z o1) 0 lines g4)
    as [[rectProps g5]|] eqn:Hrp; [|discriminate].
  destruct (Converter.convertGridLinesToRects sketchContext
              (Animate.gridPartitioning gap unitSize w h)
              (map Grid.lineOfGrid lines) lineProps)
    as [backgroundRects|] eqn:Hbg; [|discriminate].
  intros [= <- _]. cbn.
  exists g1, g4, g5, (inject_Z o0, inject_Z o1).
  rewrite Hlp. auto.
Qed.

(** X18: when [animate] reaches the registration of the frame callback on
    a grid of at least one unit each way, the lines are not empty, each
    lies on one axis from its first endpoint to its second, there is one
    line property, one entry of [rectProps] and one background rectangle
    per line, and, when the timeline is defined, the frame callback
    computes at every tick one rectangle per line. *)
Theorem animate_scene_aligned (fuel : nat) (g g' : Rng)
    (scene : Animate.Scene) :
  (1 <= w)%Z -> (1 <= h)%Z ->
  animate fuel g = Some (scene, g') ->
  Animate.lines scene <> []
  /\ Forall (fun l =>
               (fst (fst l) = fst (snd l) \/ snd (fst l) = snd (snd l))
               /\ (fst (fst l) <= fst (snd l))%Z
               /\ (snd (fst l) <= snd (snd l))%Z) (Animate.lines scene)
  /\ List.length (Animate.lineProps scene)
     = List.length (Animate.lines scene)
  /\ List.length (Animate.rectProps scene)
     = List.length (Animate.lines scene)
  /\ List.length (Animate.backgroundRects scene)
     = List.length (Animate.lines scene)
  /\ forall (root : Timeline.Animation) (tick : Q),
       Animate.timelineAnimation scene = Some root ->
       exists rects,
         frameRects (map Grid.lineOfGrid (Animate.lines scene))
           (Animate.lineProps scene) root tick = Some rects
         /\ List.length rects = List.length (Animate.lines scene).
Proof.
  intros Hw Hh Hrun.
  destruct (animate_inv fuel g g' scene Hrun)
    as (g1 & g4 & g5 & off & Hgen & Hlp & Hrp & Hbg & Htl).
  destruct (generate_well_shaped Rng rand randomInt fuel (0, 0)%Z
              (w - 1, h - 1)%Z (1 # 2) g g1 (Animate.lines scene))
    as [Hne Hshape]; [simpl; lia | simpl; lia | exact Hgen |].
  assert (Hlen1 : List.length (Animate.lineProps scene)
                  = List.length (Animate.lines scene))
    by (rewrite Hlp; apply makeLineProps_length).
  assert (Hlen2 : List.length (Animate.rectProps scene)
                  = List.length (Animate.lines scene))
    by (eapply rectPropsFrom_length; exact Hrp).
  split; [exact Hne|]. split; [exact Hshape|].
  split; [exact Hlen1|]. split; [exact Hlen2|]. split.
  - destruct (convert_succeeds sketchContext
                (Animate.gridPartitioning gap unitSize w h)
                (map Grid.lineOfGrid (Animate.lines scene))
                (Animate.lineProps scene))
      as (rects & Hrects & Hlen); [rewrite length_map; lia|].
    rewrite Hbg in Hrects. injection Hrects as ->.
    rewrite Hlen, length_map. reflexivity.
  - intros root tick Hroot. rewrite Htl in Hroot.
    destruct (frameRects_total easeOutElastic sketchContext gap unitSize w h
                animation (Animate.rectProps scene) root
                (map Grid.lineOfGrid (Animate.lines scene))
                (Animate.lineProps scene) tick Hroot)
      as (rects & Hrects & Hlen); rewrite ?length_map; try lia.
    exists rects. split; [exact Hrects|]. now rewrite length_map in Hlen.
Qed.

(** X19: a well-formed run reaches the frame callback.  When every cut
    coordinate drawn lies inside its region, the weights are binary
    fractions that sum to more than 0.99, there is a palette for every
    weight, every palette is of type simple or gradient and the sprinkle
    draw is the index of a palette, [animate] returns on every grid of at
    least one unit each way (with fuel for [w + h] nested calls), and the
    timeline is defined. *)
Theorem animate_reaches_frames (fuel : nat) (g : Rng) :
  (forall (lo hi : Z) (g : Rng),
      (lo - 1 <= hi)%Z -> (lo - 1 <= fst (randomInt lo hi g) <= hi)%Z) ->
  forallb binaryFraction (Gene.colorPalletesRatio foreground) = true ->
  99 # 100 < Content.sumRatios (Gene.colorPalletesRatio foreground) ->
  (List.length (Gene.colorPalletesRatio foreground)
   <= List.length (Gene.colorPalletes foreground))%nat ->
  (forall g : Rng,
      (0 <= fst (randomByWeights (Gene.colorPalletesSprinkleRatio foreground) g)
       < Z.of_nat (List.length (Gene.colorPalletes foreground)))%Z) ->
  Forall (fun pal => Gene.type pal = "simple"%string
                     \/ Gene.type pal = "gradient"%string)
    (Gene.colorPalletes foreground) ->
  (1 <= w)%Z -> (1 <= h)%Z ->
  (Z.to_nat (w + h) <= fuel)%nat ->
  exists scene g' root,
    animate fuel g = Some (scene, g')
    /\ Animate.timelineAnimation scene = Some root
    /\ Grid.tilesRegion (0, 0)%Z (w - 1, h - 1)%Z (Animate.lines scene).
Proof.
  intros Hcut _ Hsum Hlen Hsprinkle Htyped Hw Hh Hfuel.
  destruct (generate_tiles Rng rand randomInt Hcut fuel (0, 0)%Z
              (w - 1, h - 1)%Z (1 # 2) g)
    as (lines & g1 & Hgen & Htiles); [simpl; lia | simpl; lia | simpl; lia |].
  destruct (generate_well_shaped Rng rand randomInt fuel (0, 0)%Z
              (w - 1, h - 1)%Z (1 # 2) g g1 lines)
    as [Hne _]; [simpl; lia | simpl; lia | exact Hgen |].
  unfold Animate.animate. rewrite Hgen.
  pose proof (makeLineProps_length Rng randomFloat gitter lines g1) as Hlp.
  destruct (Animate.makeLineProps Rng randomFloat gitter lines g1)
    as [lineProps g2]. cbn [fst] in Hlp.
  destruct (randomInt 0 10000 g2) as [o0 g3].
  destruct (randomInt 0 10000 g3) as [o1 g4].
  destruct (rectPropsFrom_succeeds Rng rand randomByWeights noise2D
              foreground animation (inject_Z o0, inject_Z o1)
              Hsum Hlen Hsprinkle lines 0%nat g4)
    as (ps & g5 & Hps & Hpslen & Hdef).
  rewrite Hps.
  destruct (convert_succeeds sketchContext
              (Animate.gridPartitioning gap unitSize w h)
              (map Grid.lineOfGrid lines) lineProps)
    as (rects & Hrects & _); [rewrite length_map; lia|].
  rewrite Hrects.
  destruct (Hdef Htyped) as (props & Hprops & Hpropslen).
  destruct (timelineAnimation_defined animation ps props Hprops)
    as (root & Hroot).
  { destruct props; [|discriminate]. destruct lines; [contradiction|].
    discriminate. }
  eexists _, _, root. split; [reflexivity|]. cbn.
  split; [exact Hroot | exact Htiles].
Qed.

End Regeneration.

(** ** Instances of the further properties *)

Lemma sample_randomFloat_in_range (lo hi : Q) (g : nat) :
  lo <= hi ->
  lo <= fst (SampleScene.randomFloat lo hi g)
  /\ fst (SampleScene.randomFloat lo hi g) <= hi.
Proof.
  intro H. unfold SampleScene.randomFloat. cbn [fst].
  split; [apply Qle_shift_div_l | apply Qle_shift_div_r]; lra.
Qed.

Lemma partition_lines_well_shaped_witness :
  [((0, 0), (0, 0)); ((0, 1), (0, 1)); ((1, 0), (1, 1));
   ((2, 0), (2, 0)); ((2, 1), (2, 1))]%Z <> []
  /\ Forall (fun l : Grid.GridLine =>
               (fst (fst l) = fst (snd l) \/ snd (fst l) = snd (snd l))
               /\ (fst (fst l) <= fst (snd l))%Z
               /\ (snd (fst l) <= snd (snd l))%Z)
       [((0, 0), (0, 0)); ((0, 1), (0, 1)); ((1, 0), (1, 1));
        ((2, 0), (2, 0)); ((2, 1), (2, 1))]%Z.
Proof.
  apply (partition_lines_well_shaped nat Sample.rand Sample.random 3
           (0, 0)%Z (2, 1)%Z (1 # 2) 0%nat 4%nat).
  - simpl. lia.
  - simpl. lia.
  - reflexivity.
Defined.

Lemma breath_evaluation_shape_witness :
  exists (ty : Timeline.AnimateLineType) (proportion : Q),
    Timeline.breathStep (Timeline.durationInTicks Sample.breath)
      (25 - Timeline.startDelayInTicks Sample.breath)
    = (Some ty, proportion)
    /\ In ty Timeline.animationSequence
    /\ 0 <= proportion /\ proportion < 1
    /\ Timeline.getAnimatedLinesWithAnimations Sample.easeLinear
         Sample.breath [Sample.vertical] 25
       = Some (map (fun l => Timeline.animateLine Sample.easeLinear l
                               (Some ty) proportion) [Sample.vertical]).
Proof.
  destruct (breath_evaluation_shape Sample.easeLinear Sample.breath
              [Sample.vertical] 25) as [_ Hsome];
    try reflexivity; try (simpl; discriminate).
  destruct (Hsome 25 eq_refl) as [_ Hactive].
  apply Hactive; [simpl; discriminate | reflexivity].
Defined.

Lemma hold_in_every_cycle_witness :
  Timeline64.getAnimatedLinesWithAnimations Sample64.easeLinear
    Sample64.wholeBreath [Binary64.lineOfGrid Sample64.vertical]
    (Binary64.ofZ 165)
  = Some [Binary64.lineOfGrid Sample64.vertical].
Proof.
  apply (hold_in_every_cycle Sample64.easeLinear Sample64.wholeBreath
           10 40 30 165 [Sample64.vertical]); try reflexivity; try lia.
  - constructor; [repeat split; reflexivity | constructor].
  - left. reflexivity.
Defined.

Lemma subphases_join_witness :
  Line_eq (Timeline.animateLine Sample.easeLinear Sample.vertical
             (Some Timeline.start_expand) 1)
    (Timeline.animateLine Sample.easeLinear Sample.vertical
       (Some Timeline.start_suck) 0).
Proof.
  destruct (subphases_join Sample.easeLinear Sample.vertical)
    as (_ & H & _); [reflexivity | reflexivity | exact H].
Defined.

Lemma animateLine_interpolates_witness :
  snd (snd (Timeline.animateLine Sample.easeLinear Sample.vertical
              (Some Timeline.end_suck) (1 # 4)))
  == snd (fst Sample.vertical)
     + (snd (snd Sample.vertical) - snd (fst Sample.vertical))
       * snd (Timeline.animateRatios Sample.easeLinear
                (Some Timeline.end_suck) (1 # 4)).
Proof.
  destruct (animateLine_interpolates Sample.easeLinear Sample.vertical
              (Some Timeline.end_suck) (1 # 4)) as (_ & _ & _ & H);
    [left; reflexivity | exact H].
Defined.

Lemma palette_walk_in_range_witness :
  (0 <= Content.colorPalleteIndex Sample.noise2D SampleScene.foreground
          (0, 0)%Q
   < Z.of_nat (List.length (Gene.colorPalletesRatio SampleScene.foreground)))%Z.
Proof.
  apply (proj2 (proj2 (palette_walk_in_range Sample.noise2D
                         SampleScene.foreground))).
  - reflexivity.
  - reflexivity.
Defined.

Lemma rectProps_entry_fields_witness :
  exists p g',
    Content.rectPropsAt nat Sample.rand Sample.randomByWeights Sample.noise2D
      SampleScene.foreground Sample.animation (0, 0) 3 ((1, 0), (1, 2))%Z
      0%nat = Some (Some p, g')
    /\ Gene.breathDurationInTicksPerUnit Sample.animation
       <= Content.breathDurationInTicks p.
Proof.
  destruct (Content.rectPropsAt nat Sample.rand Sample.randomByWeights
              Sample.noise2D SampleScene.foreground Sample.animation (0, 0)
              3 ((1, 0), (1, 2))%Z 0%nat) as [[[p|] g']|] eqn:E;
    [| vm_compute in E; discriminate E | vm_compute in E; discriminate E].
  exists p, g'. split; [reflexivity|].
  apply (rectProps_entry_fields nat Sample.rand Sample.randomByWeights
           Sample.noise2D SampleScene.foreground Sample.animation (0, 0)
           3 ((1, 0), (1, 2))%Z 0%nat g' p E).
  - left. reflexivity.
  - simpl. lia.
  - simpl. lia.
  - discriminate.
Defined.

Lemma rectProps_never_fails_witness :
  exists ps g',
    Content.rectPropsFrom nat Sample.rand Sample.randomByWeights
      Sample.noise2D SampleScene.foreground Sample.animation (0, 0) 0
      [((0, 0), (0, 1)); ((1, 0), (1, 1))]%Z 0%nat = Some (ps, g')
    /\ List.length ps = 2%nat
    /\ (Forall (fun pal => Gene.type pal = "simple"%string
                           \/ Gene.type pal = "gradient"%string)
          (Gene.colorPalletes SampleScene.foreground) ->
        exists props,
          Content.definedProps ps = Some props
          /\ List.length props = 2%nat).
Proof.
  apply (rectProps_never_fails nat Sample.rand Sample.randomByWeights
           Sample.noise2D SampleScene.foreground Sample.animation (0, 0)).
  - reflexivity.
  - simpl. lia.
  - intro g. simpl. lia.
  - reflexivity.
Defined.

Lemma timelineAnimation_children_bound_witness :
  exists root,
    Content.timelineAnimation Sample.animation Sample.rectProps = Some root
    /\ forall (k : nat) (a : Timeline.Animation),
         nth_error (Timeline.subAnimations root) k = Some a ->
         Timeline.lineIndex a = Some (Z.of_nat k).
Proof.
  eexists. split; [reflexivity|]. intros k a Hk.
  destruct (timelineAnimation_children_bound Sample.animation
              Sample.rectProps _ eq_refl) as (_ & _ & H).
  destruct (H k a Hk) as (Hidx & _). exact Hidx.
Defined.

Lemma built_timeline_loop_positive_witness :
  exists rectProps g' root,
    Content.rectPropsFrom nat Sample.rand Sample.randomByWeights
      Sample.noise2D SampleScene.foreground Sample.animation (0, 0) 0
      [((0, 0), (0, 1)); ((1, 0), (1, 1))]%Z 0%nat = Some (rectProps, g')
    /\ Content.timelineAnimation Sample.animation rectProps = Some root
    /\ 0 < Timeline.completeTicksDuration root.
Proof.
  destruct (Content.rectPropsFrom nat Sample.rand Sample.randomByWeights
              Sample.noise2D SampleScene.foreground Sample.animation (0, 0)
              0 [((0, 0), (0, 1)); ((1, 0), (1, 1))]%Z 0%nat)
    as [[rectProps g']|] eqn:E; [| vm_compute in E; discriminate E].
  destruct (Content.timelineAnimation Sample.animation rectProps)
    as [root|] eqn:R;
    [| vm_compute in E; injection E as <- _; vm_compute in R;
       discriminate R].
  exists rectProps, g', root. split; [reflexivity|].
  split; [exact R|].
  apply (built_timeline_loop_positive nat Sample.rand Sample.randomByWeights
           Sample.noise2D SampleScene.foreground Sample.animation (0, 0)
           [((0, 0), (0, 1)); ((1, 0), (1, 1))]%Z 0%nat g' rectProps root).
  - repeat constructor; simpl; auto; lia.
  - reflexivity.
  - discriminate.
  - discriminate.
  - discriminate.
  - exact E.
  - exact R.
Defined.

Lemma built_timeline_frame_lines_witness :
  exists root r,
    Content.timelineAnimation Sample.animation Sample.rectProps = Some root
    /\ Timeline.getAnimatedLinesWithAnimations Sample.easeLinear root
         [Sample.vertical; SampleScene.horizontal] 1052 = Some r
    /\ List.length r = 2%nat.
Proof.
  destruct (built_timeline_frame_lines Sample.easeLinear Sample.animation
              Sample.rectProps _ [Sample.vertical; SampleScene.horizontal]
              1052 eq_refl eq_refl) as (r & Hr & Hall).
  eexists _, r. split; [reflexivity|]. split; [exact Hr|].
  inversion Hall as [|? ? ? ? _ Hall']; subst.
  inversion Hall' as [|? ? ? ? _ Hall'']; subst.
  inversion Hall''. reflexivity.
Defined.

Lemma convertGridLinesToRects_fails_iff_witness :
  Converter.convertGridLinesToRects Sample.sketchContext
    Sample.gridPartitioning [Sample.vertical; SampleScene.horizontal]
    [Sample.fullJitter] = None.
Proof.
  apply (proj1 (convertGridLinesToRects_fails_iff Sample.sketchContext
                  Sample.gridPartitioning
                  [Sample.vertical; SampleScene.horizontal]
                  [Sample.fullJitter])).
  simpl. lia.
Defined.

Lemma rect_spans_units_and_inner_gaps_witness :
  exists r,
    Converter.convertGridLinesToRects Sample.sketchContext
      Sample.gridPartitioning [Grid.lineOfGrid ((0, 0), (1, 0))%Z]
      [Sample.fullJitter] = Some [r]
    /\ fst (snd r) - fst (fst r) == 110.
Proof.
  destruct (rect_spans_units_and_inner_gaps Sample.sketchContext
              Sample.gridPartitioning ((0, 0), (1, 0))%Z Sample.fullJitter)
    as (r & Hr & Hx & _); [reflexivity | reflexivity |].
  exists r. split; [exact Hr|]. rewrite Hx. reflexivity.
Defined.

Lemma frame_rects_total_witness :
  exists root rects,
    Content.timelineAnimation Sample.animation Sample.rectProps = Some root
    /\ Animate.frameRects Sample.easeLinear Sample.sketchContext 10 (50, 50)
         2 1 [Sample.vertical; SampleScene.horizontal]
         [Sample.fullJitter; Sample.halfJitter] root 1052 = Some rects
    /\ List.length rects = 2%nat.
Proof.
  destruct (frame_rects_total Sample.easeLinear Sample.sketchContext
              10 (50, 50) 2 1 Sample.animation Sample.rectProps _
              [Sample.vertical; SampleScene.horizontal]
              [Sample.fullJitter; Sample.halfJitter] 1052 eq_refl eq_refl)
    as (rects & Hrects & Hlen); [simpl; lia|].
  eexists _, rects. split; [reflexivity|]. split; [exact Hrects | exact Hlen].
Defined.

Lemma parallax_returns_to_rest_witness :
  exists coeff offset,
    Animate.frameOffset Sample.sketchContext SampleScene.parallax
      (100, 40) false 7 20 = (Some offset, 7)
    /\ 0 <= coeff /\ coeff <= 1
    /\ Cord_eq offset (0, 0).
Proof.
  destruct (parallax_returns_to_rest Sample.sketchContext
              SampleScene.parallax (100, 40) 7 20)
    as (coeff & offset & Hrun & H0 & H1 & _ & _ & _ & Hrest);
    [reflexivity | discriminate |].
  exists coeff, offset. split; [exact Hrun|].
  split; [exact H0|]. split; [exact H1|].
  apply Hrest. discriminate.
Defined.

Lemma parallax_coefficient_decreases_witness :
  exists coeff coeff',
    Animate.offsetReturnCoeff SampleScene.parallax 7 9 = Some coeff
    /\ Animate.offsetReturnCoeff SampleScene.parallax 7 12 = Some coeff'
    /\ coeff' <= coeff.
Proof.
  apply (parallax_coefficient_decreases SampleScene.parallax 7 9 12).
  - reflexivity.
  - discriminate.
  - discriminate.
Defined.

Lemma lineProps_jitter_range_witness :
  Forall (fun p => fst (Converter.gitterRatio p) == 1
                   /\ snd (Converter.gitterRatio p) == 1)
    (fst (Animate.makeLineProps nat SampleScene.randomFloat (0, 0)
            [((0, 0), (0, 0)); ((1, 0), (1, 0))]%Z 0%nat)).
Proof.
  apply (lineProps_jitter_range nat SampleScene.randomFloat (0, 0)
           [((0, 0), (0, 0)); ((1, 0), (1, 0))]%Z 0%nat).
  - exact sample_randomFloat_in_range.
  - discriminate.
  - reflexivity.
  - reflexivity.
Defined.

Lemma animate_scene_aligned_witness :
  exists scene g',
    Animate.animate nat Sample.rand Sample.random SampleScene.randomFloat
      Sample.randomByWeights Sample.noise2D Sample.sketchContext
      SampleScene.foreground Sample.animation (0, 0) 10 (50, 50) 2 1
      3 0%nat = Some (scene, g')
    /\ List.length (Animate.rectProps scene)
       = List.length (Animate.lines scene)
    /\ List.length (Animate.backgroundRects scene)
       = List.length (Animate.lines scene).
Proof.
  destruct (Animate.animate nat Sample.rand Sample.random
              SampleScene.randomFloat Sample.randomByWeights Sample.noise2D
              Sample.sketchContext SampleScene.foreground Sample.animation
              (0, 0) 10 (50, 50) 2 1 3 0%nat) as [[scene g']|] eqn:E;
    [| vm_compute in E; discriminate E].
  exists scene, g'. split; [reflexivity|].
  destruct (animate_scene_aligned nat Sample.rand Sample.random
              SampleScene.randomFloat Sample.randomByWeights Sample.noise2D
              Sample.easeLinear Sample.sketchContext SampleScene.foreground
              Sample.animation (0, 0) 10 (50, 50) 2 1 3 0%nat g' scene)
    as (_ & _ & _ & Hrp & Hbg & _); [lia | lia | exact E |].
  split; [exact Hrp | exact Hbg].
Defined.

Lemma animate_reaches_frames_witness :
  exists scene g' root,
    Animate.animate nat Sample.rand Sample.random SampleScene.randomFloat
      Sample.randomByWeights Sample.noise2D Sample.sketchContext
      SampleScene.foreground Sample.animation (0, 0) 10 (50, 50) 2 1
      3 0%nat = Some (scene, g')
    /\ Animate.timelineAnimation scene = Some root
    /\ Grid.tilesRegion (0, 0)%Z (2 - 1, 1 - 1)%Z (Animate.lines scene).
Proof.
  apply (animate_reaches_frames nat Sample.rand Sample.random
           SampleScene.randomFloat Sample.randomByWeights Sample.noise2D
           Sample.sketchContext SampleScene.foreground Sample.animation
           (0, 0) 10 (50, 50) 2 1 3 0%nat).
  - exact sample_random_in_region.
  - reflexivity.
  - reflexivity.
  - simpl. lia.
  - intro g. simpl. lia.
  - repeat constructor.
  - lia.
  - lia.
  - simpl. lia.
Defined.

(** ** Periodicity and the hold of the frame *)


Section Periodicity.

Variable easeOutElastic : Q -> Q.
Variable sketchContext : Converter.SketchContext.
Variable gap : Q.
Variable unitSize : Q * Q.
Variable w h : Z.

Local Notation getAnimatedLinesWithAnimations :=
  (Timeline.getAnimatedLinesWithAnimations easeOutElastic).
Local Notation frameRects :=
  (Animate.frameRects easeOutElastic sketchContext gap unitSize w h).
Local Notation gridPartitioning :=
  (Animate.gridPartitioning gap unitSize w h).



Lemma scaleLinesFrom_compat (lineProps : list Converter.LineProps)
    (a b : list Line) :
  Forall2 Line_eq a b ->
  forall (i : nat) (ra : list Rect),
    Converter.scaleLinesFrom gridPartitioning i a lineProps = Some ra ->
    exists rb,
      Converter.scaleLinesFrom gridPartitioning i b lineProps = Some rb
      /\ Forall2 Line_eq ra rb.
Proof.
  induction 1 as [|la lb a' b' Hl _ IH]; intros i ra Hra; simpl in *.
  - injection Hra as <-. exists []. split; [reflexivity | constructor].
  - destruct (nth_error lineProps i) as [p|]; [|discriminate].
    destruct (Converter.scaleLinesFrom gridPartitioning (S i) a' lineProps)
      as [ra'|] eqn:E; [|discriminate].
    injection Hra as <-.
    destruct (IH (S i) ra' E) as (rb' & Hrb' & Hall).
    rewrite Hrb'. eexists. split; [reflexivity|].
    constructor; [|exact Hall].
    destruct Hl as [[H1 H2] [H3 H4]].
    unfold Converter.scaleLine. repeat split; cbn [fst snd];
      rewrite ?H1, ?H2, ?H3, ?H4; reflexivity.
Qed.

Lemma translate_compat (ra rb : list Rect) :
  Forall2 Line_eq ra rb ->
  Forall2 Line_eq
    (map (Converter.translateRect sketchContext gridPartitioning) ra)
    (map (Converter.translateRect sketchContext gridPartitioning) rb).
Proof.
  induction 1 as [|x y ra' rb' Hxy _ IH]; simpl; constructor; [|exact IH].
  destruct Hxy as [[H1 H2] [H3 H4]].
  unfold Converter.translateRect. repeat split; cbn [fst snd];
    rewrite ?H1, ?H2, ?H3, ?H4; reflexivity.
Qed.

(** X21: while a node whose delays and duration are whole numbers of ticks
    holds (at a whole tick of any cycle, before its start delay has elapsed
    or after its active window), the rectangles of the frame are the
    rectangles of the lines as generated, for lines with whole coordinates,
    corner for corner: the animated rectangles sit on the background
    rectangles. *)
Theorem frame_holds_on_background
    (anim : Timeline.Animation) (lines : list Line)
    (lineProps : list Converter.LineProps) (tick t0 : Q) (n : Z) :
  wholeNumber (Timeline.startDelayInTicks anim) = true ->
  wholeNumber (Timeline.durationInTicks anim) = true ->
  wholeNumber (Timeline.endDelayInTicks anim) = true ->
  wholeNumber tick = true ->
  forallb wholeLine lines = true ->
  0 < Timeline.completeTicksDuration anim ->
  (0 <= n)%Z ->
  0 <= t0 -> t0 < Timeline.completeTicksDuration anim ->
  tick == inject_Z n * Timeline.completeTicksDuration anim + t0 ->
  t0 < Timeline.startDelayInTicks anim
  \/ Timeline.startDelayInTicks anim + Timeline.durationInTicks anim <= t0 ->
  (List.length lines <= List.length lineProps)%nat ->
  exists rects background,
    frameRects lines lineProps anim tick = Some rects
    /\ Converter.convertGridLinesToRects sketchContext gridPartitioning
         lines lineProps = Some background
    /\ Forall2 Line_eq rects background.
Proof.
  intros _ _ _ _ _ Hc Hn Ht0 Hlt Htick Hcase Hlen.
  destruct (jsRem_cycles _ _ _ _ Hc Hn Ht0 Hlt Htick) as (m & Hm & Hmeq).
  unfold Animate.frameRects.
  rewrite (getAnimatedLines_hold easeOutElastic anim lines tick m Hm);
    [|destruct Hcase; [left | right]; lra].
  pose proof (hold_open easeOutElastic lines) as Hopen.
  set (held := map (fun l => Timeline.animateLine easeOutElastic l
                               (Some Timeline.static) 1) lines) in *.
  assert (Hheld : (List.length held <= List.length lineProps)%nat)
    by (unfold held; rewrite length_map; exact Hlen).
  destruct (scaleLinesFrom_spec gridPartitioning held lineProps 0%nat)
    as (ra & Hra & _ & _); [simpl; lia|].
  destruct (scaleLinesFrom_compat lineProps held lines Hopen 0%nat ra Hra)
    as (rb & Hrb & Hall).
  unfold Converter.convertGridLinesToRects. rewrite Hra, Hrb.
  eexists _, _. split; [reflexivity|]. split; [reflexivity|].
  apply translate_compat. exact Hall.
Qed.

End Periodicity.


Lemma frame_holds_on_background_witness :
  exists rects background,
    Animate.frameRects Sample.easeLinear Sample.sketchContext 10 (50, 50)
      2 1 [Sample.vertical] [Sample.fullJitter] Sample.breath 165
    = Some rects
    /\ Converter.convertGridLinesToRects Sample.sketchContext
         (Animate.gridPartitioning 10 (50, 50) 2 1)
         [Sample.vertical] [Sample.fullJitter] = Some background
    /\ Forall2 Line_eq rects background.
Proof.
  apply (frame_holds_on_background Sample.easeLinear Sample.sketchContext
           10 (50, 50) 2 1 Sample.breath [Sample.vertical]
           [Sample.fullJitter] 165 5 2).
  - reflexivity.
  - reflexivity.
  - reflexivity.
  - reflexivity.
  - reflexivity.
  - reflexivity.
  - lia.
  - discriminate.
  - reflexivity.
  - reflexivity.
  - left. reflexivity.
  - simpl. lia.
Defined.
